(** * Strawberry::Vulkan memory allocator: shallow embedding and properties

    Embedding of [src/Strawberry/Vulkan/Memory/Allocator.hpp] and
    [src/Strawberry/Vulkan/Memory/Allocator.cpp].

    - C++ objects that are reached through references or
      [Core::ReflexivePointer]s ([MemoryPool], [Allocator], [Device],
      [PhysicalDevice], and [Allocation] objects whose lifetime matters)
      live in stores indexed by an object identity;
    - member functions that touch the native API or a shared object are
      computations in a state-and-abort monad over [World];
    - the native Vulkan entry points are answered by a [Driver] that may
      depend on the whole history of native calls. *)

From Stdlib Require Import ZArith List Lia Bool.
From Stdlib.Strings Require Import Byte.
From stdpp Require Import base option gmap list.

Open Scope Z_scope.

(* ===================================================================== *)
(** ** Vulkan constants (values of vulkan_core.h)                          *)
(* ===================================================================== *)

Definition VK_SUCCESS : Z := 0.
Definition VK_ERROR_OUT_OF_HOST_MEMORY : Z := -1.
Definition VK_ERROR_OUT_OF_DEVICE_MEMORY : Z := -2.
Definition VK_NULL_HANDLE : Z := 0.
(** [VK_WHOLE_SIZE] is [(~0ULL)]. *)
Definition VK_WHOLE_SIZE : Z := Z.ones 64.
Definition VK_MEMORY_PROPERTY_DEVICE_LOCAL_BIT : Z := 1.
Definition VK_MEMORY_PROPERTY_HOST_VISIBLE_BIT : Z := 2.
Definition VK_MEMORY_PROPERTY_HOST_COHERENT_BIT : Z := 4.

(** [uint32_t] wrap-around, used by the default member initialisers. *)
Definition uint32 (z : Z) : Z := z mod 2 ^ 32.

(* ===================================================================== *)
(** ** Core::ReflexivePointer                                              *)
(* ===================================================================== *)

(** Modelled from the spec: [Core::ReflexivePointer<T>] (Strawberry Core,
    not under src/) is the "weak, liveness-checked reference" of the
    specification: it is null or names one object, it converts to [true]
    only while that object is alive, and moving it leaves the source null.
    A pointer is [None] (nullptr) or [Some id] with [id] the identity of the
    referent in the corresponding store. *)
Definition ReflexivePointer : Type := option nat.

Definition nullptr : ReflexivePointer := None.

(** [ReflexivePointer(T& object)]. *)
Definition pointer_to (id : nat) : ReflexivePointer := Some id.

(** [std::move(p)]: the pointer that is handed over, and what is left in the
    source. *)
Definition move_pointer (p : ReflexivePointer) : ReflexivePointer * ReflexivePointer :=
  (p, nullptr).

(* ===================================================================== *)
(** ** AllocationError                                                     *)
(* ===================================================================== *)

Module AllocationError.

(** The three empty structs nested in [class AllocationError]. *)
Inductive Tag : Type :=
| OutOfMemory
| MemoryTypeUnavailable
| RequestTooLarge.

(** [using Info = Core::Variant<OutOfMemory, MemoryTypeUnavailable>]: the
    private payload has the two alternatives that are listed. *)
Inductive Info : Type :=
| Info_OutOfMemory
| Info_MemoryTypeUnavailable.

Record t : Type := mk { mInfo : Info }.

(** Conversion of a tag value into [Info], as the variant's converting
    constructor does for [mInfo(info)]: it exists for the listed
    alternatives only. *)
Definition Info_from (T : Tag) : option Info :=
  match T with
  | OutOfMemory => Some Info_OutOfMemory
  | MemoryTypeUnavailable => Some Info_MemoryTypeUnavailable
  | RequestTooLarge => None
  end.

(** [template<typename T> AllocationError(T info) : mInfo(info) {}].
    [None] stands for an instantiation that is ill-formed: no value of the
    class results. *)
Definition ctor (T : Tag) : option t :=
  match Info_from T with
  | Some i => Some (mk i)
  | None => None
  end.

(** The alternative held by an error value, read back as a tag. *)
Definition held (e : t) : Tag :=
  match mInfo e with
  | Info_OutOfMemory => OutOfMemory
  | Info_MemoryTypeUnavailable => MemoryTypeUnavailable
  end.

End AllocationError.

(** [Core::Result<T, E>]. *)
Inductive Result (T E : Type) : Type :=
| Ok (value : T)
| Err (error : E).
Arguments Ok {T E} value.
Arguments Err {T E} error.

(* ===================================================================== *)
(** ** Class data                                                          *)
(* ===================================================================== *)

Module MemoryPool.

Record t : Type := mk {
  mDevice : ReflexivePointer;
  mPhysicalDevice : ReflexivePointer;
  mMemoryTypeIndex : Z;
  mMemory : Z;
  mSize : Z;
  mMappedAddress : option Z
}.

(** [MemoryPool() = default], with the default member initialisers. *)
Definition default_ctor : t :=
  mk nullptr nullptr (uint32 (-1)) VK_NULL_HANDLE 0 None.

(** [MemoryPool(device, physicalDevice, memoryTypeIndex, memory, size)]. *)
Definition ctor (device physicalDevice : nat) (memoryTypeIndex memory size : Z) : t :=
  mk (pointer_to device) (pointer_to physicalDevice) memoryTypeIndex memory size None.

Definition Memory (p : t) : Z := mMemory p.
Definition MemoryTypeIndex (p : t) : Z := mMemoryTypeIndex p.
Definition Size (p : t) : Z := mSize p.

Definition set_mMappedAddress (a : option Z) (p : t) : t :=
  mk (mDevice p) (mPhysicalDevice p) (mMemoryTypeIndex p) (mMemory p) (mSize p) a.

End MemoryPool.

Module Allocation.

Record t : Type := mk {
  mDevice : Z;
  mAllocator : ReflexivePointer;
  mRawAllocation : ReflexivePointer;
  mOffset : Z;
  mSize : Z
}.

(** [Allocation() = default]. *)
Definition default_ctor : t := mk VK_NULL_HANDLE nullptr nullptr 0 0.

(** [Allocation(Allocator& allocator, MemoryPool& allocation, size_t
    offset, size_t size)] as defined in Allocator.cpp; [mDevice] keeps its
    default member initialiser. *)
Definition ctor (allocator allocation : nat) (offset size : Z) : t :=
  mk VK_NULL_HANDLE (pointer_to allocator) (pointer_to allocation) offset size.

(** [Allocation(Allocation&& other)]: the new object, and [other] as the
    constructor leaves it. *)
Definition move_ctor (other : t) : t * t :=
  let '(a, a_left) := move_pointer (mAllocator other) in
  let '(r, r_left) := move_pointer (mRawAllocation other) in
  (mk VK_NULL_HANDLE a r (mOffset other) (mSize other),
   mk (mDevice other) a_left r_left (mOffset other) (mSize other)).

Definition GetAllocator (a : t) : ReflexivePointer := mAllocator a.
Definition Offset (a : t) : Z := mOffset a.
Definition Size (a : t) : Z := mSize a.

End Allocation.

Module AllocationRequest.

Record t : Type := mk {
  device : ReflexivePointer;
  size : Z;
  alignment : Z;
  memoryTypeMask : Z
}.

(** [AllocationRequest(const Device& device, size_t size, size_t
    alignment)]; [memoryTypeMask] takes its default member initialiser
    [0xFFFFFFFF]. *)
Definition ctor (device : nat) (size alignment : Z) : t :=
  mk (pointer_to device) size alignment 0xFFFFFFFF.

(** The fields of [VkMemoryRequirements]. *)
Record VkMemoryRequirements : Type := mkRequirements {
  req_size : Z;
  req_alignment : Z;
  memoryTypeBits : Z
}.

(** [AllocationRequest(VkMemoryRequirements& requirements)]. *)
Definition from_requirements (requirements : VkMemoryRequirements) : t :=
  mk nullptr (req_size requirements) (req_alignment requirements)
     (memoryTypeBits requirements).

End AllocationRequest.

(* ===================================================================== *)
(** ** The world the member functions run in                               *)
(* ===================================================================== *)

(** Calls into the native API, with the arguments the source passes. *)
Inductive Call : Type :=
| CallAllocateMemory (device : nat) (allocationSize memoryTypeIndex : Z)
| CallMapMemory (device : nat) (memory offset size flags : Z)
| CallFlushMappedMemoryRanges (device : nat) (memory offset size : Z).

Definition is_flush (c : Call) : bool :=
  match c with
  | CallFlushMappedMemoryRanges _ _ _ _ => true
  | _ => false
  end.

Definition is_map (c : Call) : bool :=
  match c with
  | CallMapMemory _ _ _ _ _ => true
  | _ => false
  end.

(** One call of the pure virtual [Allocator::Free(Allocation&&)]: the
    [Allocation] object whose destructor made the call, the allocator that
    received it, and the contents of the argument. *)
Record FreeCall : Type := mkFreeCall {
  free_holder : nat;
  free_allocator : nat;
  free_argument : Allocation.t
}.

Record World : Type := mkWorld {
  (** native calls made so far, oldest first *)
  calls : list Call;
  (** host address space reached through mapped pointers *)
  host : gmap Z byte;
  (** the [MemoryPool] objects that are alive *)
  pools : gmap nat MemoryPool.t;
  (** the [Allocator] objects that are alive *)
  allocators : gset nat;
  (** the [Allocation] objects that are alive *)
  objects : gmap nat Allocation.t;
  (** calls of [Allocator::Free] made so far, oldest first *)
  frees : list FreeCall
}.

Definition set_calls (c : list Call) (w : World) : World :=
  mkWorld c (host w) (pools w) (allocators w) (objects w) (frees w).
Definition set_host (h : gmap Z byte) (w : World) : World :=
  mkWorld (calls w) h (pools w) (allocators w) (objects w) (frees w).
Definition set_pools (p : gmap nat MemoryPool.t) (w : World) : World :=
  mkWorld (calls w) (host w) p (allocators w) (objects w) (frees w).
Definition set_objects (o : gmap nat Allocation.t) (w : World) : World :=
  mkWorld (calls w) (host w) (pools w) (allocators w) o (frees w).
Definition set_frees (f : list FreeCall) (w : World) : World :=
  mkWorld (calls w) (host w) (pools w) (allocators w) (objects w) f.

(** What lies outside the two source files and does not change while they
    run: the answers of the native entry points (each may depend on the
    calls made before it), the [Device] objects that are alive, and for each
    live [PhysicalDevice] the [propertyFlags] of
    [GetMemoryProperties().memoryTypes[i]]. *)
Record Driver : Type := mkDriver {
  allocate_memory : list Call -> nat -> Z -> Z -> Z * Z;
  map_memory : list Call -> nat -> Z -> Z -> Z -> Z -> Z * Z;
  flush_ranges : list Call -> nat -> Z -> Z -> Z -> Z;
  devices : gset nat;
  physicalDevices : gmap nat (Z -> Z)
}.

(** A member function either returns or stops the process. *)
Inductive Outcome (A : Type) : Type :=
| Returns (a : A)
| Aborts.
Arguments Returns {A} a.
Arguments Aborts {A}.

Definition M (A : Type) : Type := World -> Outcome (A * World).

Definition ret {A} (a : A) : M A := fun w => Returns (a, w).

Definition bind {A B} (c : M A) (k : A -> M B) : M B :=
  fun w =>
    match c w with
    | Returns (a, w') => k a w'
    | Aborts => Aborts
    end.

Definition abort {A} : M A := fun _ => Aborts.

Definition get_world : M World := fun w => Returns (w, w).
Definition modify (f : World -> World) : M unit := fun w => Returns (tt, f w).

Declare Scope monad_scope.
Delimit Scope monad_scope with monad.
Notation "x <- c ;; k" := (bind c (fun x => k))
  (at level 100, c at next level, right associativity) : monad_scope.
Notation "c ;;; k" := (bind c (fun _ => k))
  (at level 100, right associativity) : monad_scope.
Open Scope monad_scope.

(** Modelled from the spec: [Core::Assert], [Core::AssertEQ],
    [Core::AssertImplication] and [Core::Unreachable] (Strawberry Core, not
    under src/) are the fail-fast checks of the specification's
    programmer-error class: a check that does not hold, and reaching
    [Unreachable], terminate the process. *)
Definition Assert (b : bool) : M unit := if b then ret tt else abort.
Definition AssertEQ (a b : Z) : M unit := Assert (a =? b).
Definition AssertImplication (a b : bool) : M unit := Assert (implb a b).
Definition Unreachable {A} : M A := abort.

(** [std::memcpy(dst, bytes.Data(), bytes.Size())] on the host address
    space. *)
Fixpoint memcpy_bytes (dst : Z) (bytes : list byte) (h : gmap Z byte) : gmap Z byte :=
  match bytes with
  | [] => h
  | b :: rest => memcpy_bytes (dst + 1) rest (<[dst := b]> h)
  end.

Definition memcpy (dst : Z) (bytes : list byte) : M unit :=
  modify (fun w => set_host (memcpy_bytes dst bytes (host w)) w).

(** [bytes.Size()] of a [Core::IO::DynamicByteBuffer]. *)
Definition buffer_size (bytes : list byte) : Z := Z.of_nat (length bytes).

(** Conversion of a [ReflexivePointer<Allocator>] to [bool]. *)
Definition allocator_bool (w : World) (p : ReflexivePointer) : bool :=
  match p with
  | Some id => bool_decide (id ∈ allocators w)
  | None => false
  end.

(** Conversion of a [ReflexivePointer<MemoryPool>] to [bool]. *)
Definition pool_bool (w : World) (p : ReflexivePointer) : bool :=
  match p with
  | Some id => bool_decide (is_Some (pools w !! id))
  | None => false
  end.

(* ===================================================================== *)
(** ** Member functions                                                    *)
(* ===================================================================== *)

Section Methods.

Variable drv : Driver.

(** *** Native entry points *)

(** [vkAllocateMemory(device, &allocateInfo, nullptr, &deviceMemory)]:
    the [VkResult] and the handle written through the last argument. *)
Definition vkAllocateMemory (device : nat) (allocationSize memoryTypeIndex : Z) : M (Z * Z) :=
  fun w =>
    Returns (allocate_memory drv (calls w) device allocationSize memoryTypeIndex,
             set_calls (calls w ++ [CallAllocateMemory device allocationSize memoryTypeIndex]) w).

(** [vkMapMemory(device, memory, offset, size, flags, &mappedAddress)]:
    the [VkResult] and the address written through the last argument. *)
Definition vkMapMemory (device : nat) (memory offset size flags : Z) : M (Z * Z) :=
  fun w =>
    Returns (map_memory drv (calls w) device memory offset size flags,
             set_calls (calls w ++ [CallMapMemory device memory offset size flags]) w).

(** [vkFlushMappedMemoryRanges(device, 1, &range)]. *)
Definition vkFlushMappedMemoryRanges (device : nat) (memory offset size : Z) : M Z :=
  fun w =>
    Returns (flush_ranges drv (calls w) device memory offset size,
             set_calls (calls w ++ [CallFlushMappedMemoryRanges device memory offset size]) w).

(** *** Dereferencing

    Dereferencing a [ReflexivePointer] that is null or whose referent is no
    longer alive belongs to the programmer-error class: the process stops.
    The same holds for a member function called on an object that is not
    alive. *)

(** [*mDevice]. *)
Definition deref_device (p : ReflexivePointer) : M nat :=
  match p with
  | Some id => if bool_decide (id ∈ devices drv) then ret id else abort
  | None => abort
  end.

(** [mPhysicalDevice->GetMemoryProperties().memoryTypes]. *)
Definition deref_physicalDevice (p : ReflexivePointer) : M (Z -> Z) :=
  match p with
  | Some id =>
      match physicalDevices drv !! id with
      | Some memoryTypes => ret memoryTypes
      | None => abort
      end
  | None => abort
  end.

(** [mRawAllocation->]: the identity of the pool that is referred to. *)
Definition deref_pool (p : ReflexivePointer) : M nat :=
  fun w =>
    match p with
    | Some id => if pool_bool w p then Returns (id, w) else Aborts
    | None => Aborts
    end.

(** [mAllocator->]: the identity of the allocator that is referred to. *)
Definition deref_allocator (p : ReflexivePointer) : M nat :=
  fun w =>
    match p with
    | Some id => if allocator_bool w p then Returns (id, w) else Aborts
    | None => Aborts
    end.

(** [*this] of a [MemoryPool] member function. *)
Definition this_pool (this : nat) : M MemoryPool.t :=
  fun w =>
    match pools w !! this with
    | Some p => Returns (p, w)
    | None => Aborts
    end.

(** [*this] of an [Allocation] member function that needs the object's
    identity. *)
Definition this_object (this : nat) : M Allocation.t :=
  fun w =>
    match objects w !! this with
    | Some a => Returns (a, w)
    | None => Aborts
    end.

(** *** MemoryPool *)

(** [MemoryPool::Allocate] (Allocator.cpp:34). *)
Definition MemoryPool_Allocate (device physicalDevice : nat) (memoryTypeIndex size : Z)
  : M (Result MemoryPool.t AllocationError.t) :=
  r <- vkAllocateMemory device size memoryTypeIndex ;;
  let '(allocationResult, deviceMemory) := r in
  if (allocationResult =? VK_ERROR_OUT_OF_HOST_MEMORY)
     || (allocationResult =? VK_ERROR_OUT_OF_DEVICE_MEMORY)
  then ret (Err (AllocationError.mk AllocationError.Info_OutOfMemory))
  else if allocationResult =? VK_SUCCESS
  then ret (Ok (MemoryPool.ctor device physicalDevice memoryTypeIndex deviceMemory size))
  else Unreachable.

(** [MemoryPool::AllocateView] (Allocator.cpp:97):
    [return {allocator, *this, offset, size};]. *)
Definition MemoryPool_AllocateView (this allocator : nat) (offset size : Z) : M Allocation.t :=
  ret (Allocation.ctor allocator this offset size).

(** [MemoryPool::Properties] (Allocator.cpp:103). *)
Definition MemoryPool_Properties (this : nat) : M Z :=
  p <- this_pool this ;;
  memoryTypes <- deref_physicalDevice (MemoryPool.mPhysicalDevice p) ;;
  ret (memoryTypes (MemoryPool.mMemoryTypeIndex p)).

(** [MemoryPool::GetMappedAddress] (Allocator.cpp:109). *)
Definition MemoryPool_GetMappedAddress (this : nat) : M Z :=
  p <- this_pool this ;;
  match MemoryPool.mMappedAddress p with
  | Some address => ret address
  | None =>
      flags <- MemoryPool_Properties this ;;
      Assert (negb (Z.land flags VK_MEMORY_PROPERTY_HOST_VISIBLE_BIT =? 0)) ;;;
      device <- deref_device (MemoryPool.mDevice p) ;;
      r <- vkMapMemory device (MemoryPool.mMemory p) 0 VK_WHOLE_SIZE 0 ;;
      let '(result, mappedAddress) := r in
      AssertEQ result VK_SUCCESS ;;;
      modify (fun w =>
        set_pools (<[this := MemoryPool.set_mMappedAddress (Some mappedAddress) p]> (pools w)) w) ;;;
      ret mappedAddress
  end.

(** [MemoryPool::Flush] (Allocator.cpp:123). *)
Definition MemoryPool_Flush (this : nat) : M unit :=
  p <- this_pool this ;;
  device <- deref_device (MemoryPool.mDevice p) ;;
  result <- vkFlushMappedMemoryRanges device (MemoryPool.mMemory p) 0 VK_WHOLE_SIZE ;;
  AssertEQ result VK_SUCCESS.

(** [MemoryPool::Overwrite] (Allocator.cpp:137). *)
Definition MemoryPool_Overwrite (this : nat) (bytes : list byte) : M unit :=
  p <- this_pool this ;;
  Assert (buffer_size bytes <=? MemoryPool.Size p) ;;;
  dst <- MemoryPool_GetMappedAddress this ;;
  memcpy dst bytes ;;;
  flags <- MemoryPool_Properties this ;;
  if Z.land flags VK_MEMORY_PROPERTY_HOST_COHERENT_BIT =? 0
  then MemoryPool_Flush this
  else ret tt.

(** *** Allocator *)

(** [Allocator::Free(Allocation&& address)] is pure virtual
    (Allocator.hpp:157): what an implementation does is not in the source;
    the call itself is recorded, with the object the reference is bound to
    and its contents at the time of the call. *)
Definition Allocator_Free (allocator address : nat) : M unit :=
  a <- this_object address ;;
  modify (fun w => set_frees (frees w ++ [mkFreeCall address allocator a]) w).

(** *** Allocation *)

(** [Allocation::operator bool] (Allocator.hpp:174). *)
Definition Allocation_operator_bool (a : Allocation.t) : M bool :=
  w <- get_world ;;
  AssertImplication (negb (allocator_bool w (Allocation.mAllocator a)))
                    (pool_bool w (Allocation.mRawAllocation a)) ;;;
  ret (allocator_bool w (Allocation.mAllocator a)).

(** The beginning and the end of the lifetime of an [Allocation] object
    at [this].  Starting a lifetime in storage that holds a live object is
    not something the source does; the model stops there. *)
Definition begin_lifetime (this : nat) (a : Allocation.t) : M unit :=
  fun w =>
    match objects w !! this with
    | Some _ => Aborts
    | None => Returns (tt, set_objects (<[this := a]> (objects w)) w)
    end.

Definition end_lifetime (this : nat) : M unit :=
  modify (fun w => set_objects (delete this (objects w)) w).

(** [Allocation::~Allocation] (Allocator.cpp:175), followed by the end of
    the object's lifetime. *)
Definition Allocation_destructor (this : nat) : M unit :=
  a <- this_object this ;;
  w <- get_world ;;
  AssertImplication (negb (allocator_bool w (Allocation.mAllocator a)))
                    (negb (pool_bool w (Allocation.mRawAllocation a))) ;;;
  (if allocator_bool w (Allocation.mAllocator a)
   then allocator <- deref_allocator (Allocation.mAllocator a) ;;
        Allocator_Free allocator this
   else ret tt) ;;;
  end_lifetime this.

(** [Allocation::Allocation(Allocation&& other)] (Allocator.cpp:156),
    constructing the object at [this]. *)
Definition Allocation_move_ctor (this other : nat) : M unit :=
  o <- this_object other ;;
  let '(new, moved_from) := Allocation.move_ctor o in
  modify (fun w => set_objects (<[other := moved_from]> (objects w)) w) ;;;
  begin_lifetime this new.

(** [Allocation::operator=(Allocation&& other)] (Allocator.cpp:163). *)
Definition Allocation_move_assign (this other : nat) : M unit :=
  if bool_decide (this ≠ other)
  then Allocation_destructor this ;;; Allocation_move_ctor this other
  else ret tt.

(** [Allocation::Properties] (Allocator.cpp:209). *)
Definition Allocation_Properties (a : Allocation.t) : M Z :=
  pool <- deref_pool (Allocation.mRawAllocation a) ;;
  MemoryPool_Properties pool.

(** [Allocation::GetMappedAddress] (Allocator.cpp:215). *)
Definition Allocation_GetMappedAddress (a : Allocation.t) : M Z :=
  pool <- deref_pool (Allocation.mRawAllocation a) ;;
  base <- MemoryPool_GetMappedAddress pool ;;
  ret (base + Allocation.mOffset a).

(** [Allocation::Overwrite] (Allocator.cpp:235). *)
Definition Allocation_Overwrite (a : Allocation.t) (bytes : list byte) : M unit :=
  Assert (buffer_size bytes <=? Allocation.Size a) ;;;
  dst <- Allocation_GetMappedAddress a ;;
  memcpy dst bytes.

End Methods.

(* ===================================================================== *)
(** ** Programs over Allocation objects                                    *)
(* ===================================================================== *)

(** What client code can do to [Allocation] objects once they exist: move
    construction of a new object, move assignment between two objects, and
    destruction. *)
Inductive Op : Type :=
| MoveConstruct (this other : nat)
| MoveAssign (this other : nat)
| Destroy (this : nat).

Definition exec_op (op : Op) : M unit :=
  match op with
  | MoveConstruct this other => Allocation_move_ctor this other
  | MoveAssign this other => Allocation_move_assign this other
  | Destroy this => Allocation_destructor this
  end.

Fixpoint exec (ops : list Op) : M unit :=
  match ops with
  | [] => ret tt
  | op :: rest => exec_op op ;;; exec rest
  end.

(** The objects that are alive after [op], given those alive before. *)
Definition live_after (op : Op) (live : gset nat) : gset nat :=
  match op with
  | MoveConstruct this _ => {[ this ]} ∪ live
  | MoveAssign _ _ => live
  | Destroy this => live ∖ {[ this ]}
  end.

(** [op] respects object lifetimes: it constructs into storage that holds
    no live object, and it uses live objects only. *)
Definition op_valid (op : Op) (live : gset nat) : bool :=
  match op with
  | MoveConstruct this other => bool_decide (other ∈ live) && bool_decide (this ∉ live)
  | MoveAssign this other => bool_decide (this ∈ live) && bool_decide (other ∈ live)
  | Destroy this => bool_decide (this ∈ live)
  end.

Fixpoint valid (ops : list Op) (live : gset nat) : bool :=
  match ops with
  | [] => true
  | op :: rest => op_valid op live && valid rest (live_after op live)
  end.

Fixpoint final_live (ops : list Op) (live : gset nat) : gset nat :=
  match ops with
  | [] => live
  | op :: rest => final_live rest (live_after op live)
  end.

(** An [Allocation] that holds neither back-reference. *)
Definition is_empty (a : Allocation.t) : Prop :=
  Allocation.mAllocator a = None /\ Allocation.mRawAllocation a = None.

(** An [Allocation] that holds the claim on [[offset, offset + size)] of
    [pool] handed out by [allocator]. *)
Definition holds_claim (allocator pool : nat) (offset size : Z) (a : Allocation.t) : Prop :=
  Allocation.mAllocator a = Some allocator /\
  Allocation.mRawAllocation a = Some pool /\
  Allocation.mOffset a = offset /\
  Allocation.mSize a = size.

(** The object that holds the claim after [op] when [holder] holds it
    before, or [None] when [op] runs the destructor of [holder]. *)
Definition holder_after (op : Op) (holder : nat) : option nat :=
  match op with
  | MoveConstruct this other =>
      Some (if bool_decide (other = holder) then this else holder)
  | MoveAssign this other =>
      if bool_decide (this = other) then Some holder
      else if bool_decide (this = holder) then None
      else Some (if bool_decide (other = holder) then this else holder)
  | Destroy this =>
      if bool_decide (this = holder) then None else Some holder
  end.

(** The last object to hold the claim in the course of [ops]. *)
Fixpoint final_holder (ops : list Op) (holder : nat) : nat :=
  match ops with
  | [] => holder
  | op :: rest =>
      match holder_after op holder with
      | Some holder' => final_holder rest holder'
      | None => holder
      end
  end.

(** Every live [Allocation] object other than [holder] is empty. *)
Definition others_empty (w : World) (holder : nat) : Prop :=
  forall id b, id <> holder -> objects w !! id = Some b -> is_empty b.

(** Every live [Allocation] object is empty. *)
Definition all_empty (w : World) : Prop :=
  forall id b, objects w !! id = Some b -> is_empty b.

(** The state "Bound" of the claim: [holder] holds it, with a live
    allocator, and no other object does. *)
Definition bound_at (allocator pool : nat) (offset size : Z) (w : World) (holder : nat) : Prop :=
  allocator ∈ allocators w /\
  (exists a, objects w !! holder = Some a /\ holds_claim allocator pool offset size a) /\
  others_empty w holder.

(** What an [Allocation] claims: its two back-references, its offset and
    its size. *)
Definition claim_of (a : Allocation.t) : ReflexivePointer * ReflexivePointer * Z * Z :=
  (Allocation.mAllocator a, Allocation.mRawAllocation a,
   Allocation.mOffset a, Allocation.mSize a).

(** The claim that the destructor of [a] has still to release, if any. *)
Definition pending_of (a : Allocation.t) : list (ReflexivePointer * ReflexivePointer * Z * Z) :=
  match Allocation.mAllocator a with
  | Some _ => [claim_of a]
  | None => []
  end.

(** The claims held by the live [Allocation] objects, with multiplicity. *)
Definition pending (objs : gmap nat Allocation.t)
  : list (ReflexivePointer * ReflexivePointer * Z * Z) :=
  map_to_list objs ≫= (fun entry => pending_of (snd entry)).

(** The claims handed to [Allocator::Free] so far, in the order of the
    calls. *)
Definition released (w : World) : list (ReflexivePointer * ReflexivePointer * Z * Z) :=
  (fun call => claim_of (free_argument call)) <$> frees w.

(** Every live [Allocation] object is empty or refers to a live
    allocator. *)
Definition well_formed (w : World) : Prop :=
  forall id a,
    objects w !! id = Some a ->
    is_empty a \/
    exists allocator, Allocation.mAllocator a = Some allocator /\ allocator ∈ allocators w.

(** A call of [Allocator::Free] whose argument refers to the allocator
    that received it: the call comes from an object that held a claim, not
    from an empty or moved-from one. *)
Definition from_holder (call : FreeCall) : Prop :=
  Allocation.mAllocator (free_argument call) = Some (free_allocator call).

(** The number of native calls of one kind in a history. *)
Definition count_calls (kind : Call -> bool) (history : list Call) : nat :=
  length (List.filter kind history).

(** The world after the one native map that [GetMappedAddress] makes for
    pool [this], whose contents are [p], on [device], with [address] the
    address the driver produced. *)
Definition mapped_world (this : nat) (p : MemoryPool.t) (device : nat) (address : Z) (w : World) : World :=
  set_pools (<[this := MemoryPool.set_mMappedAddress (Some address) p]> (pools w))
    (set_calls (calls w ++ [CallMapMemory device (MemoryPool.mMemory p) 0 VK_WHOLE_SIZE 0]) w).

(* ===================================================================== *)
(** ** A concrete scenario                                                 *)
(* ===================================================================== *)

(** The end-to-end scenario of the specification: one device, one physical
    device whose memory type 0 is host-visible and not host-coherent (type 1
    is host-visible and host-coherent, the others device-local), a live
    allocator, and a 256-byte pool of type 0 with native handle 7.  The
    driver succeeds everywhere and hands out a new address for every map. *)
Module Scenario.

Definition memoryTypes (i : Z) : Z :=
  if i =? 0 then VK_MEMORY_PROPERTY_HOST_VISIBLE_BIT
  else if i =? 1
  then Z.lor VK_MEMORY_PROPERTY_HOST_VISIBLE_BIT VK_MEMORY_PROPERTY_HOST_COHERENT_BIT
  else VK_MEMORY_PROPERTY_DEVICE_LOCAL_BIT.

Definition maps_so_far (history : list Call) : Z :=
  Z.of_nat (length (List.filter is_map history)).

Definition driver : Driver :=
  mkDriver (fun _ _ _ _ => (VK_SUCCESS, 7))
           (fun history _ _ _ _ _ => (VK_SUCCESS, 4096 + 256 * maps_so_far history))
           (fun _ _ _ _ _ => VK_SUCCESS)
           {[ 0%nat ]}
           {[ 0%nat := memoryTypes ]}.

(** A driver whose allocation fails with [result]. *)
Definition failing_driver (result : Z) : Driver :=
  mkDriver (fun _ _ _ _ => (result, VK_NULL_HANDLE))
           (map_memory driver) (flush_ranges driver)
           (devices driver) (physicalDevices driver).

Definition pool (memoryTypeIndex : Z) : MemoryPool.t :=
  MemoryPool.ctor 0 0 memoryTypeIndex 7 256.

(** Pool 0 is not host-coherent, pool 1 is, pool 2 is not host-visible. *)
Definition world : World :=
  mkWorld [] ∅ {[ 0%nat := pool 0; 1%nat := pool 1; 2%nat := pool 2 ]} {[ 0%nat ]} ∅ [].

(** The allocation of size 64 at offset 0 of pool 0. *)
Definition view : Allocation.t := Allocation.ctor 0 0 0 64.

(** 64 bytes of value [0xAB]. *)
Definition pattern : list byte := repeat xab 64.

(** The scenario once the view lives in the [Allocation] object 0. *)
Definition world_with_view : World := set_objects {[ 0%nat := view ]} world.

(** The view is moved from object 0 through new objects 1 and 2, moved
    back into 0 and from there into 1; then the three objects are
    destroyed. *)
Definition program : list Op :=
  [MoveConstruct 1 0; MoveConstruct 2 1; MoveAssign 0 2; MoveAssign 1 0;
   Destroy 0; Destroy 2; Destroy 1].

End Scenario.

(** The scenario with two bound [Allocation] objects, object 0 with the
    view of pool 0 and object 1 with a view of pool 1, and a program that
    assigns the second to the first and moves the result on before
    everything is destroyed. *)
Module ReleaseScenario.

Definition other_view : Allocation.t := Allocation.ctor 0 1 32 8.

Definition world : World :=
  set_objects {[ 0%nat := Scenario.view; 1%nat := other_view ]} Scenario.world.

Definition program : list Op :=
  [MoveAssign 0 1; MoveConstruct 2 0; Destroy 0; Destroy 1; Destroy 2].

End ReleaseScenario.

(* ===================================================================== *)
(** ** Move-only owners of a native object                                 *)
(* ===================================================================== *)

(** [MemoryPool], [CommandPool] and [Pipeline] are written to one pattern:
    a move constructor that takes the handles and nulls them in the source,
    a destructor that gives the handles back to the driver, and

    [[
      T& T::operator=(T&& rhs)
      {
          if (this != &rhs)
          {
              std::destroy_at(this);
              std::construct_at(this, std::move(rhs));
          }
          return *this;
      }
    ]]

    The objects that are alive sit in a store indexed by their identity;
    the native calls that destructors make are appended to a log.  The move
    constructor is given as the new object together with the source as it is
    left, the destructor as the native calls it makes. *)
Module MoveOnly.

Section Store.

Context {T E : Type}.

Record Store : Type := mkStore {
  live : gmap nat T;
  log : list E
}.

Variable move_ctor : T -> T * T.
Variable destructor : T -> Outcome (list E).

(** [std::destroy_at(this)]. *)
Definition destroy_at (this : nat) (s : Store) : Outcome Store :=
  match live s !! this with
  | Some x =>
      match destructor x with
      | Returns events => Returns (mkStore (delete this (live s)) (log s ++ events))
      | Aborts => Aborts
      end
  | None => Aborts
  end.

(** [std::construct_at(this, std::move(other))]. *)
Definition construct_at (this other : nat) (s : Store) : Outcome Store :=
  match live s !! other, live s !! this with
  | Some x, None =>
      let '(new, moved_from) := move_ctor x in
      Returns (mkStore (<[this := new]> (<[other := moved_from]> (live s))) (log s))
  | _, _ => Aborts
  end.

(** [operator=(T&& other)]. *)
Definition move_assign (this other : nat) (s : Store) : Outcome Store :=
  if bool_decide (this ≠ other)
  then match destroy_at this s with
       | Returns s' => construct_at this other s'
       | Aborts => Aborts
       end
  else Returns s.

Definition run_op (op : Op) (s : Store) : Outcome Store :=
  match op with
  | MoveConstruct this other => construct_at this other s
  | MoveAssign this other => move_assign this other s
  | Destroy this => destroy_at this s
  end.

Fixpoint run (ops : list Op) (s : Store) : Outcome Store :=
  match ops with
  | [] => Returns s
  | op :: rest =>
      match run_op op s with
      | Returns s' => run rest s'
      | Aborts => Aborts
      end
  end.

End Store.

Arguments Store : clear implicits.

End MoveOnly.

(* ===================================================================== *)
(** ** MemoryPool: moves and destruction                                   *)
(* ===================================================================== *)

(** [MemoryPool::MemoryPool(MemoryPool&& other)] (Allocator.cpp:68): the new
    pool, and [other] as the constructor leaves it.  [mMappedAddress] is not
    in the initialiser list: the new pool starts with the default member
    initialiser [Core::NullOpt] and [other] keeps what it had. *)
Definition MemoryPool_move_ctor (other : MemoryPool.t) : MemoryPool.t * MemoryPool.t :=
  let '(device, device_left) := move_pointer (MemoryPool.mDevice other) in
  let '(physicalDevice, physicalDevice_left) := move_pointer (MemoryPool.mPhysicalDevice other) in
  (MemoryPool.mk device physicalDevice (MemoryPool.mMemoryTypeIndex other)
     (MemoryPool.mMemory other) (MemoryPool.mSize other) None,
   MemoryPool.mk device_left physicalDevice_left (uint32 (-1)) VK_NULL_HANDLE 0
     (MemoryPool.mMappedAddress other)).

(** One call [vkFreeMemory(device, memory, nullptr)]. *)
Record FreeMemoryCall : Type := mkFreeMemory {
  freed_on : nat;
  freed_memory : Z
}.

(** [MemoryPool::~MemoryPool] (Allocator.cpp:88): the native calls it
    makes. *)
Definition MemoryPool_destructor (drv : Driver) (p : MemoryPool.t) : Outcome (list FreeMemoryCall) :=
  if negb (MemoryPool.mMemory p =? VK_NULL_HANDLE)
  then match MemoryPool.mDevice p with
       | Some device =>
           if bool_decide (device ∈ devices drv)
           then Returns [mkFreeMemory device (MemoryPool.mMemory p)]
           else Aborts
       | None => Aborts
       end
  else Returns [].

(** [MemoryPool::operator=(MemoryPool&& other)] (Allocator.cpp:76). *)
Definition MemoryPool_move_assign (drv : Driver) (this other : nat)
  : MoveOnly.Store MemoryPool.t FreeMemoryCall -> Outcome (MoveOnly.Store MemoryPool.t FreeMemoryCall) :=
  MoveOnly.move_assign MemoryPool_move_ctor (MemoryPool_destructor drv) this other.

(** Programs of moves and destructions over [MemoryPool] objects. *)
Definition MemoryPool_run (drv : Driver) (ops : list Op)
  : MoveOnly.Store MemoryPool.t FreeMemoryCall -> Outcome (MoveOnly.Store MemoryPool.t FreeMemoryCall) :=
  MoveOnly.run MemoryPool_move_ctor (MemoryPool_destructor drv) ops.

(* ===================================================================== *)
(** ** The Allocator of Allocator.cpp                                      *)
(* ===================================================================== *)

(** Allocator.cpp defines member functions of an [Allocator] that owns one
    [MemoryPool] as its member [mMemoryPool]; an object of that class is
    given by this member. *)
Module ConcreteAllocator.

Record t : Type := mk { mMemoryPool : MemoryPool.t }.

(** [Allocator::Allocator(MemoryPool&& memoryPool)] (Allocator.cpp:18): the
    allocator, and [memoryPool] as the constructor leaves it. *)
Definition ctor (memoryPool : MemoryPool.t) : t * MemoryPool.t :=
  let '(new, moved_from) := MemoryPool_move_ctor memoryPool in
  (mk new, moved_from).

(** [Allocator::GetDevice] (Allocator.cpp:28), through
    [MemoryPool::GetDevice] (Allocator.hpp:85). *)
Definition GetDevice (a : t) : ReflexivePointer := MemoryPool.mDevice (mMemoryPool a).

(** [Allocator::Free(MemoryPool&& allocation) const] (Allocator.cpp:22): the
    native calls it makes.  [allocation] is only read. *)
Definition Free (drv : Driver) (a : t) (allocation : MemoryPool.t) : Outcome (list FreeMemoryCall) :=
  match GetDevice a with
  | Some device =>
      if bool_decide (device ∈ devices drv)
      then Returns [mkFreeMemory device (MemoryPool.Memory allocation)]
      else Aborts
  | None => Aborts
  end.

End ConcreteAllocator.

(** [Allocator::Free(std::move(pool))] on the live pool object [this],
    which stays alive and unchanged. *)
Definition Allocator_Free_pool (drv : Driver) (a : ConcreteAllocator.t) (this : nat)
    (s : MoveOnly.Store MemoryPool.t FreeMemoryCall)
  : Outcome (MoveOnly.Store MemoryPool.t FreeMemoryCall) :=
  match MoveOnly.live s !! this with
  | Some allocation =>
      match ConcreteAllocator.Free drv a allocation with
      | Returns events => Returns (MoveOnly.mkStore (MoveOnly.live s) (MoveOnly.log s ++ events))
      | Aborts => Aborts
      end
  | None => Aborts
  end.

(* ===================================================================== *)
(** ** Allocation::Memory and Allocation::Flush                            *)
(* ===================================================================== *)

Section Flush.

Variable drv : Driver.

(** The allocator objects that [ReflexivePointer<Allocator>]s refer to, as
    Allocator.cpp defines them. *)
Variable allocatorObjects : gmap nat ConcreteAllocator.t.

(** [Allocation::Memory] (Allocator.cpp:191). *)
Definition Allocation_Memory (a : Allocation.t) : M Z :=
  pool <- deref_pool (Allocation.mRawAllocation a) ;;
  p <- this_pool pool ;;
  ret (MemoryPool.Memory p).

(** [GetAllocator()->GetDevice()]. *)
Definition Allocation_allocator_device (a : Allocation.t) : M ReflexivePointer :=
  allocator <- deref_allocator (Allocation.GetAllocator a) ;;
  match allocatorObjects !! allocator with
  | Some object => ret (ConcreteAllocator.GetDevice object)
  | None => abort
  end.

(** [Allocation::Flush] (Allocator.cpp:221). *)
Definition Allocation_Flush (a : Allocation.t) : M unit :=
  memory <- Allocation_Memory a ;;
  let offset := Allocation.Offset a in
  let size := Allocation.Size a in
  pointer <- Allocation_allocator_device a ;;
  device <- deref_device drv pointer ;;
  result <- vkFlushMappedMemoryRanges drv device memory offset size ;;
  AssertEQ result VK_SUCCESS.

End Flush.

(* ===================================================================== *)
(** ** Who owns the native object                                          *)
(* ===================================================================== *)

(** The object that owns the native object after [op], when [owner] says
    who owns it before ([None]: it has been given back). *)
Definition owner_after (op : Op) (owner : option nat) : option nat :=
  match owner with
  | Some holder => holder_after op holder
  | None => None
  end.

Fixpoint final_owner (ops : list Op) (owner : option nat) : option nat :=
  match ops with
  | [] => owner
  | op :: rest => final_owner rest (owner_after op owner)
  end.

(** A store in which at most one object, [owner], still has native calls to
    make on destruction, namely [events]; every other live object destroys
    silently.  [before] is the log of native calls at the start; once the
    owner is gone the log is [before ++ events]. *)
Definition owned_by {T E : Type} (destructor : T -> Outcome (list E)) (events before : list E)
    (s : MoveOnly.Store T E) (owner : option nat) : Prop :=
  (forall id x, MoveOnly.live s !! id = Some x -> Some id <> owner ->
                destructor x = Returns []) /\
  match owner with
  | Some holder =>
      (exists x, MoveOnly.live s !! holder = Some x /\ destructor x = Returns events) /\
      MoveOnly.log s = before
  | None => MoveOnly.log s = before ++ events
  end.

(* ===================================================================== *)
(** ** Further scenarios                                                   *)
(* ===================================================================== *)

Module PoolScenario.

(** Pool 0 of the scenario as the only live [MemoryPool] object, at
    identity 0, before any native free. *)
Definition store : MoveOnly.Store MemoryPool.t FreeMemoryCall :=
  MoveOnly.mkStore {[ 0%nat := Scenario.pool 0 ]} [].

(** Pool 0 of the scenario after it has been mapped at address 4096. *)
Definition mapped_pool : MemoryPool.t :=
  MemoryPool.set_mMappedAddress (Some 4096) (Scenario.pool 0).

(** A world in which object 0 is what a move leaves of [mapped_pool] and
    object 1 is the pool the move constructed. *)
Definition world_after_move : World :=
  set_pools {[ 0%nat := snd (MemoryPool_move_ctor mapped_pool);
               1%nat := fst (MemoryPool_move_ctor mapped_pool) ]} Scenario.world.

(** An allocator built around a second pool on the same device. *)
Definition allocator : ConcreteAllocator.t :=
  fst (ConcreteAllocator.ctor (MemoryPool.ctor 0 0 1 9 128)).

End PoolScenario.

Module FlushScenario.

(** The allocator object 0 of the scenario, built around a pool on
    device 0. *)
Definition allocatorObjects : gmap nat ConcreteAllocator.t :=
  {[ 0%nat := PoolScenario.allocator ]}.

(** Two views of pool 0: bytes [0, 16) and bytes [16, 32). *)
Definition viewA : Allocation.t := Allocation.ctor 0 0 0 16.
Definition viewB : Allocation.t := Allocation.ctor 0 0 16 16.

Definition patternA : list byte := repeat x11 16.
Definition patternB : list byte := repeat x22 16.

(** The scenario with the allocator destroyed. *)
Definition world_without_allocator : World :=
  mkWorld [] ∅ (pools Scenario.world) ∅ {[ 0%nat := Scenario.view ]} [].

(** The scenario with two bound [Allocation] objects: object 0 holds the
    view of pool 0, object 1 a view of pool 1. *)
Definition world_two_claims : World :=
  set_objects {[ 0%nat := Scenario.view; 1%nat := Allocation.ctor 0 1 32 8 ]} Scenario.world.

End FlushScenario.

(* ===================================================================== *)
(** ** Pipeline.cpp: vertex input descriptions                             *)
(* ===================================================================== *)

Module VertexInputDescription.

(** The members that Pipeline.cpp initialises and reads. *)
Record Attribute : Type := mkAttribute {
  mLocation : Z;
  mFormat : Z;
  mOffset : Z
}.

Record Binding : Type := mkBinding {
  mStride : Z;
  mInputRate : Z;
  mAttributes : list Attribute
}.

Record t : Type := mk { mBindings : list Binding }.

(** [Attribute::Attribute(location, format, offset)] (Pipeline.cpp:443). *)
Definition Attribute_ctor (location format offset : Z) : Attribute :=
  mkAttribute location format offset.

(** [Binding::Binding(stride, inputRate)] (Pipeline.cpp:447); the vector of
    attributes starts empty. *)
Definition Binding_ctor (stride inputRate : Z) : Binding :=
  mkBinding stride inputRate [].

(** [AddBinding(stride, inputRate)] (Pipeline.cpp:451): the description
    after [emplace_back], and the index of the binding that the returned
    reference [mBindings.back()] is bound to. *)
Definition AddBinding (stride inputRate : Z) (d : t) : t * nat :=
  (mk (mBindings d ++ [Binding_ctor stride inputRate]), length (mBindings d)).

(** [Binding::WithAttribute(location, format, offset)] (Pipeline.cpp:470). *)
Definition WithAttribute (location format offset : Z) (b : Binding) : Binding :=
  mkBinding (mStride b) (mInputRate b)
            (mAttributes b ++ [Attribute_ctor location format offset]).

(** [WithAttribute] called through a reference to the binding at [index]
    of [d]. *)
Definition WithAttribute_at (index : nat) (location format offset : Z) (d : t) : t :=
  mk (alter (WithAttribute location format offset) index (mBindings d)).

(** [Size()] (Pipeline.cpp:464): [mBindings.size()] converted to
    [uint32_t]. *)
Definition Size (d : t) : Z := uint32 (Z.of_nat (length (mBindings d))).

Record VkVertexInputBindingDescription : Type := mkBindingDescription {
  bd_binding : Z;
  bd_stride : Z;
  bd_inputRate : Z
}.

Record VkVertexInputAttributeDescription : Type := mkAttributeDescription {
  ad_location : Z;
  ad_binding : Z;
  ad_format : Z;
  ad_offset : Z
}.

(** [GetBindingDescriptions()] (Pipeline.cpp:478): the loop runs
    [bindingIndex] from 0 up to [Size()], reads [mBindings[bindingIndex]]
    and appends one description. *)
Definition GetBindingDescriptions (d : t) : list VkVertexInputBindingDescription :=
  mjoin ((fun bindingIndex : nat =>
             match mBindings d !! bindingIndex with
             | Some binding =>
                 [mkBindingDescription (Z.of_nat bindingIndex) (mStride binding)
                    (mInputRate binding)]
             | None => []
             end) <$> seq 0 (Z.to_nat (Size d))).

(** The description that the inner loop of [GetAttributeDescriptions]
    appends for [attribute] of the binding numbered [bindingIndex]. *)
Definition describe (bindingIndex : Z) (attribute : Attribute) : VkVertexInputAttributeDescription :=
  mkAttributeDescription (mLocation attribute) bindingIndex
    (mFormat attribute) (mOffset attribute).

(** The inner loop of [GetAttributeDescriptions()] (Pipeline.cpp:500),
    entered with the counter at [attributeIndex] and the vector at
    [attributes].  The counter is a [uint32_t], so its increment wraps,
    and it is compared with [mAttributes.size()], a [size_t]: with 2^32
    attributes or more the comparison never fails.  [fuel] bounds the
    number of evaluations of the loop condition; the result is [None] when
    it runs out.  The index is below the size wherever the vector is read,
    so the [None] of the lookup is never returned. *)
Fixpoint attribute_loop (fuel : nat) (bindingIndex : Z) (binding : Binding)
    (attributeIndex : Z) (attributes : list VkVertexInputAttributeDescription)
    : option (list VkVertexInputAttributeDescription) :=
  match fuel with
  | O => None
  | S fuel' =>
      if attributeIndex <? Z.of_nat (length (mAttributes binding)) then
        match mAttributes binding !! Z.to_nat attributeIndex with
        | Some attribute =>
            attribute_loop fuel' bindingIndex binding (uint32 (attributeIndex + 1))
              (attributes ++ [describe bindingIndex attribute])
        | None => None
        end
      else Some attributes
  end.

(** [GetAttributeDescriptions()] (Pipeline.cpp:494): the outer loop is
    that of [GetBindingDescriptions]; its body runs the inner loop on
    [mBindings[bindingIndex]], each time with [fuel]. *)
Definition GetAttributeDescriptions (fuel : nat) (d : t)
    : option (list VkVertexInputAttributeDescription) :=
  foldl (fun (attributes : option (list VkVertexInputAttributeDescription))
             (bindingIndex : nat) =>
           match attributes, mBindings d !! bindingIndex with
           | Some attributes, Some binding =>
               attribute_loop fuel (Z.of_nat bindingIndex) binding 0 attributes
           | _, _ => None
           end)
        (Some []) (seq 0 (Z.to_nat (Size d))).

End VertexInputDescription.

(* ===================================================================== *)
(** ** Pipeline.cpp: descriptor set layouts and shader stages              *)
(* ===================================================================== *)

Module DescriptorSetLayout.

Record VkDescriptorSetLayoutBinding : Type := mkLayoutBinding {
  binding : Z;
  descriptorType : Z;
  descriptorCount : Z;
  stageFlags : Z;
  pImmutableSamplers : Z
}.

Record t : Type := mk { mBindings : list VkDescriptorSetLayoutBinding }.

(** [WithBinding(type, count, stage)] (Pipeline.cpp:515). *)
Definition WithBinding (type count stage : Z) (l : t) : t :=
  mk (mBindings l ++
      [mkLayoutBinding (uint32 (Z.of_nat (length (mBindings l)))) type count stage 0]).

(** A layout built from nothing by one [WithBinding] call per request
    [(type, count, stage)], in order. *)
Definition build (requests : list (Z * Z * Z)) : t :=
  foldl (fun l request =>
           let '(type, count, stage) := request in WithBinding type count stage l)
        (mk []) requests.

(** The bindings of a layout are numbered by their position. *)
Definition numbered (l : t) : Prop :=
  forall (i : nat) (b : VkDescriptorSetLayoutBinding),
    mBindings l !! i = Some b -> binding b = Z.of_nat i.

End DescriptorSetLayout.

(** [std::has_single_bit(x)] for a 32-bit unsigned [x]: [x] is an integral
    power of two. *)
Definition has_single_bit (x : Z) : bool :=
  existsb (fun k : nat => x =? 2 ^ Z.of_nat k) (seq 0 32).

(** [Pipeline::Builder::WithShaderStage(stage, shader)] (Pipeline.cpp:70)
    on the member [mStages], a map from stage to shader module; a shader
    module is given by its native handle.  The two assertions come first,
    then [emplace]. *)
Definition WithShaderStage (stage shader : Z) (mStages : gmap Z Z) : Outcome (gmap Z Z) :=
  if negb (bool_decide (is_Some (mStages !! stage)))
  then if has_single_bit stage
       then Returns (<[stage := shader]> mStages)
       else Aborts
  else Aborts.

(* ===================================================================== *)
(** ** Pipeline.cpp: moves and destruction of a Pipeline                   *)
(* ===================================================================== *)

Module Pipeline.

(** The members that the move constructor and the destructor touch.
    [mDevice] is a pointer to a [Device]; it is given by the [VkDevice]
    handle of the [Device] it points to, [None] being [nullptr]. *)
Record t : Type := mk {
  mPipeline : Z;
  mDevice : option Z;
  mRenderPass : Z;
  mPipelineLayout : Z;
  mViewportSize : Z * Z;
  mDescriptorSets : list Z;
  mDescriptorSetLayouts : list Z;
  mDescriptorPool : Z
}.

(** [Pipeline::Pipeline(Pipeline&& rhs)] (Pipeline.cpp:22): the new
    pipeline, and [rhs] as the constructor leaves it ([std::exchange] with
    null and [{}], and moved-from vectors, which are empty). *)
Definition move_ctor (rhs : t) : t * t :=
  (mk (mPipeline rhs) (mDevice rhs) (mRenderPass rhs) (mPipelineLayout rhs)
      (mViewportSize rhs) (mDescriptorSets rhs) (mDescriptorSetLayouts rhs)
      (mDescriptorPool rhs),
   mk VK_NULL_HANDLE None VK_NULL_HANDLE VK_NULL_HANDLE (0, 0) [] [] VK_NULL_HANDLE).

(** The native destroy calls, each with the [VkDevice] and the handle that
    is destroyed. *)
Inductive Call : Type :=
| DestroyPipelineLayout (device layout : Z)
| DestroyRenderPass (device renderPass : Z)
| DestroyDescriptorSetLayout (device layout : Z)
| DestroyDescriptorPool (device pool : Z)
| DestroyPipeline (device pipeline : Z).

(** [Pipeline::~Pipeline] (Pipeline.cpp:48): the native calls it makes.
    With a pipeline handle and a null [mDevice] the source dereferences a
    null pointer; the model stops there. *)
Definition destructor (p : t) : Outcome (list Call) :=
  if negb (mPipeline p =? VK_NULL_HANDLE)
  then match mDevice p with
       | Some device =>
           Returns ([DestroyPipelineLayout device (mPipelineLayout p);
                     DestroyRenderPass device (mRenderPass p)]
                    ++ (DestroyDescriptorSetLayout device <$> mDescriptorSetLayouts p)
                    ++ [DestroyDescriptorPool device (mDescriptorPool p);
                        DestroyPipeline device (mPipeline p)])
       | None => Aborts
       end
  else Returns [].

(** [Pipeline::operator=(Pipeline&& rhs)] (Pipeline.cpp:36). *)
Definition move_assign (this other : nat)
  : MoveOnly.Store t Call -> Outcome (MoveOnly.Store t Call) :=
  MoveOnly.move_assign move_ctor destructor this other.

(** Programs of moves and destructions over [Pipeline] objects. *)
Definition run (ops : list Op) : MoveOnly.Store t Call -> Outcome (MoveOnly.Store t Call) :=
  MoveOnly.run move_ctor destructor ops.

End Pipeline.

(* ===================================================================== *)
(** ** CommandPool.cpp                                                     *)
(* ===================================================================== *)

Definition VK_COMMAND_POOL_CREATE_RESET_COMMAND_BUFFER_BIT : Z := 2.

Module CommandPool.

(** The members of [Graphics::Device] that CommandPool.cpp reads. *)
Record Device : Type := mkDevice {
  device_mDevice : Z;
  device_mQueueFamilyIndex : Z
}.

Record t : Type := mk {
  mCommandPool : Z;
  mDevice : Z;
  mQueueFamilyIndex : Z
}.

Inductive Call : Type :=
| CreateCommandPool (device flags queueFamilyIndex : Z)
| DestroyCommandPool (device commandPool : Z).

(** [CommandPool::CommandPool(const Device& device, bool resetBit)]
    (CommandPool.cpp:17).  [create] is the driver's answer to
    [vkCreateCommandPool]: the [VkResult] and the handle written to
    [mCommandPool].  The result is the new object and the native call
    made. *)
Definition ctor (create : Z -> Z -> Z -> Z * Z) (device : Device) (resetBit : bool)
  : Outcome (t * list Call) :=
  let flags := if resetBit then VK_COMMAND_POOL_CREATE_RESET_COMMAND_BUFFER_BIT else 0 in
  let '(result, commandPool) :=
    create (device_mDevice device) flags (device_mQueueFamilyIndex device) in
  if result =? VK_SUCCESS
  then Returns (mk commandPool (device_mDevice device) (device_mQueueFamilyIndex device),
                [CreateCommandPool (device_mDevice device) flags
                   (device_mQueueFamilyIndex device)])
  else Aborts.

(** [CommandPool::CommandPool(CommandPool&& rhs)] (CommandPool.cpp:32). *)
Definition move_ctor (rhs : t) : t * t :=
  (mk (mCommandPool rhs) (mDevice rhs) (mQueueFamilyIndex rhs),
   mk VK_NULL_HANDLE VK_NULL_HANDLE 0).

(** [CommandPool::~CommandPool] (CommandPool.cpp:53): the native calls it
    makes. *)
Definition destructor (p : t) : Outcome (list Call) :=
  if negb (mCommandPool p =? VK_NULL_HANDLE)
  then Returns [DestroyCommandPool (mDevice p) (mCommandPool p)]
  else Returns [].

(** [CommandPool::operator=(CommandPool&& rhs)] (CommandPool.cpp:41). *)
Definition move_assign (this other : nat)
  : MoveOnly.Store t Call -> Outcome (MoveOnly.Store t Call) :=
  MoveOnly.move_assign move_ctor destructor this other.

(** A command pool is constructed as object [this] of an empty store and
    then moved and destroyed by [ops]. *)
Definition construct_then_run (create : Z -> Z -> Z -> Z * Z) (device : Device)
    (resetBit : bool) (this : nat) (ops : list Op) : Outcome (MoveOnly.Store t Call) :=
  match ctor create device resetBit with
  | Returns (p, events) =>
      MoveOnly.run move_ctor destructor ops (MoveOnly.mkStore {[ this := p ]} events)
  | Aborts => Aborts
  end.

End CommandPool.

(* ===================================================================== *)
(** ** SpriteSheet.cpp and FontFace.cpp                                    *)
(* ===================================================================== *)

(** [SpriteSheet::GetSpriteSize] (SpriteSheet.cpp:77): the extent of the
    image divided by the number of sprites, per axis, in unsigned
    arithmetic.  A sprite count of zero is a division by zero in the
    source. *)
Definition SpriteSheet_GetSpriteSize (imageSize mSpriteCount : Z * Z) : Z * Z :=
  (fst imageSize / fst mSpriteCount, snd imageSize / snd mSpriteCount).

Module Glyph.

(** The fields of FreeType's [FT_Bitmap] that [FontFace::GetGlyphBitmap]
    reads: [rows] and [width] are unsigned, [pitch] is an [int]. *)
Record FT_Bitmap : Type := mkBitmap {
  rows : Z;
  width : Z;
  pitch : Z;
  buffer : list byte
}.

(** [pixelCount] and [bitmapLength] (FontFace.cpp:119, 122), both
    [uint32_t]. *)
Definition pixelCount (b : FT_Bitmap) : Z := uint32 (width b * rows b).
Definition bitmapLength (b : FT_Bitmap) : Z := uint32 (Z.abs (pitch b) * rows b).

(** The size [4 * pixelCount] given to the staging buffer and to
    [WithCapacity] (FontFace.cpp:123, 124): a [uint32_t] product. *)
Definition stagingSize (b : FT_Bitmap) : Z := uint32 (4 * pixelCount b).

Definition INT_MIN : Z := - 2 ^ 31.
Definition INT_MAX : Z := 2 ^ 31 - 1.

(** How a run of the code ends: it finishes with a value, it does
    something that C++ leaves undefined, or the model runs out of fuel. *)
Inductive Run (A : Type) : Type :=
| Finished (a : A)
| UndefinedBehaviour
| OutOfFuel.
Arguments Finished {A} a.
Arguments UndefinedBehaviour {A}.
Arguments OutOfFuel {A}.

(** The loop of FontFace.cpp:125, entered with the counter at [i] and the
    byte buffer at [glyphBytes]: while [i < bitmapLength], read
    [buffer[i]], push it four times and increment [i].  [i] is an [int]:
    it is never negative here, so the comparison with the [uint32_t]
    compares the values, and incrementing it at [INT_MAX] is undefined, as
    is reading past the end of the bitmap's buffer.  [fuel] bounds the
    number of evaluations of the loop condition. *)
Fixpoint push_loop (fuel : nat) (b : FT_Bitmap) (i : Z) (glyphBytes : list byte)
    : Run (list byte) :=
  match fuel with
  | O => OutOfFuel
  | S fuel' =>
      if i <? bitmapLength b then
        match buffer b !! Z.to_nat i with
        | Some byte =>
            if i =? INT_MAX then UndefinedBehaviour
            else push_loop fuel' b (i + 1) (glyphBytes ++ [byte; byte; byte; byte])
        | None => UndefinedBehaviour
        end
      else Finished glyphBytes
  end.

(** The part of [FontFace::GetGlyphBitmap] (FontFace.cpp:119-132) that
    fills [glyphBytes] from the rendered bitmap: [None] is the early
    [return Core::NullOpt] for a glyph without pixels, [Some] the bytes
    handed to [buffer.SetData].  [std::abs] of [INT_MIN] is undefined. *)
Definition glyphBytes (fuel : nat) (b : FT_Bitmap) : Run (option (list byte)) :=
  if pixelCount b =? 0 then Finished None
  else if pitch b =? INT_MIN then UndefinedBehaviour
  else match push_loop fuel b 0 [] with
       | Finished glyphBytes => Finished (Some glyphBytes)
       | UndefinedBehaviour => UndefinedBehaviour
       | OutOfFuel => OutOfFuel
       end.

End Glyph.

Module PipelineScenario.

(** Two bindings: per-vertex position and colour, per-instance offset. *)
Definition description : VertexInputDescription.t :=
  let '(d1, vertex) := VertexInputDescription.AddBinding 20 0 (VertexInputDescription.mk []) in
  let d2 := VertexInputDescription.WithAttribute_at vertex 0 106 0 d1 in
  let d3 := VertexInputDescription.WithAttribute_at vertex 1 37 12 d2 in
  let '(d4, instance) := VertexInputDescription.AddBinding 8 1 d3 in
  VertexInputDescription.WithAttribute_at instance 2 103 0 d4.

(** A pipeline on device 5 with two descriptor set layouts. *)
Definition pipeline : Pipeline.t :=
  Pipeline.mk 40 (Some 5) 41 42 (1920, 1080) [43; 44] [45; 46] 47.

Definition store : MoveOnly.Store Pipeline.t Pipeline.Call :=
  MoveOnly.mkStore {[ 0%nat := pipeline ]} [].

(** A driver that creates command pool 77. *)
Definition create (device flags queueFamilyIndex : Z) : Z * Z := (VK_SUCCESS, 77).

Definition device : CommandPool.Device := CommandPool.mkDevice 5 3.

(** A 3 by 2 glyph bitmap without row padding, and one padded to 4 bytes a
    row. *)
Definition tight : Glyph.FT_Bitmap :=
  Glyph.mkBitmap 2 3 3 [x10; x20; x30; x40; x50; x60].
Definition padded : Glyph.FT_Bitmap :=
  Glyph.mkBitmap 2 3 4 [x10; x20; x30; x00; x40; x50; x60; x00].

(** A glyph without pixels, such as a space: no columns, two rows of
    four bytes. *)
Definition blank : Glyph.FT_Bitmap :=
  Glyph.mkBitmap 2 0 4 [x00; x00; x00; x00; x00; x00; x00; x00].

End PipelineScenario.

(* ===================================================================== *)
(** ** Reasoning about computations                                        *)
(* ===================================================================== *)

Lemma bind_Returns {A B} (c : M A) (k : A -> M B) (w : World) (r : B * World) :
  bind c k w = Returns r <-> exists a w', c w = Returns (a, w') /\ k a w' = Returns r.
Proof.
  unfold bind. split.
  - destruct (c w) as [[a w']|] eqn:E; [eauto | discriminate].
  - intros (a & w' & -> & H). exact H.
Qed.

Lemma bind_Returns_eq {A B} (c : M A) (k : A -> M B) (w w' : World) (a : A) :
  c w = Returns (a, w') -> bind c k w = k a w'.
Proof. unfold bind. now intros ->. Qed.

Lemma bind_Aborts {A B} (c : M A) (k : A -> M B) (w : World) :
  c w = Aborts -> bind c k w = Aborts.
Proof. unfold bind. now intros ->. Qed.

Lemma Assert_Returns (b : bool) (w : World) (r : unit * World) :
  Assert b w = Returns r <-> b = true /\ r = (tt, w).
Proof.
  unfold Assert, ret, abort. destruct b; split.
  - intros [= <-]. auto.
  - intros [_ ->]. reflexivity.
  - discriminate.
  - intros [? _]. discriminate.
Qed.

(* ===================================================================== *)
(** ** AllocationError, AllocationRequest, AllocateView                    *)
(* ===================================================================== *)

(** C1 (evaluation of the code): [AllocationError] declares the three tag
    structs [OutOfMemory], [MemoryTypeUnavailable] and [RequestTooLarge],
    but its payload variant lists only the first two: an [AllocationError]
    can be built from [OutOfMemory] and from [MemoryTypeUnavailable], cannot
    be built from [RequestTooLarge], and every [AllocationError] value holds
    one of the first two, never [RequestTooLarge]. *)
Theorem C1_RequestTooLarge_not_holdable :
  AllocationError.ctor AllocationError.OutOfMemory
    = Some (AllocationError.mk AllocationError.Info_OutOfMemory) /\
  AllocationError.ctor AllocationError.MemoryTypeUnavailable
    = Some (AllocationError.mk AllocationError.Info_MemoryTypeUnavailable) /\
  AllocationError.ctor AllocationError.RequestTooLarge = None /\
  (forall e : AllocationError.t,
      AllocationError.held e = AllocationError.OutOfMemory \/
      AllocationError.held e = AllocationError.MemoryTypeUnavailable).
Proof.
  repeat split.
  destruct e as [[]]; [left | right]; reflexivity.
Qed.

(** C10: a request built from a device, a size and an alignment has
    [memoryTypeMask = 0xFFFFFFFF]: all of the 32 bits of the mask are set,
    and no other bit is, so every memory type index below 32 is acceptable;
    the mask is narrower only when the caller supplies one, as the
    constructor from [VkMemoryRequirements] does with [memoryTypeBits]. *)
Theorem C10_default_memoryTypeMask (device : nat) (size alignment : Z)
    (requirements : AllocationRequest.VkMemoryRequirements) :
  let request := AllocationRequest.ctor device size alignment in
  AllocationRequest.memoryTypeMask request = 0xFFFFFFFF /\
  AllocationRequest.memoryTypeMask request = Z.ones 32 /\
  (forall i : Z, Z.testbit (AllocationRequest.memoryTypeMask request) i
                 = (0 <=? i) && (i <? 32)) /\
  AllocationRequest.size request = size /\
  AllocationRequest.alignment request = alignment /\
  AllocationRequest.device request = pointer_to device /\
  AllocationRequest.memoryTypeMask (AllocationRequest.from_requirements requirements)
    = AllocationRequest.memoryTypeBits requirements.
Proof.
  cbn. split_and!; try reflexivity.
  intros i. change 4294967295 with (Z.ones 32).
  destruct (Z.leb_spec 0 i) as [Hi|Hi].
  - destruct (Z.ltb_spec i 32) as [Hj|Hj].
    + apply Z.ones_spec_low. lia.
    + apply Z.ones_spec_high. lia.
  - apply Z.testbit_neg_r. lia.
Qed.

(** C4 (counterexample): in the scenario, [AllocateView(allocator, 200,
    100)] on the 256-byte pool returns normally, and the view it returns
    ends at byte 300, beyond the pool. *)
Lemma C4_view_out_of_bounds :
  exists a : Allocation.t,
    pools Scenario.world !! 0%nat = Some (Scenario.pool 0) /\
    MemoryPool.Size (Scenario.pool 0) = 256 /\
    MemoryPool_AllocateView 0 0 200 100 Scenario.world = Returns (a, Scenario.world) /\
    ~ (Allocation.Offset a + Allocation.Size a <= MemoryPool.Size (Scenario.pool 0)).
Proof.
  eexists. split; [reflexivity|]. split; [reflexivity|]. split; [reflexivity|].
  cbn. lia.
Qed.

(** C4 (amended): [MemoryPool::AllocateView(allocator, offset, size)] makes
    no bounds check and never fails: it returns, in an unchanged world, an
    [Allocation] that refers to the given allocator and to this pool and
    carries exactly the given offset and size; so the view lies within a
    pool size exactly when the arguments of the call do. *)
Theorem C4_AllocateView_unchecked (this allocator : nat) (offset size : Z) (w : World) :
  exists a : Allocation.t,
    MemoryPool_AllocateView this allocator offset size w = Returns (a, w) /\
    Allocation.GetAllocator a = pointer_to allocator /\
    Allocation.mRawAllocation a = pointer_to this /\
    Allocation.Offset a = offset /\
    Allocation.Size a = size /\
    (forall poolSize : Z,
        Allocation.Offset a + Allocation.Size a <= poolSize <-> offset + size <= poolSize).
Proof.
  eexists. split; [reflexivity|]. cbn. repeat split; auto.
Qed.

(* ===================================================================== *)
(** ** Allocation::operator bool                                           *)
(* ===================================================================== *)

Lemma moved_from_is_empty (other : Allocation.t) :
  is_empty (snd (Allocation.move_ctor other)).
Proof. split; reflexivity. Qed.

Lemma operator_bool_bound (w : World) (allocator pool : nat) (offset size : Z) :
  allocator ∈ allocators w ->
  Allocation_operator_bool (Allocation.ctor allocator pool offset size) w = Returns (true, w).
Proof.
  intros Hin. unfold Allocation_operator_bool, bind, get_world, AssertImplication. cbn.
  rewrite bool_decide_eq_true_2 by assumption. reflexivity.
Qed.

(** C3 (evaluation of the code): a default-constructed [Allocation] and a
    moved-from [Allocation] hold neither back-reference, and on both the
    conversion to [bool] stops at its assertion
    [AssertImplication(!mAllocator, mRawAllocation)] instead of returning
    [false]; the destructor, whose assertion is
    [AssertImplication(!mAllocator, !mRawAllocation)], accepts the same empty
    [Allocation]; the bound view of the scenario converts to [true]. *)
Theorem C3_operator_bool_of_empty_aborts (w : World) (other : Allocation.t) :
  is_empty Allocation.default_ctor /\
  is_empty (snd (Allocation.move_ctor other)) /\
  Allocation_operator_bool Allocation.default_ctor w = Aborts /\
  Allocation_operator_bool (snd (Allocation.move_ctor other)) w = Aborts /\
  Allocation_destructor 0 (set_objects {[ 0%nat := Allocation.default_ctor ]} w)
    = Returns (tt, set_objects ∅ w) /\
  Allocation_operator_bool Scenario.view Scenario.world = Returns (true, Scenario.world).
Proof.
  split_and!.
  - split; reflexivity.
  - apply moved_from_is_empty.
  - reflexivity.
  - reflexivity.
  - reflexivity.
  - reflexivity.
Qed.

(* ===================================================================== *)
(** ** MemoryPool::Allocate                                                *)
(* ===================================================================== *)

(** C5: [MemoryPool::Allocate] makes one native allocation call for [size]
    bytes of type [memoryTypeIndex]; when that call answers
    [VK_ERROR_OUT_OF_HOST_MEMORY] or [VK_ERROR_OUT_OF_DEVICE_MEMORY] it
    returns the error [OutOfMemory]; when it answers [VK_SUCCESS] it returns
    a pool of the requested size and memory type index that owns the handle
    the call produced; on every other answer it aborts. *)
Theorem C5_Allocate_classifies (drv : Driver) (device physicalDevice : nat)
    (memoryTypeIndex size : Z) (w : World) :
  let answer := allocate_memory drv (calls w) device size memoryTypeIndex in
  let w' := set_calls (calls w ++ [CallAllocateMemory device size memoryTypeIndex]) w in
  (fst answer = VK_ERROR_OUT_OF_HOST_MEMORY \/ fst answer = VK_ERROR_OUT_OF_DEVICE_MEMORY ->
   exists e, MemoryPool_Allocate drv device physicalDevice memoryTypeIndex size w
             = Returns (Err e, w') /\
             AllocationError.held e = AllocationError.OutOfMemory) /\
  (fst answer = VK_SUCCESS ->
   exists p, MemoryPool_Allocate drv device physicalDevice memoryTypeIndex size w
             = Returns (Ok p, w') /\
             MemoryPool.Size p = size /\
             MemoryPool.MemoryTypeIndex p = memoryTypeIndex /\
             MemoryPool.Memory p = snd answer /\
             MemoryPool.mDevice p = pointer_to device /\
             MemoryPool.mPhysicalDevice p = pointer_to physicalDevice /\
             MemoryPool.mMappedAddress p = None) /\
  (fst answer <> VK_ERROR_OUT_OF_HOST_MEMORY ->
   fst answer <> VK_ERROR_OUT_OF_DEVICE_MEMORY ->
   fst answer <> VK_SUCCESS ->
   MemoryPool_Allocate drv device physicalDevice memoryTypeIndex size w = Aborts).
Proof.
  intros answer w'.
  unfold MemoryPool_Allocate, bind, vkAllocateMemory.
  fold answer. fold w'. destruct answer as [result memory]. cbn [fst snd].
  split; [|split].
  - intros [-> | ->]; eexists; split; reflexivity.
  - intros ->. eexists. repeat split.
  - intros H1 H2 H3.
    destruct (Z.eqb_spec result VK_ERROR_OUT_OF_HOST_MEMORY); [contradiction|].
    destruct (Z.eqb_spec result VK_ERROR_OUT_OF_DEVICE_MEMORY); [contradiction|].
    destruct (Z.eqb_spec result VK_SUCCESS); [contradiction|].
    reflexivity.
Qed.

(** C5 at work: host exhaustion and device exhaustion both give
    [OutOfMemory], another failure ([VK_ERROR_TOO_MANY_OBJECTS], -10)
    aborts, and success gives the pool. *)
Lemma C5_Allocate_classifies_witness :
  (exists e, MemoryPool_Allocate (Scenario.failing_driver VK_ERROR_OUT_OF_HOST_MEMORY) 0 0 0 256
               Scenario.world
             = Returns (Err e, set_calls [CallAllocateMemory 0 256 0] Scenario.world) /\
             AllocationError.held e = AllocationError.OutOfMemory) /\
  (exists e, MemoryPool_Allocate (Scenario.failing_driver VK_ERROR_OUT_OF_DEVICE_MEMORY) 0 0 0 256
               Scenario.world
             = Returns (Err e, set_calls [CallAllocateMemory 0 256 0] Scenario.world) /\
             AllocationError.held e = AllocationError.OutOfMemory) /\
  MemoryPool_Allocate (Scenario.failing_driver (-10)) 0 0 0 256 Scenario.world = Aborts /\
  (exists p, MemoryPool_Allocate Scenario.driver 0 0 0 256 Scenario.world
             = Returns (Ok p, set_calls [CallAllocateMemory 0 256 0] Scenario.world) /\
             MemoryPool.Size p = 256 /\ MemoryPool.MemoryTypeIndex p = 0).
Proof.
  split; [|split; [|split]].
  - apply (proj1 (C5_Allocate_classifies
                    (Scenario.failing_driver VK_ERROR_OUT_OF_HOST_MEMORY) 0 0 0 256 Scenario.world)).
    left. reflexivity.
  - apply (proj1 (C5_Allocate_classifies
                    (Scenario.failing_driver VK_ERROR_OUT_OF_DEVICE_MEMORY) 0 0 0 256 Scenario.world)).
    right. reflexivity.
  - apply (proj2 (proj2 (C5_Allocate_classifies
                    (Scenario.failing_driver (-10)) 0 0 0 256 Scenario.world)));
      cbn; discriminate.
  - destruct (proj1 (proj2 (C5_Allocate_classifies Scenario.driver 0 0 0 256 Scenario.world))
                eq_refl) as (p & Hp & Hsize & Hidx & _).
    exists p. auto.
Defined.

(* ===================================================================== *)
(** ** std::memcpy on the host address space                               *)
(* ===================================================================== *)

Lemma memcpy_bytes_outside (bytes : list byte) (dst addr : Z) (h : gmap Z byte) :
  addr < dst \/ dst + buffer_size bytes <= addr ->
  memcpy_bytes dst bytes h !! addr = h !! addr.
Proof.
  unfold buffer_size. revert dst h.
  induction bytes as [|b rest IH]; intros dst h Hout; cbn [memcpy_bytes]; [reflexivity|].
  cbn [length] in Hout.
  rewrite IH by lia.
  apply lookup_insert_ne. lia.
Qed.

Lemma memcpy_bytes_inside (bytes : list byte) (dst : Z) (h : gmap Z byte) (i : nat) (b : byte) :
  bytes !! i = Some b ->
  memcpy_bytes dst bytes h !! (dst + Z.of_nat i) = Some b.
Proof.
  revert dst h i.
  induction bytes as [|b0 rest IH]; intros dst h i Hi; [discriminate|].
  cbn [memcpy_bytes]. destruct i as [|i].
  - injection Hi as ->.
    rewrite memcpy_bytes_outside by lia.
    replace (dst + Z.of_nat 0) with dst by lia.
    apply lookup_insert_eq.
  - replace (dst + Z.of_nat (S i)) with (dst + 1 + Z.of_nat i) by lia.
    apply IH. exact Hi.
Qed.

(* ===================================================================== *)
(** ** MemoryPool::Properties and MemoryPool::GetMappedAddress             *)
(* ===================================================================== *)

Lemma Properties_Returns (drv : Driver) (this : nat) (w : World) (flags : Z) (w' : World) :
  MemoryPool_Properties drv this w = Returns (flags, w') <->
  w' = w /\
  exists p physicalDevice memoryTypes,
    pools w !! this = Some p /\
    MemoryPool.mPhysicalDevice p = Some physicalDevice /\
    physicalDevices drv !! physicalDevice = Some memoryTypes /\
    flags = memoryTypes (MemoryPool.mMemoryTypeIndex p).
Proof.
  unfold MemoryPool_Properties, bind, this_pool, deref_physicalDevice, ret, abort.
  split.
  - destruct (pools w !! this) as [p|] eqn:Hp; [|discriminate].
    destruct (MemoryPool.mPhysicalDevice p) as [phys|] eqn:Hphys; [|discriminate].
    destruct (physicalDevices drv !! phys) as [mt|] eqn:Hmt; [|discriminate].
    intros [= <- <-]. split; [reflexivity|]. eauto 10.
  - intros (-> & p & phys & mt & -> & -> & -> & ->). reflexivity.
Qed.

Lemma GetMappedAddress_cached (drv : Driver) (this : nat) (w : World) (p : MemoryPool.t) (address : Z) :
  pools w !! this = Some p ->
  MemoryPool.mMappedAddress p = Some address ->
  MemoryPool_GetMappedAddress drv this w = Returns (address, w).
Proof.
  intros Hp Hmapped.
  unfold MemoryPool_GetMappedAddress, bind, this_pool. rewrite Hp, Hmapped. reflexivity.
Qed.

(** The first call on a pool that is not mapped yet, when everything it
    needs is in place. *)
Lemma GetMappedAddress_first (drv : Driver) (this : nat) (w : World) (p : MemoryPool.t)
    (physicalDevice device : nat) (memoryTypes : Z -> Z) (address : Z) :
  pools w !! this = Some p ->
  MemoryPool.mMappedAddress p = None ->
  MemoryPool.mPhysicalDevice p = Some physicalDevice ->
  physicalDevices drv !! physicalDevice = Some memoryTypes ->
  Z.land (memoryTypes (MemoryPool.mMemoryTypeIndex p)) VK_MEMORY_PROPERTY_HOST_VISIBLE_BIT <> 0 ->
  MemoryPool.mDevice p = Some device ->
  device ∈ devices drv ->
  map_memory drv (calls w) device (MemoryPool.mMemory p) 0 VK_WHOLE_SIZE 0 = (VK_SUCCESS, address) ->
  MemoryPool_GetMappedAddress drv this w = Returns (address, mapped_world this p device address w).
Proof.
  intros Hp Hnone Hphys Hmt Hvisible Hdev Hlive Hmap.
  unfold MemoryPool_GetMappedAddress.
  rewrite (bind_Returns_eq _ _ w w p) by (unfold this_pool; now rewrite Hp).
  rewrite Hnone.
  rewrite (bind_Returns_eq _ _ w w (memoryTypes (MemoryPool.mMemoryTypeIndex p)))
    by (apply Properties_Returns; eauto 10).
  unfold bind, Assert, AssertEQ, Assert, deref_device, vkMapMemory, modify, ret, abort.
  destruct (Z.eqb_spec (Z.land (memoryTypes (MemoryPool.mMemoryTypeIndex p))
                               VK_MEMORY_PROPERTY_HOST_VISIBLE_BIT) 0) as [E|_];
    [contradiction|]. cbn [negb].
  rewrite Hdev. rewrite bool_decide_eq_true_2 by assumption.
  rewrite Hmap. cbn. reflexivity.
Qed.

(** A pool of a memory type that is not host-visible cannot be mapped: the
    first call stops at the assertion. *)
Lemma GetMappedAddress_not_visible (drv : Driver) (this : nat) (w : World) (p : MemoryPool.t)
    (flags : Z) :
  pools w !! this = Some p ->
  MemoryPool.mMappedAddress p = None ->
  MemoryPool_Properties drv this w = Returns (flags, w) ->
  Z.land flags VK_MEMORY_PROPERTY_HOST_VISIBLE_BIT = 0 ->
  MemoryPool_GetMappedAddress drv this w = Aborts.
Proof.
  intros Hp Hnone Hprops Hinvisible.
  unfold MemoryPool_GetMappedAddress.
  rewrite (bind_Returns_eq _ _ w w p) by (unfold this_pool; now rewrite Hp).
  rewrite Hnone.
  rewrite (bind_Returns_eq _ _ w w flags) by assumption.
  apply bind_Aborts. rewrite Hinvisible. reflexivity.
Qed.

(** Every returning call is either a cache hit or the first call above. *)
Lemma GetMappedAddress_Returns (drv : Driver) (this : nat) (w : World) (address : Z) (w1 : World) :
  MemoryPool_GetMappedAddress drv this w = Returns (address, w1) ->
  exists p,
    pools w !! this = Some p /\
    ((MemoryPool.mMappedAddress p = Some address /\ w1 = w) \/
     (MemoryPool.mMappedAddress p = None /\
      exists physicalDevice memoryTypes device,
        MemoryPool.mPhysicalDevice p = Some physicalDevice /\
        physicalDevices drv !! physicalDevice = Some memoryTypes /\
        Z.land (memoryTypes (MemoryPool.mMemoryTypeIndex p))
               VK_MEMORY_PROPERTY_HOST_VISIBLE_BIT <> 0 /\
        MemoryPool.mDevice p = Some device /\
        device ∈ devices drv /\
        map_memory drv (calls w) device (MemoryPool.mMemory p) 0 VK_WHOLE_SIZE 0
          = (VK_SUCCESS, address) /\
        w1 = mapped_world this p device address w)).
Proof.
  unfold MemoryPool_GetMappedAddress. intros H.
  apply bind_Returns in H as (p & w0 & Hthis & H).
  unfold this_pool in Hthis.
  destruct (pools w !! this) as [p'|] eqn:Hp; [|discriminate].
  injection Hthis as -> ->. exists p. split; [reflexivity|].
  destruct (MemoryPool.mMappedAddress p) as [cached|] eqn:Hcache.
  - left. injection H as -> ->. auto.
  - right. split; [reflexivity|].
    apply bind_Returns in H as (flags & w2 & Hprops & H).
    apply Properties_Returns in Hprops as (-> & p2 & phys & mt & Hp2 & Hphys & Hmt & ->).
    rewrite Hp in Hp2. injection Hp2 as <-.
    apply bind_Returns in H as ([] & w3 & Hassert & H).
    apply Assert_Returns in Hassert as (Hvisible & [= ->]).
    apply bind_Returns in H as (device & w4 & Hderef & H).
    unfold deref_device in Hderef.
    destruct (MemoryPool.mDevice p) as [d|] eqn:Hdev; [|discriminate].
    destruct (bool_decide (d ∈ devices drv)) eqn:Hlive; [|discriminate].
    injection Hderef as -> ->.
    apply bool_decide_eq_true_1 in Hlive.
    apply bind_Returns in H as ([result mapped] & w5 & Hmap & H).
    unfold vkMapMemory in Hmap. injection Hmap as Hmap <-.
    apply bind_Returns in H as ([] & w6 & Hassert & H).
    apply Assert_Returns in Hassert as (Hok & [= ->]).
    apply Z.eqb_eq in Hok. subst result.
    apply bind_Returns in H as ([] & w7 & Hmod & H).
    unfold modify in Hmod. injection Hmod as <-.
    injection H as <- <-.
    exists phys, mt, device. repeat split; auto.
    apply negb_true_iff, Z.eqb_neq in Hvisible. exact Hvisible.
Qed.

Lemma count_calls_app (kind : Call -> bool) (l1 l2 : list Call) :
  count_calls kind (l1 ++ l2) = (count_calls kind l1 + count_calls kind l2)%nat.
Proof. unfold count_calls. rewrite List.filter_app. apply length_app. Qed.

(** C7: [MemoryPool::GetMappedAddress] on a pool that is not mapped yet
    aborts when the pool's memory type is not host-visible, and, when the
    type is host-visible, the device is alive and the native map succeeds,
    it returns the address the one native map call (of the whole pool)
    produced and caches it in the pool.  A call that returns an address
    leaves that address cached in the pool, and when the pool was not mapped
    before, it has checked host visibility and made exactly one native map
    call; the next call returns the identical address and changes nothing,
    so no second native map occurs. *)
Theorem C7_GetMappedAddress_idempotent (drv : Driver) (this : nat) (w : World) :
  (forall p flags,
      pools w !! this = Some p ->
      MemoryPool.mMappedAddress p = None ->
      MemoryPool_Properties drv this w = Returns (flags, w) ->
      Z.land flags VK_MEMORY_PROPERTY_HOST_VISIBLE_BIT = 0 ->
      MemoryPool_GetMappedAddress drv this w = Aborts) /\
  (forall p physicalDevice device memoryTypes address,
      pools w !! this = Some p ->
      MemoryPool.mMappedAddress p = None ->
      MemoryPool.mPhysicalDevice p = Some physicalDevice ->
      physicalDevices drv !! physicalDevice = Some memoryTypes ->
      Z.land (memoryTypes (MemoryPool.mMemoryTypeIndex p))
             VK_MEMORY_PROPERTY_HOST_VISIBLE_BIT <> 0 ->
      MemoryPool.mDevice p = Some device ->
      device ∈ devices drv ->
      map_memory drv (calls w) device (MemoryPool.mMemory p) 0 VK_WHOLE_SIZE 0
        = (VK_SUCCESS, address) ->
      MemoryPool_GetMappedAddress drv this w
        = Returns (address, mapped_world this p device address w)) /\
  (forall address w1,
      MemoryPool_GetMappedAddress drv this w = Returns (address, w1) ->
      MemoryPool_GetMappedAddress drv this w1 = Returns (address, w1) /\
      (exists p1, pools w1 !! this = Some p1 /\
                  MemoryPool.mMappedAddress p1 = Some address) /\
      (forall p,
          pools w !! this = Some p ->
          MemoryPool.mMappedAddress p = None ->
          (exists flags, MemoryPool_Properties drv this w = Returns (flags, w) /\
                         Z.land flags VK_MEMORY_PROPERTY_HOST_VISIBLE_BIT <> 0) /\
          (exists device,
              calls w1 = calls w ++ [CallMapMemory device (MemoryPool.mMemory p) 0 VK_WHOLE_SIZE 0]) /\
          count_calls is_map (calls w1) = S (count_calls is_map (calls w)))).
Proof.
  split; [|split].
  - intros p flags. apply GetMappedAddress_not_visible.
  - intros p physicalDevice device memoryTypes address. apply GetMappedAddress_first.
  - intros address w1 H.
    apply GetMappedAddress_Returns in H
      as (p & Hp & [[Hcached ->] | (Hnone & phys & mt & device & Hphys & Hmt & Hvis & Hdev & Hlive & Hmap & ->)]).
    + split; [eapply GetMappedAddress_cached; eauto|].
      split; [eauto|].
      intros p' Hp' Hnone. rewrite Hp in Hp'. injection Hp' as <-. congruence.
    + assert (Hp1 : pools (mapped_world this p device address w) !! this
                    = Some (MemoryPool.set_mMappedAddress (Some address) p))
        by (cbn; apply lookup_insert_eq).
      split; [eapply GetMappedAddress_cached; [exact Hp1 | reflexivity]|].
      split; [eauto|].
      intros p' Hp' _. rewrite Hp in Hp'. injection Hp' as <-.
      split; [|split].
      * eexists. split; [apply Properties_Returns; eauto 10 | exact Hvis].
      * exists device. reflexivity.
      * cbn [mapped_world set_pools set_calls calls].
        rewrite count_calls_app. cbn. lia.
Qed.

(** C7 at work in the scenario: the non-host-visible pool 2 cannot be
    mapped; pool 0 is mapped at 4096 by one native call, and the second call
    returns 4096 again although the driver would hand out 4352 for a second
    map. *)
Lemma C7_GetMappedAddress_idempotent_witness :
  MemoryPool_GetMappedAddress Scenario.driver 2 Scenario.world = Aborts /\
  MemoryPool_GetMappedAddress Scenario.driver 0 Scenario.world
    = Returns (4096, mapped_world 0 (Scenario.pool 0) 0 4096 Scenario.world) /\
  MemoryPool_GetMappedAddress Scenario.driver 0
      (mapped_world 0 (Scenario.pool 0) 0 4096 Scenario.world)
    = Returns (4096, mapped_world 0 (Scenario.pool 0) 0 4096 Scenario.world) /\
  map_memory Scenario.driver
    (calls (mapped_world 0 (Scenario.pool 0) 0 4096 Scenario.world))
    0 7 0 VK_WHOLE_SIZE 0 = (VK_SUCCESS, 4352).
Proof.
  assert (Hfirst : MemoryPool_GetMappedAddress Scenario.driver 0 Scenario.world
                   = Returns (4096, mapped_world 0 (Scenario.pool 0) 0 4096 Scenario.world)).
  { apply (proj1 (proj2 (C7_GetMappedAddress_idempotent Scenario.driver 0 Scenario.world))
             (Scenario.pool 0) 0%nat 0%nat Scenario.memoryTypes 4096);
      try reflexivity.
    vm_compute. discriminate. }
  split; [|split; [exact Hfirst|split; [|reflexivity]]].
  - apply (proj1 (C7_GetMappedAddress_idempotent Scenario.driver 2 Scenario.world)
             (Scenario.pool 2) VK_MEMORY_PROPERTY_DEVICE_LOCAL_BIT);
      vm_compute; reflexivity.
  - apply (proj2 (proj2 (C7_GetMappedAddress_idempotent Scenario.driver 0 Scenario.world))
             4096 _ Hfirst).
Defined.

(** What a returning [GetMappedAddress] leaves behind. *)
Lemma GetMappedAddress_effect (drv : Driver) (this : nat) (w : World) (p : MemoryPool.t)
    (address : Z) (w1 : World) :
  pools w !! this = Some p ->
  MemoryPool_GetMappedAddress drv this w = Returns (address, w1) ->
  pools w1 !! this = Some (MemoryPool.set_mMappedAddress (Some address) p) /\
  host w1 = host w /\
  count_calls is_flush (calls w1) = count_calls is_flush (calls w).
Proof.
  intros Hp H.
  apply GetMappedAddress_Returns in H
    as (p' & Hp' & [[Hcached ->] | (Hnone & phys & mt & device & _ & _ & _ & _ & _ & _ & ->)]);
    rewrite Hp in Hp'; injection Hp' as <-.
  - repeat split. rewrite Hp. f_equal. destruct p; cbn in *. subst. reflexivity.
  - cbn [mapped_world set_pools set_calls pools host calls]. repeat split.
    + apply lookup_insert_eq.
    + rewrite count_calls_app. cbn. lia.
Qed.

Lemma Properties_stable (drv : Driver) (this : nat) (w w' : World) (p p' : MemoryPool.t) (flags : Z) :
  pools w !! this = Some p ->
  pools w' !! this = Some p' ->
  MemoryPool.mPhysicalDevice p' = MemoryPool.mPhysicalDevice p ->
  MemoryPool.mMemoryTypeIndex p' = MemoryPool.mMemoryTypeIndex p ->
  MemoryPool_Properties drv this w = Returns (flags, w) ->
  MemoryPool_Properties drv this w' = Returns (flags, w').
Proof.
  intros Hp Hp' Hphys Hidx H.
  apply Properties_Returns in H as (_ & q & phys & mt & Hq & Hqphys & Hmt & ->).
  rewrite Hp in Hq. injection Hq as <-.
  apply Properties_Returns. split; [reflexivity|].
  exists p', phys, mt. rewrite Hphys, Hidx. auto.
Qed.

Lemma Flush_Returns (drv : Driver) (this : nat) (w : World) (p : MemoryPool.t) (device : nat) :
  pools w !! this = Some p ->
  MemoryPool.mDevice p = Some device ->
  device ∈ devices drv ->
  MemoryPool_Flush drv this w =
    if flush_ranges drv (calls w) device (MemoryPool.mMemory p) 0 VK_WHOLE_SIZE =? VK_SUCCESS
    then Returns (tt, set_calls (calls w ++ [CallFlushMappedMemoryRanges device
                                              (MemoryPool.mMemory p) 0 VK_WHOLE_SIZE]) w)
    else Aborts.
Proof.
  intros Hp Hdev Hlive.
  unfold MemoryPool_Flush, bind, this_pool, deref_device, vkFlushMappedMemoryRanges,
    AssertEQ, Assert, ret, abort.
  rewrite Hp, Hdev. rewrite bool_decide_eq_true_2 by assumption.
  destruct (_ =? _); reflexivity.
Qed.

(* ===================================================================== *)
(** ** MemoryPool::Overwrite                                               *)
(* ===================================================================== *)

(** C8: [MemoryPool::Overwrite(bytes)] aborts when [bytes] is longer than
    the pool; otherwise, with [base] the mapped address of the pool, it
    copies [bytes] to [base], [base + 1], ... (offset 0 of the pool); when
    the pool's memory type is host-coherent it then returns without any
    flush call, and when it is not host-coherent it makes exactly one flush
    call, for the whole pool, and returns if that call succeeds. *)
Theorem C8_MemoryPool_Overwrite (drv : Driver) (this : nat) (bytes : list byte)
    (w : World) (p : MemoryPool.t) :
  pools w !! this = Some p ->
  (MemoryPool.Size p < buffer_size bytes ->
   MemoryPool_Overwrite drv this bytes w = Aborts) /\
  (buffer_size bytes <= MemoryPool.Size p ->
   forall base wm flags,
     MemoryPool_GetMappedAddress drv this w = Returns (base, wm) ->
     MemoryPool_Properties drv this w = Returns (flags, w) ->
     let wc := set_host (memcpy_bytes base bytes (host w)) wm in
     (forall (i : nat) (b : byte),
         bytes !! i = Some b -> host wc !! (base + Z.of_nat i) = Some b) /\
     (Z.land flags VK_MEMORY_PROPERTY_HOST_COHERENT_BIT <> 0 ->
      MemoryPool_Overwrite drv this bytes w = Returns (tt, wc) /\
      count_calls is_flush (calls wc) = count_calls is_flush (calls w)) /\
     (Z.land flags VK_MEMORY_PROPERTY_HOST_COHERENT_BIT = 0 ->
      forall device,
        MemoryPool.mDevice p = Some device ->
        device ∈ devices drv ->
        let flush := CallFlushMappedMemoryRanges device (MemoryPool.mMemory p) 0 VK_WHOLE_SIZE in
        (flush_ranges drv (calls wm) device (MemoryPool.mMemory p) 0 VK_WHOLE_SIZE = VK_SUCCESS ->
         MemoryPool_Overwrite drv this bytes w
           = Returns (tt, set_calls (calls wm ++ [flush]) wc)) /\
        (flush_ranges drv (calls wm) device (MemoryPool.mMemory p) 0 VK_WHOLE_SIZE <> VK_SUCCESS ->
         MemoryPool_Overwrite drv this bytes w = Aborts) /\
        count_calls is_flush (calls wm ++ [flush]) = S (count_calls is_flush (calls w)))).
Proof.
  intros Hp. split.
  - intros Hlong. unfold MemoryPool_Overwrite.
    rewrite (bind_Returns_eq _ _ w w p) by (unfold this_pool; now rewrite Hp).
    apply bind_Aborts. unfold Assert.
    destruct (Z.leb_spec (buffer_size bytes) (MemoryPool.Size p)); [lia | reflexivity].
  - intros Hfits base wm flags Hmap Hprops wc.
    destruct (GetMappedAddress_effect _ _ _ _ _ _ Hp Hmap) as (Hpm & Hhost & Hcount).
    assert (Hpc : pools wc !! this = Some (MemoryPool.set_mMappedAddress (Some base) p))
      by exact Hpm.
    assert (Hpropsc : MemoryPool_Properties drv this wc = Returns (flags, wc))
      by (eapply Properties_stable; [exact Hp | exact Hpc | reflexivity | reflexivity | exact Hprops]).
    assert (Hrun : MemoryPool_Overwrite drv this bytes w =
                   if Z.land flags VK_MEMORY_PROPERTY_HOST_COHERENT_BIT =? 0
                   then MemoryPool_Flush drv this wc else Returns (tt, wc)).
    { unfold MemoryPool_Overwrite.
      rewrite (bind_Returns_eq _ _ w w p) by (unfold this_pool; now rewrite Hp).
      rewrite (bind_Returns_eq _ _ w w tt)
        by (unfold Assert; destruct (Z.leb_spec (buffer_size bytes) (MemoryPool.Size p));
            [reflexivity | lia]).
      rewrite (bind_Returns_eq _ _ w wm base) by exact Hmap.
      rewrite (bind_Returns_eq _ _ wm wc tt)
        by (unfold memcpy, modify, wc; rewrite Hhost; reflexivity).
      rewrite (bind_Returns_eq _ _ wc wc flags) by exact Hpropsc.
      destruct (_ =? _); reflexivity. }
    split; [|split].
    + intros i b Hi. unfold wc. cbn. apply memcpy_bytes_inside. exact Hi.
    + intros Hcoherent. split.
      * rewrite Hrun. destruct (Z.eqb_spec (Z.land flags VK_MEMORY_PROPERTY_HOST_COHERENT_BIT) 0);
          [contradiction | reflexivity].
      * exact Hcount.
    + intros Hnot device Hdev Hlive flush.
      rewrite Hrun, Hnot. cbn [Z.eqb].
      rewrite (Flush_Returns drv this wc _ device Hpc) by assumption.
      change (MemoryPool.mMemory (MemoryPool.set_mMappedAddress (Some base) p))
        with (MemoryPool.mMemory p).
      change (calls wc) with (calls wm).
      split; [|split].
      * intros ->. reflexivity.
      * intros Hfail.
        destruct (Z.eqb_spec (flush_ranges drv (calls wm) device (MemoryPool.mMemory p) 0 VK_WHOLE_SIZE)
                             VK_SUCCESS); [contradiction | reflexivity].
      * rewrite count_calls_app, Hcount. cbn. lia.
Qed.

(** C8 at work in the scenario: 257 bytes into the 256-byte pool abort; the
    pattern goes to address 4096 of the coherent pool 1 with no flush call,
    and to address 4096 of the non-coherent pool 0 followed by one flush of
    the whole pool. *)
Lemma C8_MemoryPool_Overwrite_witness :
  MemoryPool_Overwrite Scenario.driver 0 (repeat xab 257) Scenario.world = Aborts /\
  MemoryPool_Overwrite Scenario.driver 1 Scenario.pattern Scenario.world
    = Returns (tt, set_host (memcpy_bytes 4096 Scenario.pattern ∅)
                     (mapped_world 1 (Scenario.pool 1) 0 4096 Scenario.world)) /\
  MemoryPool_Overwrite Scenario.driver 0 Scenario.pattern Scenario.world
    = Returns (tt, set_calls [CallMapMemory 0 7 0 VK_WHOLE_SIZE 0;
                              CallFlushMappedMemoryRanges 0 7 0 VK_WHOLE_SIZE]
                     (set_host (memcpy_bytes 4096 Scenario.pattern ∅)
                        (mapped_world 0 (Scenario.pool 0) 0 4096 Scenario.world))).
Proof.
  split; [|split].
  - apply (proj1 (C8_MemoryPool_Overwrite Scenario.driver 0 (repeat xab 257) Scenario.world
                    (Scenario.pool 0) eq_refl)).
    vm_compute. reflexivity.
  - assert (Hfits : buffer_size Scenario.pattern <= MemoryPool.Size (Scenario.pool 1))
      by (vm_compute; discriminate).
    assert (Hmap : MemoryPool_GetMappedAddress Scenario.driver 1 Scenario.world
                   = Returns (4096, mapped_world 1 (Scenario.pool 1) 0 4096 Scenario.world))
      by (vm_compute; reflexivity).
    assert (Hprops : MemoryPool_Properties Scenario.driver 1 Scenario.world
                     = Returns (6, Scenario.world))
      by (vm_compute; reflexivity).
    destruct (proj2 (C8_MemoryPool_Overwrite Scenario.driver 1 Scenario.pattern Scenario.world
                       (Scenario.pool 1) eq_refl) Hfits _ _ _ Hmap Hprops)
      as (_ & Hcoherent & _).
    apply Hcoherent. vm_compute. discriminate.
  - assert (Hfits : buffer_size Scenario.pattern <= MemoryPool.Size (Scenario.pool 0))
      by (vm_compute; discriminate).
    assert (Hmap : MemoryPool_GetMappedAddress Scenario.driver 0 Scenario.world
                   = Returns (4096, mapped_world 0 (Scenario.pool 0) 0 4096 Scenario.world))
      by (vm_compute; reflexivity).
    assert (Hprops : MemoryPool_Properties Scenario.driver 0 Scenario.world
                     = Returns (2, Scenario.world))
      by (vm_compute; reflexivity).
    destruct (proj2 (C8_MemoryPool_Overwrite Scenario.driver 0 Scenario.pattern Scenario.world
                       (Scenario.pool 0) eq_refl) Hfits _ _ _ Hmap Hprops)
      as (_ & _ & Hnot).
    destruct (Hnot eq_refl 0%nat eq_refl) as (Hflush & _).
    + vm_compute. reflexivity.
    + apply Hflush. reflexivity.
Defined.

(* ===================================================================== *)
(** ** Allocation::GetMappedAddress and Allocation::Overwrite              *)
(* ===================================================================== *)

Lemma deref_pool_Returns (w : World) (pool : nat) (p : MemoryPool.t) :
  pools w !! pool = Some p ->
  deref_pool (Some pool) w = Returns (pool, w).
Proof.
  intros Hp. unfold deref_pool, pool_bool.
  rewrite bool_decide_eq_true_2 by (rewrite Hp; eauto). reflexivity.
Qed.

Lemma deref_pool_inv (w : World) (ptr : ReflexivePointer) (pool : nat) (w' : World) :
  deref_pool ptr w = Returns (pool, w') ->
  ptr = Some pool /\ w' = w /\ is_Some (pools w !! pool).
Proof.
  unfold deref_pool, pool_bool. destruct ptr as [id|]; [|discriminate].
  destruct (bool_decide (is_Some (pools w !! id))) eqn:E; [|discriminate].
  intros [= -> ->]. apply bool_decide_eq_true_1 in E. auto.
Qed.

Lemma Allocation_GetMappedAddress_Returns (drv : Driver) (a : Allocation.t) (w : World)
    (pool : nat) (base : Z) (wm : World) :
  Allocation.mRawAllocation a = Some pool ->
  MemoryPool_GetMappedAddress drv pool w = Returns (base, wm) ->
  Allocation_GetMappedAddress drv a w = Returns (base + Allocation.Offset a, wm).
Proof.
  intros Hraw Hmap.
  destruct (GetMappedAddress_Returns _ _ _ _ _ Hmap) as (p & Hp & _).
  unfold Allocation_GetMappedAddress. rewrite Hraw.
  rewrite (bind_Returns_eq _ _ w w pool) by (eapply deref_pool_Returns; eauto).
  rewrite (bind_Returns_eq _ _ w wm base) by exact Hmap.
  reflexivity.
Qed.

Lemma Allocation_Overwrite_Returns (drv : Driver) (a : Allocation.t) (bytes : list byte)
    (w w1 : World) :
  Allocation_Overwrite drv a bytes w = Returns (tt, w1) ->
  buffer_size bytes <= Allocation.Size a /\
  exists pool base wm,
    Allocation.mRawAllocation a = Some pool /\
    MemoryPool_GetMappedAddress drv pool w = Returns (base, wm) /\
    w1 = set_host (memcpy_bytes (base + Allocation.Offset a) bytes (host wm)) wm.
Proof.
  unfold Allocation_Overwrite, Allocation_GetMappedAddress. intros H.
  apply bind_Returns in H as ([] & w2 & Hassert & H).
  apply Assert_Returns in Hassert as (Hfits & [= ->]).
  apply Z.leb_le in Hfits. split; [exact Hfits|].
  apply bind_Returns in H as (dst & w3 & Hdst & H).
  apply bind_Returns in Hdst as (pool & w4 & Hderef & Hdst).
  apply deref_pool_inv in Hderef as (Hraw & -> & _).
  apply bind_Returns in Hdst as (base & w5 & Hmap & Hdst).
  injection Hdst as <- <-.
  unfold memcpy, modify in H. injection H as <-.
  exists pool, base, w5. auto.
Qed.

(** [Allocation::Overwrite] never reaches a flush: a call that returns
    leaves the number of native flush calls as it was. *)
Lemma Allocation_Overwrite_no_flush (drv : Driver) (a : Allocation.t) (bytes : list byte)
    (w w1 : World) :
  Allocation_Overwrite drv a bytes w = Returns (tt, w1) ->
  count_calls is_flush (calls w1) = count_calls is_flush (calls w).
Proof.
  intros H.
  apply Allocation_Overwrite_Returns in H as (_ & pool & base & wm & _ & Hmap & ->).
  destruct (GetMappedAddress_Returns _ _ _ _ _ Hmap) as (p & Hp & _).
  destruct (GetMappedAddress_effect _ _ _ _ _ _ Hp Hmap) as (_ & _ & Hcount).
  exact Hcount.
Qed.

(** C9: [Allocation::Overwrite(bytes)] aborts for every buffer longer than
    the allocation's [Size()]; for a buffer within bounds, with [base] the
    mapped address of the pool the allocation views, it returns after
    copying the bytes to [base + Offset()], [base + Offset() + 1], ..., and
    leaves every other host address as it was. *)
Theorem C9_Allocation_Overwrite (drv : Driver) (a : Allocation.t) (bytes : list byte) (w : World) :
  (Allocation.Size a < buffer_size bytes ->
   Allocation_Overwrite drv a bytes w = Aborts) /\
  (buffer_size bytes <= Allocation.Size a ->
   forall pool base wm,
     Allocation.mRawAllocation a = Some pool ->
     MemoryPool_GetMappedAddress drv pool w = Returns (base, wm) ->
     let w1 := set_host (memcpy_bytes (base + Allocation.Offset a) bytes (host w)) wm in
     Allocation_GetMappedAddress drv a w = Returns (base + Allocation.Offset a, wm) /\
     Allocation_Overwrite drv a bytes w = Returns (tt, w1) /\
     (forall (i : nat) (b : byte),
         bytes !! i = Some b ->
         host w1 !! (base + Allocation.Offset a + Z.of_nat i) = Some b) /\
     (forall addr : Z,
         addr < base + Allocation.Offset a \/
         base + Allocation.Offset a + buffer_size bytes <= addr ->
         host w1 !! addr = host w !! addr)).
Proof.
  split.
  - intros Hlong. unfold Allocation_Overwrite. apply bind_Aborts. unfold Assert.
    destruct (Z.leb_spec (buffer_size bytes) (Allocation.Size a)); [lia | reflexivity].
  - intros Hfits pool base wm Hraw Hmap w1.
    pose proof (Allocation_GetMappedAddress_Returns _ _ _ _ _ _ Hraw Hmap) as Hdst.
    destruct (GetMappedAddress_Returns _ _ _ _ _ Hmap) as (p & Hp & _).
    destruct (GetMappedAddress_effect _ _ _ _ _ _ Hp Hmap) as (_ & Hhost & _).
    split; [exact Hdst|]. split; [|split].
    + unfold Allocation_Overwrite.
      rewrite (bind_Returns_eq _ _ w w tt)
        by (unfold Assert; destruct (Z.leb_spec (buffer_size bytes) (Allocation.Size a));
            [reflexivity | lia]).
      rewrite (bind_Returns_eq _ _ w wm (base + Allocation.Offset a)) by exact Hdst.
      unfold memcpy, modify, w1. rewrite Hhost. reflexivity.
    + intros i b Hi. unfold w1. cbn. apply memcpy_bytes_inside. exact Hi.
    + intros addr Hout. unfold w1. cbn. apply memcpy_bytes_outside. exact Hout.
Qed.

(** C9 at work in the scenario, on the view of pool 0 at offset 16 of size
    4: five bytes abort; four bytes are copied to 4096 + 16 and byte 2 of
    the buffer is read back at address 4114. *)
Lemma C9_Allocation_Overwrite_witness :
  Allocation_Overwrite Scenario.driver (Allocation.ctor 0 0 16 4) (repeat xab 5) Scenario.world
    = Aborts /\
  Allocation_Overwrite Scenario.driver (Allocation.ctor 0 0 16 4) [x01; x02; x03; x04] Scenario.world
    = Returns (tt, set_host (memcpy_bytes 4112 [x01; x02; x03; x04] ∅)
                     (mapped_world 0 (Scenario.pool 0) 0 4096 Scenario.world)) /\
  host (set_host (memcpy_bytes 4112 [x01; x02; x03; x04] ∅)
          (mapped_world 0 (Scenario.pool 0) 0 4096 Scenario.world)) !! 4114 = Some x03.
Proof.
  split.
  - apply (proj1 (C9_Allocation_Overwrite Scenario.driver (Allocation.ctor 0 0 16 4)
                    (repeat xab 5) Scenario.world)).
    vm_compute. reflexivity.
  - assert (Hfits : buffer_size [x01; x02; x03; x04] <= Allocation.Size (Allocation.ctor 0 0 16 4))
      by (vm_compute; discriminate).
    assert (Hmap : MemoryPool_GetMappedAddress Scenario.driver 0 Scenario.world
                   = Returns (4096, mapped_world 0 (Scenario.pool 0) 0 4096 Scenario.world))
      by (vm_compute; reflexivity).
    destruct (proj2 (C9_Allocation_Overwrite Scenario.driver (Allocation.ctor 0 0 16 4)
                       [x01; x02; x03; x04] Scenario.world)
                Hfits 0%nat 4096 _ eq_refl Hmap) as (_ & Hrun & Hread & _).
    split; [exact Hrun|].
    apply (Hread 2%nat x03). reflexivity.
Defined.

(** C2 (evaluation of the code): in the end-to-end scenario (a 256-byte
    host-visible pool that is not host-coherent, an allocation of size 64 at
    offset 0, 64 bytes of [0xAB]) [Allocation::Overwrite] returns after a
    single native call, the map of the pool: no flush call is made, while
    [MemoryPool::Overwrite] with the same bytes on the same pool does
    flush.  On the host-coherent pool 1 [Allocation::Overwrite] makes no
    flush call either. *)
Theorem C2_Allocation_Overwrite_does_not_flush :
  Z.land (Scenario.memoryTypes 0) VK_MEMORY_PROPERTY_HOST_VISIBLE_BIT
    = VK_MEMORY_PROPERTY_HOST_VISIBLE_BIT /\
  Z.land (Scenario.memoryTypes 0) VK_MEMORY_PROPERTY_HOST_COHERENT_BIT = 0 /\
  (exists w1,
      Allocation_Overwrite Scenario.driver Scenario.view Scenario.pattern Scenario.world
        = Returns (tt, w1) /\
      calls w1 = [CallMapMemory 0 7 0 VK_WHOLE_SIZE 0] /\
      count_calls is_flush (calls w1) = 0%nat) /\
  (exists w2,
      MemoryPool_Overwrite Scenario.driver 0 Scenario.pattern Scenario.world
        = Returns (tt, w2) /\
      calls w2 = [CallMapMemory 0 7 0 VK_WHOLE_SIZE 0;
                  CallFlushMappedMemoryRanges 0 7 0 VK_WHOLE_SIZE] /\
      count_calls is_flush (calls w2) = 1%nat) /\
  Z.land (Scenario.memoryTypes 1) VK_MEMORY_PROPERTY_HOST_COHERENT_BIT
    = VK_MEMORY_PROPERTY_HOST_COHERENT_BIT /\
  (exists w3,
      Allocation_Overwrite Scenario.driver (Allocation.ctor 0 1 0 64) Scenario.pattern
        Scenario.world = Returns (tt, w3) /\
      calls w3 = [CallMapMemory 0 7 0 VK_WHOLE_SIZE 0] /\
      count_calls is_flush (calls w3) = 0%nat).
Proof.
  split; [reflexivity|].
  split; [reflexivity|].
  split; [|split; [|split; [reflexivity|]]].
  - exists (set_host (memcpy_bytes 4096 Scenario.pattern ∅)
              (mapped_world 0 (Scenario.pool 0) 0 4096 Scenario.world)).
    split; [vm_compute; reflexivity|]. split; reflexivity.
  - exists (set_calls [CallMapMemory 0 7 0 VK_WHOLE_SIZE 0;
                       CallFlushMappedMemoryRanges 0 7 0 VK_WHOLE_SIZE]
              (set_host (memcpy_bytes 4096 Scenario.pattern ∅)
                 (mapped_world 0 (Scenario.pool 0) 0 4096 Scenario.world))).
    split; [vm_compute; reflexivity|]. split; reflexivity.
  - exists (set_host (memcpy_bytes 4096 Scenario.pattern ∅)
              (mapped_world 1 (Scenario.pool 1) 0 4096 Scenario.world)).
    split; [vm_compute; reflexivity|]. split; reflexivity.
Qed.

(* ===================================================================== *)
(** ** Lifetimes of Allocation objects and the release callback            *)
(* ===================================================================== *)

Lemma destructor_of_empty (this : nat) (a : Allocation.t) (w : World) :
  objects w !! this = Some a ->
  is_empty a ->
  Allocation_destructor this w = Returns (tt, set_objects (delete this (objects w)) w).
Proof.
  intros Hobj [Hallocator Hraw].
  unfold Allocation_destructor, bind, this_object, get_world, AssertImplication, Assert,
    end_lifetime, modify, ret.
  rewrite Hobj, Hallocator, Hraw. reflexivity.
Qed.

Lemma destructor_of_bound (this allocator : nat) (a : Allocation.t) (w : World) :
  objects w !! this = Some a ->
  Allocation.mAllocator a = Some allocator ->
  allocator ∈ allocators w ->
  Allocation_destructor this w
    = Returns (tt, set_objects (delete this (objects w))
                     (set_frees (frees w ++ [mkFreeCall this allocator a]) w)).
Proof.
  intros Hobj Hallocator Hlive.
  unfold Allocation_destructor, bind, this_object, get_world, AssertImplication, Assert,
    deref_allocator, Allocator_Free, this_object, end_lifetime, modify, ret.
  rewrite Hobj, Hallocator. cbn [allocator_bool].
  rewrite bool_decide_eq_true_2 by assumption. cbn.
  rewrite bool_decide_eq_true_2 by assumption.
  unfold bind. rewrite Hobj. reflexivity.
Qed.

Lemma move_ctor_Returns (this other : nat) (o : Allocation.t) (w : World) :
  objects w !! other = Some o ->
  objects w !! this = None ->
  Allocation_move_ctor this other w
    = Returns (tt, set_objects (<[this := fst (Allocation.move_ctor o)]>
                                  (<[other := snd (Allocation.move_ctor o)]> (objects w))) w).
Proof.
  intros Hother Hthis.
  assert (this <> other) by congruence.
  unfold Allocation_move_ctor, bind, this_object, begin_lifetime, modify.
  rewrite Hother. cbn.
  rewrite lookup_insert_ne by congruence. rewrite Hthis. reflexivity.
Qed.

Lemma move_ctor_keeps_claim (allocator pool : nat) (offset size : Z) (o : Allocation.t) :
  holds_claim allocator pool offset size o ->
  holds_claim allocator pool offset size (fst (Allocation.move_ctor o)).
Proof. intros (? & ? & ? & ?). repeat split; assumption. Qed.

Lemma move_ctor_of_empty (o : Allocation.t) :
  is_empty o -> is_empty (fst (Allocation.move_ctor o)).
Proof. intros [? ?]. split; assumption. Qed.

Lemma op_valid_MoveConstruct (this other : nat) (live : gset nat) :
  op_valid (MoveConstruct this other) live = true <-> other ∈ live /\ this ∉ live.
Proof.
  cbn. rewrite andb_true_iff, !bool_decide_eq_true. reflexivity.
Qed.

Lemma op_valid_MoveAssign (this other : nat) (live : gset nat) :
  op_valid (MoveAssign this other) live = true <-> this ∈ live /\ other ∈ live.
Proof.
  cbn. rewrite andb_true_iff, !bool_decide_eq_true. reflexivity.
Qed.

Lemma op_valid_Destroy (this : nat) (live : gset nat) :
  op_valid (Destroy this) live = true <-> this ∈ live.
Proof. cbn. apply bool_decide_eq_true. Qed.

Lemma move_assign_self (this : nat) (w : World) :
  Allocation_move_assign this this w = Returns (tt, w).
Proof.
  unfold Allocation_move_assign.
  rewrite bool_decide_eq_false_2 by (intros H; now apply H). reflexivity.
Qed.

Lemma move_assign_other (this other : nat) (w w1 : World) :
  this <> other ->
  Allocation_destructor this w = Returns (tt, w1) ->
  Allocation_move_assign this other w = Allocation_move_ctor this other w1.
Proof.
  intros Hne Hdestroy. unfold Allocation_move_assign.
  rewrite bool_decide_eq_true_2 by assumption.
  unfold bind. rewrite Hdestroy. reflexivity.
Qed.

Lemma dom_after_move_construct (objs : gmap nat Allocation.t) (this other : nat)
    (x y : Allocation.t) :
  other ∈ dom objs ->
  dom (<[this := x]> (<[other := y]> objs)) = {[ this ]} ∪ dom objs.
Proof.
  intros Hother. rewrite !dom_insert_L.
  apply set_eq. intros z. rewrite !elem_of_union, !elem_of_singleton.
  split; [intros [?|[->|?]]; auto | intros [?|?]; auto].
Qed.

Lemma dom_after_move_assign (objs : gmap nat Allocation.t) (this other : nat)
    (x y : Allocation.t) :
  this ∈ dom objs ->
  other ∈ dom objs ->
  dom (<[this := x]> (<[other := y]> (delete this objs))) = dom objs.
Proof.
  intros Hthis Hother. rewrite !dom_insert_L, dom_delete_L.
  apply set_eq. intros z.
  rewrite !elem_of_union, elem_of_difference, !elem_of_singleton.
  split.
  - intros [->|[->|[? _]]]; assumption.
  - intros Hz. destruct (decide (z = this)) as [->|Hne]; auto.
Qed.

(** Once every live object is empty, no operation calls [Allocator::Free]
    any more. *)
Lemma step_all_empty (op : Op) (w : World) :
  all_empty w ->
  op_valid op (dom (objects w)) = true ->
  exists w',
    exec_op op w = Returns (tt, w') /\
    all_empty w' /\
    frees w' = frees w /\
    allocators w' = allocators w /\
    dom (objects w') = live_after op (dom (objects w)).
Proof.
  intros Hempty Hvalid. destruct op as [this other | this other | this].
  - apply op_valid_MoveConstruct in Hvalid as [Hother Hthis].
    apply elem_of_dom in Hother as Hother'. destruct Hother' as [o Ho].
    apply not_elem_of_dom in Hthis as Hnone.
    eexists. split; [apply (move_ctor_Returns this other o w Ho Hnone)|].
    unfold all_empty; cbn [objects frees allocators set_objects]. split_and!; try reflexivity.
    + intros id b Hb.
      apply lookup_insert_Some in Hb as [[_ <-] | [_ Hb]];
        [apply move_ctor_of_empty; eauto|].
      apply lookup_insert_Some in Hb as [[_ <-] | [_ Hb]];
        [apply moved_from_is_empty | eauto].
    + cbn [live_after]. apply dom_after_move_construct. exact Hother.
  - apply op_valid_MoveAssign in Hvalid as [Hthis Hother].
    destruct (decide (this = other)) as [<- | Hne].
    + exists w. cbn [exec_op live_after]. rewrite move_assign_self. auto.
    + apply elem_of_dom in Hthis as Hthis'. destruct Hthis' as [a Ha].
      apply elem_of_dom in Hother as Hother'. destruct Hother' as [o Ho].
      pose proof (destructor_of_empty this a w Ha (Hempty _ _ Ha)) as Hdestroy.
      cbn [exec_op]. rewrite (move_assign_other _ _ _ _ Hne Hdestroy).
      eexists. split.
      { apply (move_ctor_Returns this other o); cbn [objects set_objects].
        - rewrite lookup_delete_ne by assumption. exact Ho.
        - apply lookup_delete_eq. }
      unfold all_empty; cbn [objects frees allocators set_objects]. split_and!; try reflexivity.
      * intros id b Hb.
        apply lookup_insert_Some in Hb as [[_ <-] | [_ Hb]];
          [apply move_ctor_of_empty; eauto|].
        apply lookup_insert_Some in Hb as [[_ <-] | [_ Hb]];
          [apply moved_from_is_empty|].
        apply lookup_delete_Some in Hb as [_ Hb]. eauto.
      * cbn [live_after]. apply dom_after_move_assign; assumption.
  - apply op_valid_Destroy in Hvalid.
    apply elem_of_dom in Hvalid as [a Ha].
    eexists. split; [apply (destructor_of_empty this a w Ha (Hempty _ _ Ha))|].
    unfold all_empty; cbn [objects frees allocators set_objects]. split_and!; try reflexivity.
    + intros id b Hb. apply lookup_delete_Some in Hb as [_ Hb]. eauto.
    + cbn [live_after]. apply dom_delete_L.
Qed.

Section SingleRelease.

Variables (allocator pool : nat) (offset size : Z).

(** One operation on a world in which [holder] holds the claim: either
    the claim stays held (by the object [holder_after] names) and nothing
    is released, or the operation ran the destructor of [holder], which
    made the one call of [Allocator::Free], and every object is empty. *)
Lemma step_bound (op : Op) (w : World) (holder : nat) :
  bound_at allocator pool offset size w holder ->
  op_valid op (dom (objects w)) = true ->
  exists w',
    exec_op op w = Returns (tt, w') /\
    allocators w' = allocators w /\
    dom (objects w') = live_after op (dom (objects w)) /\
    match holder_after op holder with
    | Some holder' => bound_at allocator pool offset size w' holder' /\ frees w' = frees w
    | None =>
        all_empty w' /\
        exists a, holds_claim allocator pool offset size a /\
                  frees w' = frees w ++ [mkFreeCall holder allocator a]
    end.
Proof.
  intros (Hlive & (a & Ha & Hclaim) & Hothers) Hvalid.
  assert (Hallocator : Allocation.mAllocator a = Some allocator) by apply Hclaim.
  destruct op as [this other | this other | this].
  - apply op_valid_MoveConstruct in Hvalid as [Hother Hthis].
    apply elem_of_dom in Hother as Hother'. destruct Hother' as [o Ho].
    apply not_elem_of_dom in Hthis as Hnone.
    assert (Hth : this <> holder) by congruence.
    eexists. split; [apply (move_ctor_Returns this other o w Ho Hnone)|].
    split; [reflexivity|].
    split; [apply dom_after_move_construct; exact Hother|].
    cbn [holder_after]. split; [|reflexivity].
    unfold bound_at, others_empty. cbn [objects allocators set_objects].
    split; [exact Hlive|].
    case_bool_decide as Hoh.
    + subst other. rewrite Ha in Ho. injection Ho as <-. split.
      * eexists. split; [apply lookup_insert_eq | apply move_ctor_keeps_claim; exact Hclaim].
      * intros id b Hid Hb.
        apply lookup_insert_Some in Hb as [[? _] | [_ Hb]]; [congruence|].
        apply lookup_insert_Some in Hb as [[_ <-] | [Hne Hb]];
          [apply moved_from_is_empty | eauto].
    + split.
      * exists a. split; [|exact Hclaim].
        rewrite !lookup_insert_ne by congruence. exact Ha.
      * intros id b Hid Hb.
        apply lookup_insert_Some in Hb as [[_ <-] | [_ Hb]];
          [apply move_ctor_of_empty; eauto|].
        apply lookup_insert_Some in Hb as [[_ <-] | [_ Hb]];
          [apply moved_from_is_empty | eauto].
  - apply op_valid_MoveAssign in Hvalid as [Hthis Hother].
    cbn [holder_after exec_op live_after].
    case_bool_decide as Hself.
    { subst other. exists w. rewrite move_assign_self.
      split_and!; try reflexivity. split_and!; eauto. }
    apply elem_of_dom in Hthis as Hthis'. destruct Hthis' as [t Ht].
    apply elem_of_dom in Hother as Hother'. destruct Hother' as [o Ho].
    case_bool_decide as Hth.
    + subst this. rewrite Ha in Ht. injection Ht as <-.
      pose proof (destructor_of_bound holder allocator a w Ha Hallocator Hlive) as Hdestroy.
      rewrite (move_assign_other _ _ _ _ Hself Hdestroy).
      eexists. split.
      { apply (move_ctor_Returns holder other o); cbn [objects set_objects set_frees].
        - rewrite lookup_delete_ne by assumption. exact Ho.
        - apply lookup_delete_eq. }
      split; [reflexivity|].
      split; [apply dom_after_move_assign; assumption|].
      unfold all_empty. cbn [objects frees set_objects set_frees]. split.
      * intros id b Hb.
        apply lookup_insert_Some in Hb as [[_ <-] | [_ Hb]];
          [apply move_ctor_of_empty; eapply Hothers; [|exact Ho]; congruence|].
        apply lookup_insert_Some in Hb as [[_ <-] | [_ Hb]];
          [apply moved_from_is_empty|].
        apply lookup_delete_Some in Hb as [Hne Hb]. eapply Hothers; [|exact Hb]. congruence.
      * exists a. split; [exact Hclaim | reflexivity].
    + pose proof (destructor_of_empty this t w Ht (Hothers _ _ Hth Ht)) as Hdestroy.
      rewrite (move_assign_other _ _ _ _ Hself Hdestroy).
      eexists. split.
      { apply (move_ctor_Returns this other o); cbn [objects set_objects].
        - rewrite lookup_delete_ne by assumption. exact Ho.
        - apply lookup_delete_eq. }
      split; [reflexivity|].
      split; [apply dom_after_move_assign; assumption|].
      split; [|reflexivity].
      unfold bound_at, others_empty. cbn [objects allocators set_objects].
      split; [exact Hlive|].
      case_bool_decide as Hoh.
      * subst other. rewrite Ha in Ho. injection Ho as <-. split.
        -- eexists. split; [apply lookup_insert_eq | apply move_ctor_keeps_claim; exact Hclaim].
        -- intros id b Hid Hb.
           apply lookup_insert_Some in Hb as [[? _] | [_ Hb]]; [congruence|].
           apply lookup_insert_Some in Hb as [[_ <-] | [Hne Hb]];
             [apply moved_from_is_empty|].
           apply lookup_delete_Some in Hb as [_ Hb]. eauto.
      * split.
        -- exists a. split; [|exact Hclaim].
           rewrite !lookup_insert_ne by congruence.
           rewrite lookup_delete_ne by congruence. exact Ha.
        -- intros id b Hid Hb.
           apply lookup_insert_Some in Hb as [[_ <-] | [_ Hb]];
             [apply move_ctor_of_empty; eauto|].
           apply lookup_insert_Some in Hb as [[_ <-] | [_ Hb]];
             [apply moved_from_is_empty|].
           apply lookup_delete_Some in Hb as [_ Hb]. eauto.
  - apply op_valid_Destroy in Hvalid.
    apply elem_of_dom in Hvalid as [t Ht].
    cbn [holder_after exec_op live_after].
    case_bool_decide as Hth.
    + subst this. rewrite Ha in Ht. injection Ht as <-.
      eexists. split; [apply (destructor_of_bound holder allocator a w Ha Hallocator Hlive)|].
      split; [reflexivity|].
      split; [apply dom_delete_L|].
      unfold all_empty. cbn [objects frees set_objects set_frees]. split.
      * intros id b Hb. apply lookup_delete_Some in Hb as [Hne Hb].
        eapply Hothers; [|exact Hb]. congruence.
      * exists a. split; [exact Hclaim | reflexivity].
    + eexists. split; [apply (destructor_of_empty this t w Ht (Hothers _ _ Hth Ht))|].
      split; [reflexivity|].
      split; [apply dom_delete_L|].
      split; [|reflexivity].
      unfold bound_at, others_empty. cbn [objects allocators set_objects].
      split; [exact Hlive|]. split.
      * exists a. split; [|exact Hclaim].
        rewrite lookup_delete_ne by congruence. exact Ha.
      * intros id b Hid Hb. apply lookup_delete_Some in Hb as [_ Hb]. eauto.
Qed.

Lemma exec_all_empty (ops : list Op) (w : World) :
  all_empty w ->
  valid ops (dom (objects w)) = true ->
  exists w',
    exec ops w = Returns (tt, w') /\
    all_empty w' /\
    frees w' = frees w /\
    dom (objects w') = final_live ops (dom (objects w)).
Proof.
  revert w. induction ops as [|op rest IH]; intros w Hempty Hvalid.
  - exists w. auto.
  - cbn [valid] in Hvalid. apply andb_true_iff in Hvalid as [Hop Hrest].
    destruct (step_all_empty op w Hempty Hop) as (w1 & Hstep & Hempty1 & Hfrees1 & _ & Hdom1).
    rewrite <- Hdom1 in Hrest.
    destruct (IH w1 Hempty1 Hrest) as (w' & Hrun & Hempty' & Hfrees' & Hdom').
    exists w'. cbn [exec final_live]. unfold bind. rewrite Hstep.
    split; [exact Hrun|]. split; [exact Hempty'|].
    split; [congruence|]. rewrite <- Hdom1. exact Hdom'.
Qed.

Lemma exec_bound (ops : list Op) (w : World) (holder : nat) :
  bound_at allocator pool offset size w holder ->
  valid ops (dom (objects w)) = true ->
  exists w',
    exec ops w = Returns (tt, w') /\
    dom (objects w') = final_live ops (dom (objects w)) /\
    ((bound_at allocator pool offset size w' (final_holder ops holder) /\ frees w' = frees w) \/
     (all_empty w' /\
      exists a, holds_claim allocator pool offset size a /\
                frees w' = frees w ++ [mkFreeCall (final_holder ops holder) allocator a])).
Proof.
  revert w holder. induction ops as [|op rest IH]; intros w holder Hbound Hvalid.
  - exists w. auto.
  - cbn [valid] in Hvalid. apply andb_true_iff in Hvalid as [Hop Hrest].
    destruct (step_bound op w holder Hbound Hop) as (w1 & Hstep & _ & Hdom1 & Hcase).
    rewrite <- Hdom1 in Hrest.
    cbn [exec final_live final_holder]. unfold bind. rewrite Hstep.
    destruct (holder_after op holder) as [holder'|].
    + destruct Hcase as [Hbound1 Hfrees1].
      destruct (IH w1 holder' Hbound1 Hrest) as (w' & Hrun & Hdom' & Hcase').
      exists w'. split; [exact Hrun|]. split; [rewrite <- Hdom1; exact Hdom'|].
      rewrite <- Hfrees1. exact Hcase'.
    + destruct Hcase as (Hempty1 & a & Hclaim & Hfrees1).
      destruct (exec_all_empty rest w1 Hempty1 Hrest) as (w' & Hrun & Hempty' & Hfrees' & Hdom').
      exists w'. split; [exact Hrun|]. split; [rewrite <- Hdom1; exact Hdom'|].
      right. split; [exact Hempty'|]. exists a. split; [exact Hclaim | congruence].
Qed.

End SingleRelease.

(* ===================================================================== *)
(** ** Every claim is released once, in any world                          *)
(* ===================================================================== *)

Lemma pending_insert_fresh (objs : gmap nat Allocation.t) (i : nat) (a : Allocation.t) :
  objs !! i = None ->
  pending (<[i := a]> objs) ≡ₚ pending_of a ++ pending objs.
Proof.
  intros Hfresh. unfold pending.
  rewrite (map_to_list_insert objs i a Hfresh). reflexivity.
Qed.

Lemma pending_delete (objs : gmap nat Allocation.t) (i : nat) (a : Allocation.t) :
  objs !! i = Some a ->
  pending objs ≡ₚ pending_of a ++ pending (delete i objs).
Proof.
  intros Hi. unfold pending.
  rewrite <- (map_to_list_delete objs i a Hi). reflexivity.
Qed.

Lemma pending_overwrite (objs : gmap nat Allocation.t) (i : nat) (a b : Allocation.t) :
  objs !! i = Some a ->
  pending_of a ++ pending (<[i := b]> objs) ≡ₚ pending_of b ++ pending objs.
Proof.
  intros Hi.
  rewrite <- (insert_delete_eq objs i b).
  rewrite (pending_insert_fresh (delete i objs) i b) by apply lookup_delete_eq.
  rewrite (pending_delete objs i a Hi).
  rewrite !app_assoc. f_equiv. apply Permutation_app_comm.
Qed.

Lemma pending_of_moved_to (o : Allocation.t) :
  pending_of (fst (Allocation.move_ctor o)) = pending_of o.
Proof. reflexivity. Qed.

Lemma pending_of_moved_from (o : Allocation.t) :
  pending_of (snd (Allocation.move_ctor o)) = [].
Proof. reflexivity. Qed.

Lemma pending_of_empty (a : Allocation.t) : is_empty a -> pending_of a = [].
Proof. intros [Hnone _]. unfold pending_of. rewrite Hnone. reflexivity. Qed.

(** The destructor in a well-formed world. *)
Lemma destroy_step (w : World) (this : nat) (a : Allocation.t) :
  well_formed w ->
  objects w !! this = Some a ->
  exists w' new,
    Allocation_destructor this w = Returns (tt, w') /\
    well_formed w' /\
    allocators w' = allocators w /\
    objects w' = delete this (objects w) /\
    frees w' = frees w ++ new /\
    Forall from_holder new /\
    released w' ++ pending (objects w') ≡ₚ released w ++ pending (objects w) /\
    (forall allocator, Allocation.mAllocator a = Some allocator ->
                       new = [mkFreeCall this allocator a]).
Proof.
  intros Hwf Ha.
  assert (Hwf' : forall w', allocators w' = allocators w ->
                            objects w' = delete this (objects w) -> well_formed w').
  { intros w' Hal Hobj id b Hb. rewrite Hobj in Hb.
    apply lookup_delete_Some in Hb as [_ Hb]. rewrite Hal. exact (Hwf id b Hb). }
  destruct (Hwf this a Ha) as [Hempty | (allocator & Hallocator & Hlive)].
  - eexists _, []. split; [apply (destructor_of_empty this a w Ha Hempty)|].
    cbn [objects allocators frees set_objects].
    split; [apply Hwf'; reflexivity|]. split; [reflexivity|]. split; [reflexivity|].
    split; [symmetry; apply app_nil_r|]. split; [constructor|]. split.
    + unfold released. cbn [frees set_objects].
      rewrite (pending_delete (objects w) this a Ha), (pending_of_empty a Hempty).
      reflexivity.
    + intros allocator Hallocator. destruct Hempty as [Hnone _]. congruence.
  - eexists _, [mkFreeCall this allocator a].
    split; [apply (destructor_of_bound this allocator a w Ha Hallocator Hlive)|].
    cbn [objects allocators frees set_objects set_frees].
    split; [apply Hwf'; reflexivity|]. split; [reflexivity|]. split; [reflexivity|].
    split; [reflexivity|]. split; [repeat constructor; exact Hallocator|]. split.
    + unfold released. cbn [frees set_objects set_frees objects].
      rewrite fmap_app. cbn [fmap list_fmap free_argument].
      rewrite (pending_delete (objects w) this a Ha).
      unfold pending_of. rewrite Hallocator.
      rewrite <- app_assoc. reflexivity.
    + intros allocator' Hallocator'. congruence.
Qed.

(** The move constructor in a well-formed world. *)
Lemma construct_step (w : World) (this other : nat) (o : Allocation.t) :
  well_formed w ->
  objects w !! other = Some o ->
  objects w !! this = None ->
  exists w',
    Allocation_move_ctor this other w = Returns (tt, w') /\
    well_formed w' /\
    allocators w' = allocators w /\
    objects w' = <[this := fst (Allocation.move_ctor o)]>
                   (<[other := snd (Allocation.move_ctor o)]> (objects w)) /\
    frees w' = frees w /\
    released w' ++ pending (objects w') ≡ₚ released w ++ pending (objects w).
Proof.
  intros Hwf Ho Hnone.
  assert (Hne : this <> other) by congruence.
  eexists. split; [apply (move_ctor_Returns this other o w Ho Hnone)|].
  cbn [objects allocators frees set_objects].
  split; [|split; [reflexivity|split; [reflexivity|split; [reflexivity|]]]].
  - intros id b Hb. cbn [objects allocators set_objects] in *.
    apply lookup_insert_Some in Hb as [[_ <-] | [_ Hb]].
    { destruct (Hwf other o Ho) as [Hempty | Hbound].
      - left. apply move_ctor_of_empty. exact Hempty.
      - right. exact Hbound. }
    apply lookup_insert_Some in Hb as [[_ <-] | [_ Hb]].
    { left. apply moved_from_is_empty. }
    exact (Hwf id b Hb).
  - unfold released. cbn [frees set_objects]. f_equiv.
    rewrite pending_insert_fresh by (rewrite lookup_insert_ne by congruence; exact Hnone).
    rewrite pending_of_moved_to.
    rewrite (pending_overwrite (objects w) other o _ Ho), pending_of_moved_from.
    reflexivity.
Qed.

(** One operation in a well-formed world: it runs, keeps the world
    well-formed, conserves the claims (those released so far together with
    those still held), and moves or releases each single claim as
    [holder_after] says. *)
Lemma step_general (op : Op) (w : World) :
  well_formed w ->
  op_valid op (dom (objects w)) = true ->
  exists w' new,
    exec_op op w = Returns (tt, w') /\
    well_formed w' /\
    dom (objects w') = live_after op (dom (objects w)) /\
    frees w' = frees w ++ new /\
    Forall from_holder new /\
    released w' ++ pending (objects w') ≡ₚ released w ++ pending (objects w) /\
    (forall holder a allocator pool offset size,
        objects w !! holder = Some a ->
        holds_claim allocator pool offset size a ->
        match holder_after op holder with
        | Some holder' =>
            exists a', objects w' !! holder' = Some a' /\
                       holds_claim allocator pool offset size a'
        | None => new = [mkFreeCall holder allocator a]
        end).
Proof.
  intros Hwf Hvalid. destruct op as [this other | this other | this];
    cbn [exec_op live_after holder_after].
  - apply op_valid_MoveConstruct in Hvalid as [Hother Hthis].
    apply elem_of_dom in Hother as Hother'. destruct Hother' as [o Ho].
    apply not_elem_of_dom in Hthis as Hnone.
    destruct (construct_step w this other o Hwf Ho Hnone)
      as (w' & Hrun & Hwf' & _ & Hobj & Hfrees & Hperm).
    exists w', []. split; [exact Hrun|]. split; [exact Hwf'|].
    split; [rewrite Hobj; apply dom_after_move_construct; exact Hother|].
    split; [rewrite app_nil_r; exact Hfrees|]. split; [constructor|].
    split; [exact Hperm|].
    intros holder a allocator pool offset size Ha Hclaim. rewrite Hobj.
    case_bool_decide as Hoh.
    + subst other. rewrite Ho in Ha. injection Ha as ->.
      eexists. split; [apply lookup_insert_eq | apply move_ctor_keeps_claim; exact Hclaim].
    + exists a. split; [|exact Hclaim].
      rewrite !lookup_insert_ne by congruence. exact Ha.
  - apply op_valid_MoveAssign in Hvalid as [Hthis Hother].
    destruct (decide (this = other)) as [<- | Hne].
    { exists w, []. rewrite move_assign_self.
      split; [reflexivity|]. split; [exact Hwf|]. split; [reflexivity|].
      split; [symmetry; apply app_nil_r|]. split; [constructor|]. split; [reflexivity|].
      intros holder a allocator pool offset size Ha Hclaim.
      rewrite bool_decide_eq_true_2 by reflexivity. eauto. }
    apply elem_of_dom in Hthis as Hthis'. destruct Hthis' as [t Ht].
    apply elem_of_dom in Hother as Hother'. destruct Hother' as [o Ho].
    destruct (destroy_step w this t Hwf Ht)
      as (w1 & new & Hrun1 & Hwf1 & _ & Hobj1 & Hfrees1 & Hgood1 & Hperm1 & Hreleased).
    assert (Ho1 : objects w1 !! other = Some o)
      by (rewrite Hobj1, lookup_delete_ne by assumption; exact Ho).
    assert (Hnone1 : objects w1 !! this = None)
      by (rewrite Hobj1; apply lookup_delete_eq).
    destruct (construct_step w1 this other o Hwf1 Ho1 Hnone1)
      as (w2 & Hrun2 & Hwf2 & _ & Hobj2 & Hfrees2 & Hperm2).
    exists w2, new. rewrite (move_assign_other _ _ _ _ Hne Hrun1).
    split; [exact Hrun2|]. split; [exact Hwf2|].
    split; [rewrite Hobj2, Hobj1; apply dom_after_move_assign; assumption|].
    split; [congruence|]. split; [exact Hgood1|].
    split; [rewrite Hperm2; exact Hperm1|].
    intros holder a allocator pool offset size Ha Hclaim.
    rewrite (bool_decide_eq_false_2 (this = other)) by assumption.
    case_bool_decide as Hth.
    + subst this. rewrite Ht in Ha. injection Ha as ->.
      apply Hreleased. apply Hclaim.
    + rewrite Hobj2, Hobj1. case_bool_decide as Hoh.
      * subst other. rewrite Ho in Ha. injection Ha as ->.
        eexists. split; [apply lookup_insert_eq | apply move_ctor_keeps_claim; exact Hclaim].
      * exists a. split; [|exact Hclaim].
        rewrite !lookup_insert_ne by congruence.
        rewrite lookup_delete_ne by congruence. exact Ha.
  - apply op_valid_Destroy in Hvalid.
    apply elem_of_dom in Hvalid as [t Ht].
    destruct (destroy_step w this t Hwf Ht)
      as (w1 & new & Hrun1 & Hwf1 & _ & Hobj1 & Hfrees1 & Hgood1 & Hperm1 & Hreleased).
    exists w1, new. split; [exact Hrun1|]. split; [exact Hwf1|].
    split; [rewrite Hobj1; apply dom_delete_L|].
    split; [exact Hfrees1|]. split; [exact Hgood1|]. split; [exact Hperm1|].
    intros holder a allocator pool offset size Ha Hclaim.
    case_bool_decide as Hth.
    + subst this. rewrite Ht in Ha. injection Ha as ->.
      apply Hreleased. apply Hclaim.
    + exists a. split; [|exact Hclaim].
      rewrite Hobj1, lookup_delete_ne by congruence. exact Ha.
Qed.

Lemma exec_general (ops : list Op) (w : World) :
  well_formed w ->
  valid ops (dom (objects w)) = true ->
  exists w' new,
    exec ops w = Returns (tt, w') /\
    well_formed w' /\
    dom (objects w') = final_live ops (dom (objects w)) /\
    frees w' = frees w ++ new /\
    Forall from_holder new /\
    released w' ++ pending (objects w') ≡ₚ released w ++ pending (objects w) /\
    (forall holder a allocator pool offset size,
        objects w !! holder = Some a ->
        holds_claim allocator pool offset size a ->
        (exists a', objects w' !! final_holder ops holder = Some a' /\
                    holds_claim allocator pool offset size a') \/
        (exists a', holds_claim allocator pool offset size a' /\
                    mkFreeCall (final_holder ops holder) allocator a' ∈ new)).
Proof.
  revert w. induction ops as [|op rest IH]; intros w Hwf Hvalid.
  - exists w, []. split; [reflexivity|]. split; [exact Hwf|]. split; [reflexivity|].
    split; [symmetry; apply app_nil_r|]. split; [constructor|]. split; [reflexivity|].
    intros holder a allocator pool offset size Ha Hclaim. left. eauto.
  - cbn [valid] in Hvalid. apply andb_true_iff in Hvalid as [Hop Hrest].
    destruct (step_general op w Hwf Hop)
      as (w1 & new1 & Hstep & Hwf1 & Hdom1 & Hfrees1 & Hgood1 & Hperm1 & Htrack1).
    rewrite <- Hdom1 in Hrest.
    destruct (IH w1 Hwf1 Hrest)
      as (w' & new2 & Hrun & Hwf' & Hdom' & Hfrees' & Hgood' & Hperm' & Htrack').
    exists w', (new1 ++ new2). cbn [exec final_live final_holder].
    unfold bind. rewrite Hstep.
    split; [exact Hrun|]. split; [exact Hwf'|].
    split; [rewrite <- Hdom1; exact Hdom'|].
    split; [rewrite Hfrees', Hfrees1, app_assoc; reflexivity|].
    split; [apply Forall_app; split; assumption|].
    split; [rewrite Hperm'; exact Hperm1|].
    intros holder a allocator pool offset size Ha Hclaim.
    specialize (Htrack1 holder a allocator pool offset size Ha Hclaim).
    destruct (holder_after op holder) as [holder'|].
    + destruct Htrack1 as (a1 & Ha1 & Hclaim1).
      destruct (Htrack' holder' a1 allocator pool offset size Ha1 Hclaim1)
        as [Hheld | (a' & Hclaim' & Hin)]; [left; exact Hheld|].
      right. exists a'. split; [exact Hclaim'|]. apply elem_of_app. right. exact Hin.
    + right. exists a. split; [exact Hclaim|]. subst new1.
      apply elem_of_app. left. apply list_elem_of_singleton. reflexivity.
Qed.

(** C6: take any world in which every live [Allocation] object is either
    empty or holds a claim handed out by a live allocator (any number of
    objects may hold claims, so [a = std::move(b)] with both bound is
    covered), and in which [Allocator::Free] has not been called.  Every
    program of move constructions, move assignments and destructions that
    respects object lifetimes and ends with all [Allocation] objects
    destroyed runs without aborting, and:
    - the claims passed to [Allocator::Free] are, up to order, the claims
      held at the start, each one released once: none twice, none dropped;
    - every call is made by a destructor whose object still has its
      allocator back-reference, on that allocator: no call comes from the
      destructor of a moved-from (empty) object;
    - the claim that [holder] holds at the start is released by the
      destructor of [final_holder ops holder], the last object to hold it;
    - when [holder] is the only object with a claim, that call is the only
      call. *)
Theorem C6_single_release (w : World) (ops : list Op) :
  well_formed w ->
  frees w = [] ->
  valid ops (dom (objects w)) = true ->
  final_live ops (dom (objects w)) = ∅ ->
  exists w',
    exec ops w = Returns (tt, w') /\
    objects w' = ∅ /\
    released w' ≡ₚ pending (objects w) /\
    Forall from_holder (frees w') /\
    (forall holder a allocator pool offset size,
        objects w !! holder = Some a ->
        holds_claim allocator pool offset size a ->
        exists a',
          holds_claim allocator pool offset size a' /\
          ~ is_empty a' /\
          mkFreeCall (final_holder ops holder) allocator a' ∈ frees w' /\
          (others_empty w holder ->
           frees w' = [mkFreeCall (final_holder ops holder) allocator a'])).
Proof.
  intros Hwf Hfrees Hvalid Hfinal.
  destruct (exec_general ops w Hwf Hvalid)
    as (w' & new & Hrun & _ & Hdom & Hnew & Hgood & Hperm & Htrack).
  rewrite Hfinal in Hdom. apply dom_empty_inv_L in Hdom.
  rewrite Hfrees in Hnew. cbn [app] in Hnew.
  exists w'. split; [exact Hrun|]. split; [exact Hdom|]. split; [|split].
  - rewrite Hdom in Hperm. unfold released in Hperm at 2. rewrite Hfrees in Hperm.
    unfold pending in Hperm at 1. rewrite map_to_list_empty in Hperm.
    cbn in Hperm. rewrite app_nil_r in Hperm. exact Hperm.
  - rewrite Hnew. exact Hgood.
  - intros holder a allocator pool offset size Ha Hclaim.
    destruct (Htrack holder a allocator pool offset size Ha Hclaim)
      as [(a' & Ha' & _) | (a' & Hclaim' & Hin)].
    { rewrite Hdom, lookup_empty in Ha'. discriminate. }
    assert (Hbound' : ~ is_empty a').
    { intros [Hnone _]. destruct Hclaim' as [Hsome _]. congruence. }
    exists a'. split; [exact Hclaim'|]. split; [exact Hbound'|].
    split; [rewrite Hnew; exact Hin|].
    intros Hothers.
    assert (Hlive : allocator ∈ allocators w).
    { destruct Hclaim as [Hallocator _].
      destruct (Hwf holder a Ha) as [[Hnone _] | (allocator' & Hsome & Hlive)];
        congruence. }
    destruct (exec_bound allocator pool offset size ops w holder) as
      (w'' & Hrun' & _ & Hcase);
      [split; [exact Hlive|]; split; [eauto | exact Hothers] | exact Hvalid |].
    rewrite Hrun in Hrun'. injection Hrun' as <-.
    destruct Hcase as [[(_ & (b & Hb & _) & _) _] | (_ & b & _ & Hfrees')];
      [rewrite Hdom, lookup_empty in Hb; discriminate|].
    rewrite Hfrees in Hfrees'. cbn [app] in Hfrees'.
    rewrite <- Hnew, Hfrees' in Hin. apply list_elem_of_singleton in Hin.
    rewrite Hfrees', Hin. reflexivity.
Qed.

(** C6 at work with two claims: objects 0 and 1 both hold a view; object 0
    is assigned from object 1 (its own view is released there), the view
    moves on into object 2, and the three objects are destroyed.
    [Allocator::Free] is called twice: once for each view. *)
Lemma C6_single_release_witness :
  exists w',
    exec ReleaseScenario.program ReleaseScenario.world = Returns (tt, w') /\
    objects w' = ∅ /\
    released w' ≡ₚ pending (objects ReleaseScenario.world) /\
    Forall from_holder (frees w') /\
    (forall holder a allocator pool offset size,
        objects ReleaseScenario.world !! holder = Some a ->
        holds_claim allocator pool offset size a ->
        exists a',
          holds_claim allocator pool offset size a' /\
          ~ is_empty a' /\
          mkFreeCall (final_holder ReleaseScenario.program holder) allocator a' ∈ frees w' /\
          (others_empty ReleaseScenario.world holder ->
           frees w' = [mkFreeCall (final_holder ReleaseScenario.program holder) allocator a'])).
Proof.
  apply (C6_single_release ReleaseScenario.world ReleaseScenario.program).
  - intros id a Ha. right. exists 0%nat. split; [|vm_compute; reflexivity].
    unfold ReleaseScenario.world in Ha. cbn [objects set_objects] in Ha.
    apply lookup_insert_Some in Ha as [[_ <-] | [_ Ha]]; [reflexivity|].
    apply lookup_singleton_Some in Ha as [_ <-]. reflexivity.
  - reflexivity.
  - vm_compute. reflexivity.
  - vm_compute. reflexivity.
Defined.

(* ===================================================================== *)
(** ** Move-only owners: the native object is given back once              *)
(* ===================================================================== *)

Section MoveOnlyFacts.

Context {T E : Type}.
Variable move_ctor : T -> T * T.
Variable destructor : T -> Outcome (list E).

(** The moved-from object destroys silently; the new object destroys as the
    source would have. *)
Hypothesis moved_from_silent : forall x, destructor (snd (move_ctor x)) = Returns [].
Hypothesis moved_to_same : forall x, destructor (fst (move_ctor x)) = destructor x.

Variables (events before : list E).

Lemma construct_at_owned (this other : nat) (s : MoveOnly.Store T E) (owner : option nat) :
  owned_by destructor events before s owner ->
  other ∈ dom (MoveOnly.live s) ->
  this ∉ dom (MoveOnly.live s) ->
  exists s',
    MoveOnly.construct_at move_ctor this other s = Returns s' /\
    dom (MoveOnly.live s') = {[ this ]} ∪ dom (MoveOnly.live s) /\
    owned_by destructor events before s' (owner_after (MoveConstruct this other) owner).
Proof.
  intros [Hsilent Howner] Hother Hthis.
  apply elem_of_dom in Hother as Hother'. destruct Hother' as [x Hx].
  apply not_elem_of_dom in Hthis as Hnone.
  assert (Hne : this <> other) by congruence.
  unfold MoveOnly.construct_at. rewrite Hx, Hnone.
  pose proof (moved_from_silent x) as Hfrom. pose proof (moved_to_same x) as Hto.
  destruct (move_ctor x) as [new moved_from]. cbn [fst snd] in Hfrom, Hto.
  eexists. split; [reflexivity|]. cbn [MoveOnly.live MoveOnly.log].
  split.
  { rewrite !dom_insert_L. apply set_eq. intros z.
    rewrite !elem_of_union, !elem_of_singleton.
    split; [intros [?|[->|?]]; auto | intros [?|?]; auto]. }
  unfold owned_by. cbn [MoveOnly.live MoveOnly.log].
  destruct owner as [holder|]; cbn [owner_after holder_after].
  - destruct Howner as [(y & Hy & Hevents) Hlog].
    assert (Hth : this <> holder) by congruence.
    case_bool_decide as Hoh.
    + subst other. rewrite Hx in Hy. injection Hy as <-. split.
      * intros id z Hz Hid.
        apply lookup_insert_Some in Hz as [[<- _] | [_ Hz]]; [congruence|].
        apply lookup_insert_Some in Hz as [[_ <-] | [Hne' Hz]]; [exact Hfrom|].
        apply (Hsilent id z Hz). congruence.
      * split; [|exact Hlog]. exists new. split; [apply lookup_insert_eq | congruence].
    + split.
      * intros id z Hz Hid.
        apply lookup_insert_Some in Hz as [[_ <-] | [_ Hz]].
        { rewrite Hto. apply (Hsilent other x Hx). congruence. }
        apply lookup_insert_Some in Hz as [[_ <-] | [_ Hz]]; [exact Hfrom|].
        apply (Hsilent id z Hz Hid).
      * split; [|exact Hlog]. exists y. split; [|exact Hevents].
        rewrite !lookup_insert_ne by congruence. exact Hy.
  - split; [|exact Howner].
    intros id z Hz _.
    apply lookup_insert_Some in Hz as [[_ <-] | [_ Hz]].
    { rewrite Hto. apply (Hsilent other x Hx). discriminate. }
    apply lookup_insert_Some in Hz as [[_ <-] | [_ Hz]]; [exact Hfrom|].
    apply (Hsilent id z Hz). discriminate.
Qed.

Lemma destroy_at_owned (this : nat) (s : MoveOnly.Store T E) (owner : option nat) :
  owned_by destructor events before s owner ->
  this ∈ dom (MoveOnly.live s) ->
  exists s',
    MoveOnly.destroy_at destructor this s = Returns s' /\
    dom (MoveOnly.live s') = dom (MoveOnly.live s) ∖ {[ this ]} /\
    owned_by destructor events before s' (owner_after (Destroy this) owner).
Proof.
  intros [Hsilent Howner] Hthis.
  apply elem_of_dom in Hthis as [x Hx].
  unfold MoveOnly.destroy_at. rewrite Hx.
  destruct owner as [holder|]; cbn [owner_after holder_after].
  - destruct Howner as [(y & Hy & Hevents) Hlog].
    case_bool_decide as Hth.
    + subst this. rewrite Hx in Hy. injection Hy as <-. rewrite Hevents.
      eexists. split; [reflexivity|]. cbn [MoveOnly.live MoveOnly.log].
      split; [apply dom_delete_L|].
      unfold owned_by. cbn [MoveOnly.live MoveOnly.log]. split; [|congruence].
      intros id z Hz _. apply lookup_delete_Some in Hz as [Hne Hz].
      apply (Hsilent id z Hz). congruence.
    + rewrite (Hsilent this x Hx) by congruence.
      eexists. split; [reflexivity|]. cbn [MoveOnly.live MoveOnly.log].
      split; [apply dom_delete_L|].
      unfold owned_by. cbn [MoveOnly.live MoveOnly.log]. split.
      * intros id z Hz Hid. apply lookup_delete_Some in Hz as [_ Hz]. eauto.
      * split; [|rewrite app_nil_r; exact Hlog].
        exists y. split; [|exact Hevents].
        rewrite lookup_delete_ne by congruence. exact Hy.
  - rewrite (Hsilent this x Hx) by discriminate.
    eexists. split; [reflexivity|]. cbn [MoveOnly.live MoveOnly.log].
    split; [apply dom_delete_L|].
    unfold owned_by. cbn [MoveOnly.live MoveOnly.log]. split.
    + intros id z Hz Hid. apply lookup_delete_Some in Hz as [_ Hz]. eauto.
    + rewrite app_nil_r. exact Howner.
Qed.

Lemma owner_after_MoveAssign (this other : nat) (owner : option nat) :
  this <> other ->
  owner_after (MoveAssign this other) owner
  = owner_after (MoveConstruct this other) (owner_after (Destroy this) owner).
Proof.
  intros Hne. destruct owner as [holder|]; [|reflexivity].
  cbn [owner_after holder_after].
  rewrite (bool_decide_eq_false_2 (this = other)) by assumption.
  case_bool_decide; reflexivity.
Qed.

Lemma run_op_owned (op : Op) (s : MoveOnly.Store T E) (owner : option nat) :
  owned_by destructor events before s owner ->
  op_valid op (dom (MoveOnly.live s)) = true ->
  exists s',
    MoveOnly.run_op move_ctor destructor op s = Returns s' /\
    dom (MoveOnly.live s') = live_after op (dom (MoveOnly.live s)) /\
    owned_by destructor events before s' (owner_after op owner).
Proof.
  intros Hinv Hvalid. destruct op as [this other | this other | this];
    cbn [MoveOnly.run_op live_after].
  - apply op_valid_MoveConstruct in Hvalid as [Hother Hthis].
    apply construct_at_owned; assumption.
  - apply op_valid_MoveAssign in Hvalid as [Hthis Hother].
    unfold MoveOnly.move_assign. case_bool_decide as Hne.
    + destruct (destroy_at_owned this s owner Hinv Hthis) as (s1 & -> & Hdom1 & Hinv1).
      destruct (construct_at_owned this other s1 _ Hinv1) as (s2 & Hrun & Hdom2 & Hinv2).
      { rewrite Hdom1. apply elem_of_difference. split; [exact Hother|].
        rewrite elem_of_singleton. congruence. }
      { rewrite Hdom1. intros Hin. apply elem_of_difference in Hin as [_ Hin].
        apply Hin, elem_of_singleton. reflexivity. }
      exists s2. split; [exact Hrun|]. split.
      * rewrite Hdom2, Hdom1. apply set_eq. intros z.
        rewrite elem_of_union, elem_of_difference, !elem_of_singleton.
        split; [intros [->|[? _]]; assumption|].
        intros Hz. destruct (decide (z = this)); auto.
      * rewrite owner_after_MoveAssign by assumption. exact Hinv2.
    + assert (this = other) as <- by (destruct (decide (this = other)); [assumption | contradiction]).
      exists s. split; [reflexivity|]. split; [reflexivity|].
      destruct owner as [holder|]; [|exact Hinv].
      cbn [owner_after holder_after].
      rewrite bool_decide_eq_true_2 by reflexivity. exact Hinv.
  - apply op_valid_Destroy in Hvalid.
    apply destroy_at_owned; assumption.
Qed.

Lemma run_owned (ops : list Op) (s : MoveOnly.Store T E) (owner : option nat) :
  owned_by destructor events before s owner ->
  valid ops (dom (MoveOnly.live s)) = true ->
  exists s',
    MoveOnly.run move_ctor destructor ops s = Returns s' /\
    dom (MoveOnly.live s') = final_live ops (dom (MoveOnly.live s)) /\
    owned_by destructor events before s' (final_owner ops owner).
Proof.
  revert s owner. induction ops as [|op rest IH]; intros s owner Hinv Hvalid.
  - exists s. auto.
  - cbn [valid] in Hvalid. apply andb_true_iff in Hvalid as [Hop Hrest].
    destruct (run_op_owned op s owner Hinv Hop) as (s1 & Hstep & Hdom1 & Hinv1).
    rewrite <- Hdom1 in Hrest.
    destruct (IH s1 _ Hinv1 Hrest) as (s' & Hrun & Hdom' & Hinv').
    exists s'. cbn [MoveOnly.run final_live final_owner]. rewrite Hstep.
    split; [exact Hrun|]. split; [rewrite <- Hdom1; exact Hdom' | exact Hinv'].
Qed.

(** A program that destroys every object gives the native object back
    exactly once. *)
Lemma run_releases_once (ops : list Op) (s : MoveOnly.Store T E) (holder : nat) :
  owned_by destructor events before s (Some holder) ->
  valid ops (dom (MoveOnly.live s)) = true ->
  final_live ops (dom (MoveOnly.live s)) = ∅ ->
  MoveOnly.run move_ctor destructor ops s = Returns (MoveOnly.mkStore ∅ (before ++ events)).
Proof.
  intros Hinv Hvalid Hfinal.
  destruct (run_owned ops s _ Hinv Hvalid) as ([objs l] & Hrun & Hdom & Hsilent & Howner).
  cbn [MoveOnly.live MoveOnly.log] in *.
  rewrite Hfinal in Hdom. apply dom_empty_inv_L in Hdom. subst objs.
  rewrite Hrun. f_equal. f_equal.
  destruct (final_owner ops (Some holder)) as [h|].
  - destruct Howner as [(x & Hx & _) _]. rewrite lookup_empty in Hx. discriminate.
  - exact Howner.
Qed.

End MoveOnlyFacts.

(* ===================================================================== *)
(** ** MemoryPool: moves, destruction and the mapping cache                *)
(* ===================================================================== *)

Lemma MemoryPool_moved_from_silent (drv : Driver) (p : MemoryPool.t) :
  MemoryPool_destructor drv (snd (MemoryPool_move_ctor p)) = Returns [].
Proof. reflexivity. Qed.

Lemma MemoryPool_moved_to_same (drv : Driver) (p : MemoryPool.t) :
  MemoryPool_destructor drv (fst (MemoryPool_move_ctor p)) = MemoryPool_destructor drv p.
Proof. reflexivity. Qed.

Lemma MemoryPool_destructor_null (drv : Driver) (p : MemoryPool.t) :
  MemoryPool.mMemory p = VK_NULL_HANDLE -> MemoryPool_destructor drv p = Returns [].
Proof. unfold MemoryPool_destructor. intros ->. reflexivity. Qed.

Lemma MemoryPool_destructor_owner (drv : Driver) (p : MemoryPool.t) (device : nat) :
  MemoryPool.mMemory p <> VK_NULL_HANDLE ->
  MemoryPool.mDevice p = Some device ->
  device ∈ devices drv ->
  MemoryPool_destructor drv p = Returns [mkFreeMemory device (MemoryPool.mMemory p)].
Proof.
  intros Hmem Hdev Hlive. unfold MemoryPool_destructor.
  destruct (Z.eqb_spec (MemoryPool.mMemory p) VK_NULL_HANDLE); [contradiction|].
  cbn [negb]. rewrite Hdev. rewrite bool_decide_eq_true_2 by assumption. reflexivity.
Qed.

(** X1: a [MemoryPool] that owns a native memory object on a live device,
    among pool objects that own nothing, is moved and destroyed by any
    program of move constructions, move assignments and destructions that
    respects object lifetimes and ends with every pool object destroyed:
    the program runs without aborting and [vkFreeMemory] is called exactly
    once, with that device and that handle; moved-from pools free
    nothing. *)
Theorem X1_MemoryPool_freed_once (drv : Driver) (ops : list Op)
    (s : MoveOnly.Store MemoryPool.t FreeMemoryCall) (holder : nat)
    (p : MemoryPool.t) (device : nat) :
  MoveOnly.live s !! holder = Some p ->
  MemoryPool.mMemory p <> VK_NULL_HANDLE ->
  MemoryPool.mDevice p = Some device ->
  device ∈ devices drv ->
  (forall id q, id <> holder -> MoveOnly.live s !! id = Some q ->
                MemoryPool.mMemory q = VK_NULL_HANDLE) ->
  valid ops (dom (MoveOnly.live s)) = true ->
  final_live ops (dom (MoveOnly.live s)) = ∅ ->
  MemoryPool_run drv ops s
  = Returns (MoveOnly.mkStore ∅ (MoveOnly.log s ++ [mkFreeMemory device (MemoryPool.mMemory p)])).
Proof.
  intros Hp Hmem Hdev Hlive Hothers Hvalid Hfinal.
  apply (run_releases_once MemoryPool_move_ctor (MemoryPool_destructor drv)
           (MemoryPool_moved_from_silent drv) (MemoryPool_moved_to_same drv)
           _ _ ops s holder); [|assumption|assumption].
  split.
  - intros id q Hq Hid. apply MemoryPool_destructor_null.
    apply (Hothers id q); [congruence | exact Hq].
  - split; [|reflexivity]. exists p. split; [exact Hp|].
    apply MemoryPool_destructor_owner; assumption.
Qed.

(** X1 at work: pool 0 of the scenario (handle 7) is moved through objects
    1 and 2, back into 0 and into 1 again, and the three objects are
    destroyed: one [vkFreeMemory] of handle 7. *)
Lemma X1_MemoryPool_freed_once_witness :
  MemoryPool_run Scenario.driver Scenario.program PoolScenario.store
  = Returns (MoveOnly.mkStore ∅ [mkFreeMemory 0 7]).
Proof.
  apply (X1_MemoryPool_freed_once Scenario.driver Scenario.program PoolScenario.store
           0 (Scenario.pool 0) 0).
  - reflexivity.
  - discriminate.
  - reflexivity.
  - vm_compute. reflexivity.
  - intros id q Hid Hq. cbn in Hq.
    rewrite lookup_singleton_ne in Hq by congruence. discriminate.
  - vm_compute. reflexivity.
  - vm_compute. reflexivity.
Defined.

(** X2: the move constructor of [MemoryPool] does not carry the cached
    mapping over.  When a mapped pool is moved, the moved-from object keeps
    the old address and goes on returning it without any native call, and
    the pool that now owns the memory handle is unmapped: its next
    [GetMappedAddress] makes a new native map call for the same handle and
    returns whatever address that call produces. *)
Theorem X2_move_drops_mapping (drv : Driver) (w : World) (old new : nat) (p : MemoryPool.t)
    (address address' : Z) (physicalDevice device : nat) (memoryTypes : Z -> Z) :
  MemoryPool.mMappedAddress p = Some address ->
  pools w !! old = Some (snd (MemoryPool_move_ctor p)) ->
  pools w !! new = Some (fst (MemoryPool_move_ctor p)) ->
  MemoryPool.mPhysicalDevice p = Some physicalDevice ->
  physicalDevices drv !! physicalDevice = Some memoryTypes ->
  Z.land (memoryTypes (MemoryPool.mMemoryTypeIndex p)) VK_MEMORY_PROPERTY_HOST_VISIBLE_BIT <> 0 ->
  MemoryPool.mDevice p = Some device ->
  device ∈ devices drv ->
  map_memory drv (calls w) device (MemoryPool.mMemory p) 0 VK_WHOLE_SIZE 0
    = (VK_SUCCESS, address') ->
  MemoryPool_GetMappedAddress drv old w = Returns (address, w) /\
  exists w',
    MemoryPool_GetMappedAddress drv new w = Returns (address', w') /\
    calls w' = calls w ++ [CallMapMemory device (MemoryPool.mMemory p) 0 VK_WHOLE_SIZE 0].
Proof.
  intros Hmapped Hold Hnew Hphys Hmt Hvisible Hdev Hlive Hmap. split.
  - apply (GetMappedAddress_cached drv old w _ address Hold). exact Hmapped.
  - eexists. split.
    + apply (GetMappedAddress_first drv new w _ physicalDevice device memoryTypes address' Hnew);
        try assumption; reflexivity.
    + reflexivity.
Qed.

(** X2 at work: pool 0 of the scenario was mapped at 4096 and is then
    moved; the moved-from object 0 still answers 4096, the new object 1
    maps handle 7 again. *)
Lemma X2_move_drops_mapping_witness :
  MemoryPool_GetMappedAddress Scenario.driver 0 PoolScenario.world_after_move
    = Returns (4096, PoolScenario.world_after_move) /\
  exists w',
    MemoryPool_GetMappedAddress Scenario.driver 1 PoolScenario.world_after_move
      = Returns (4096, w') /\
    calls w' = calls PoolScenario.world_after_move ++ [CallMapMemory 0 7 0 VK_WHOLE_SIZE 0].
Proof.
  apply (X2_move_drops_mapping Scenario.driver PoolScenario.world_after_move 0 1
           PoolScenario.mapped_pool 4096 4096 0 0 Scenario.memoryTypes);
    try reflexivity.
  vm_compute. discriminate.
Defined.

(** X3: [Allocator::Free(MemoryPool&&)] calls [vkFreeMemory] for the handle
    of the pool it is given, on the device of the allocator's own pool, and
    leaves the pool object as it was, handle included; when that pool
    object is destroyed afterwards, its destructor calls [vkFreeMemory] for
    the same handle a second time. *)
Theorem X3_Free_then_destroy_frees_twice (drv : Driver) (a : ConcreteAllocator.t)
    (s : MoveOnly.Store MemoryPool.t FreeMemoryCall) (this : nat) (p : MemoryPool.t)
    (device allocatorDevice : nat) :
  MoveOnly.live s !! this = Some p ->
  MemoryPool.mMemory p <> VK_NULL_HANDLE ->
  MemoryPool.mDevice p = Some device ->
  device ∈ devices drv ->
  ConcreteAllocator.GetDevice a = Some allocatorDevice ->
  allocatorDevice ∈ devices drv ->
  let s1 := MoveOnly.mkStore (MoveOnly.live s)
              (MoveOnly.log s ++ [mkFreeMemory allocatorDevice (MemoryPool.mMemory p)]) in
  Allocator_Free_pool drv a this s = Returns s1 /\
  MoveOnly.destroy_at (MemoryPool_destructor drv) this s1
  = Returns (MoveOnly.mkStore (delete this (MoveOnly.live s))
               (MoveOnly.log s ++ [mkFreeMemory allocatorDevice (MemoryPool.mMemory p);
                                   mkFreeMemory device (MemoryPool.mMemory p)])).
Proof.
  intros Hp Hmem Hdev Hlive Hadev Halive s1. split.
  - unfold Allocator_Free_pool, ConcreteAllocator.Free. rewrite Hp, Hadev.
    rewrite bool_decide_eq_true_2 by assumption. reflexivity.
  - unfold MoveOnly.destroy_at, s1. cbn [MoveOnly.live MoveOnly.log]. rewrite Hp.
    rewrite (MemoryPool_destructor_owner drv p device Hmem Hdev Hlive).
    rewrite <- app_assoc. reflexivity.
Qed.

(** X3 at work: an allocator frees pool 0 of the scenario, which is then
    destroyed: handle 7 is freed twice. *)
Lemma X3_Free_then_destroy_frees_twice_witness :
  Allocator_Free_pool Scenario.driver PoolScenario.allocator 0 PoolScenario.store
    = Returns (MoveOnly.mkStore {[ 0%nat := Scenario.pool 0 ]} [mkFreeMemory 0 7]) /\
  MoveOnly.destroy_at (MemoryPool_destructor Scenario.driver) 0
    (MoveOnly.mkStore {[ 0%nat := Scenario.pool 0 ]} [mkFreeMemory 0 7])
    = Returns (MoveOnly.mkStore (delete 0%nat {[ 0%nat := Scenario.pool 0 ]})
                 [mkFreeMemory 0 7; mkFreeMemory 0 7]).
Proof.
  apply (X3_Free_then_destroy_frees_twice Scenario.driver PoolScenario.allocator
           PoolScenario.store 0 (Scenario.pool 0) 0 0).
  - reflexivity.
  - discriminate.
  - reflexivity.
  - vm_compute. reflexivity.
  - reflexivity.
  - vm_compute. reflexivity.
Defined.

(* ===================================================================== *)
(** ** Allocation: writes, flushes and the mapping                         *)
(* ===================================================================== *)

Lemma Allocation_Overwrite_fits (drv : Driver) (a : Allocation.t) (bytes : list byte)
    (w : World) (pool : nat) (base : Z) (wm : World) :
  buffer_size bytes <= Allocation.Size a ->
  Allocation.mRawAllocation a = Some pool ->
  MemoryPool_GetMappedAddress drv pool w = Returns (base, wm) ->
  Allocation_Overwrite drv a bytes w
  = Returns (tt, set_host (memcpy_bytes (base + Allocation.Offset a) bytes (host w)) wm).
Proof.
  intros Hfits Hraw Hmap.
  pose proof (Allocation_GetMappedAddress_Returns _ _ _ _ _ _ Hraw Hmap) as Hdst.
  destruct (GetMappedAddress_Returns _ _ _ _ _ Hmap) as (p & Hp & _).
  destruct (GetMappedAddress_effect _ _ _ _ _ _ Hp Hmap) as (_ & Hhost & _).
  unfold Allocation_Overwrite.
  rewrite (bind_Returns_eq _ _ w w tt)
    by (unfold Assert; destruct (Z.leb_spec (buffer_size bytes) (Allocation.Size a));
        [reflexivity | lia]).
  rewrite (bind_Returns_eq _ _ w wm (base + Allocation.Offset a)) by exact Hdst.
  unfold memcpy, modify. rewrite Hhost. reflexivity.
Qed.

Lemma Allocation_Memory_Returns (a : Allocation.t) (w : World) (pool : nat) (p : MemoryPool.t) :
  Allocation.mRawAllocation a = Some pool ->
  pools w !! pool = Some p ->
  Allocation_Memory a w = Returns (MemoryPool.mMemory p, w).
Proof.
  intros Hraw Hp. unfold Allocation_Memory. rewrite Hraw.
  rewrite (bind_Returns_eq _ _ w w pool) by (eapply deref_pool_Returns; eauto).
  unfold bind, this_pool. rewrite Hp. reflexivity.
Qed.

Lemma Allocation_Flush_Returns (drv : Driver) (objs : gmap nat ConcreteAllocator.t)
    (a : Allocation.t) (w : World) (pool allocator device : nat) (p : MemoryPool.t)
    (object : ConcreteAllocator.t) :
  Allocation.mRawAllocation a = Some pool ->
  pools w !! pool = Some p ->
  Allocation.mAllocator a = Some allocator ->
  allocator ∈ allocators w ->
  objs !! allocator = Some object ->
  ConcreteAllocator.GetDevice object = Some device ->
  device ∈ devices drv ->
  Allocation_Flush drv objs a w =
    if flush_ranges drv (calls w) device (MemoryPool.mMemory p)
         (Allocation.Offset a) (Allocation.Size a) =? VK_SUCCESS
    then Returns (tt, set_calls (calls w ++ [CallFlushMappedMemoryRanges device
                        (MemoryPool.mMemory p) (Allocation.Offset a) (Allocation.Size a)]) w)
    else Aborts.
Proof.
  intros Hraw Hp Hal Hlive Hobj Hdev Hdlive.
  unfold Allocation_Flush.
  rewrite (bind_Returns_eq _ _ w w (MemoryPool.mMemory p))
    by (eapply Allocation_Memory_Returns; eauto).
  rewrite (bind_Returns_eq _ _ w w (Some device)).
  2:{ unfold Allocation_allocator_device, Allocation.GetAllocator, bind, deref_allocator.
      rewrite Hal. cbn [allocator_bool]. rewrite bool_decide_eq_true_2 by assumption.
      rewrite Hobj, Hdev. reflexivity. }
  unfold bind, deref_device, vkFlushMappedMemoryRanges, AssertEQ, Assert, ret, abort.
  rewrite bool_decide_eq_true_2 by assumption.
  destruct (_ =? _); reflexivity.
Qed.

(** X4: [Allocation::Flush] makes one native flush call, for the memory
    handle of the pool and exactly the allocation's offset and size (not
    the whole pool).  After an [Overwrite] within bounds, a [Flush] of the
    same allocation therefore covers every byte that was written: byte [i]
    of the buffer sits at mapped address base + offset + i, and offset + i
    lies inside the flushed range. *)
Theorem X4_Overwrite_then_Flush (drv : Driver) (objs : gmap nat ConcreteAllocator.t)
    (a : Allocation.t) (bytes : list byte) (w : World) (pool allocator device : nat)
    (p : MemoryPool.t) (object : ConcreteAllocator.t) (base : Z) (wm : World) :
  buffer_size bytes <= Allocation.Size a ->
  Allocation.mRawAllocation a = Some pool ->
  pools w !! pool = Some p ->
  MemoryPool_GetMappedAddress drv pool w = Returns (base, wm) ->
  Allocation.mAllocator a = Some allocator ->
  allocator ∈ allocators w ->
  objs !! allocator = Some object ->
  ConcreteAllocator.GetDevice object = Some device ->
  device ∈ devices drv ->
  flush_ranges drv (calls wm) device (MemoryPool.mMemory p)
    (Allocation.Offset a) (Allocation.Size a) = VK_SUCCESS ->
  let w1 := set_host (memcpy_bytes (base + Allocation.Offset a) bytes (host w)) wm in
  let flush := CallFlushMappedMemoryRanges device (MemoryPool.mMemory p)
                 (Allocation.Offset a) (Allocation.Size a) in
  Allocation_Overwrite drv a bytes w = Returns (tt, w1) /\
  Allocation_Flush drv objs a w1 = Returns (tt, set_calls (calls wm ++ [flush]) w1) /\
  (forall (i : nat) (b : byte),
      bytes !! i = Some b ->
      host w1 !! (base + Allocation.Offset a + Z.of_nat i) = Some b /\
      Allocation.Offset a <= Allocation.Offset a + Z.of_nat i
        < Allocation.Offset a + Allocation.Size a).
Proof.
  intros Hfits Hraw Hp Hmap Hal Hlive Hobj Hdev Hdlive Hflush w1 flush.
  destruct (GetMappedAddress_effect _ _ _ _ _ _ Hp Hmap) as (Hpm & _ & _).
  assert (Hallocators : allocators wm = allocators w).
  { apply GetMappedAddress_Returns in Hmap as (q & _ & [[_ ->] | (_ & ? & ? & ? & _ & _ & _ & _ & _ & _ & ->)]);
      reflexivity. }
  split; [apply (Allocation_Overwrite_fits drv a bytes w pool base wm); assumption|]. split.
  - rewrite (Allocation_Flush_Returns drv objs a w1 pool allocator device
               (MemoryPool.set_mMappedAddress (Some base) p) object);
      try assumption.
    + change (calls w1) with (calls wm).
      change (MemoryPool.mMemory (MemoryPool.set_mMappedAddress (Some base) p))
        with (MemoryPool.mMemory p).
      rewrite Hflush. reflexivity.
    + change (allocators w1) with (allocators wm). rewrite Hallocators. exact Hlive.
  - intros i b Hi. split.
    + unfold w1. cbn. apply memcpy_bytes_inside. exact Hi.
    + apply lookup_lt_Some in Hi. unfold buffer_size in Hfits. lia.
Qed.

(** X4 at work in the scenario: the 64 bytes written through the view are
    followed by a flush of handle 7, offset 0, size 64. *)
Lemma X4_Overwrite_then_Flush_witness :
  let w1 := set_host (memcpy_bytes 4096 Scenario.pattern ∅)
              (mapped_world 0 (Scenario.pool 0) 0 4096 Scenario.world) in
  Allocation_Overwrite Scenario.driver Scenario.view Scenario.pattern Scenario.world
    = Returns (tt, w1) /\
  Allocation_Flush Scenario.driver FlushScenario.allocatorObjects Scenario.view w1
    = Returns (tt, set_calls [CallMapMemory 0 7 0 VK_WHOLE_SIZE 0;
                              CallFlushMappedMemoryRanges 0 7 0 64] w1).
Proof.
  assert (Hmap : MemoryPool_GetMappedAddress Scenario.driver 0 Scenario.world
                 = Returns (4096, mapped_world 0 (Scenario.pool 0) 0 4096 Scenario.world))
    by (vm_compute; reflexivity).
  destruct (X4_Overwrite_then_Flush Scenario.driver FlushScenario.allocatorObjects
              Scenario.view Scenario.pattern Scenario.world 0 0 0 (Scenario.pool 0)
              PoolScenario.allocator 4096
              (mapped_world 0 (Scenario.pool 0) 0 4096 Scenario.world))
    as (Hwrite & Hflush & _);
    try reflexivity; try exact Hmap; try (vm_compute; discriminate);
    try (vm_compute; reflexivity).
  intros w1. split; [exact Hwrite | exact Hflush].
Defined.

Lemma GetMappedAddress_again (drv : Driver) (pool : nat) (w : World) (base : Z) (wm : World)
    (h : gmap Z byte) :
  MemoryPool_GetMappedAddress drv pool w = Returns (base, wm) ->
  MemoryPool_GetMappedAddress drv pool (set_host h wm) = Returns (base, set_host h wm).
Proof.
  intros Hmap.
  destruct (GetMappedAddress_Returns _ _ _ _ _ Hmap) as (p & Hp & _).
  destruct (GetMappedAddress_effect _ _ _ _ _ _ Hp Hmap) as (Hpm & _ & _).
  apply (GetMappedAddress_cached drv pool (set_host h wm)
           (MemoryPool.set_mMappedAddress (Some base) p) base); [exact Hpm | reflexivity].
Qed.

(** X5: two allocations of one pool whose ranges [offset, offset + size) do
    not overlap can be written one after the other, each within its own
    size: both calls return, and afterwards the mapped memory holds the
    first buffer at base + offset of the first allocation and the second
    buffer at base + offset of the second; the second write does not
    disturb the first. *)
Theorem X5_disjoint_writes (drv : Driver) (a b : Allocation.t) (bytesA bytesB : list byte)
    (w : World) (pool : nat) (base : Z) (wm : World) :
  Allocation.mRawAllocation a = Some pool ->
  Allocation.mRawAllocation b = Some pool ->
  buffer_size bytesA <= Allocation.Size a ->
  buffer_size bytesB <= Allocation.Size b ->
  Allocation.Offset a + Allocation.Size a <= Allocation.Offset b \/
  Allocation.Offset b + Allocation.Size b <= Allocation.Offset a ->
  MemoryPool_GetMappedAddress drv pool w = Returns (base, wm) ->
  exists w1 w2,
    Allocation_Overwrite drv a bytesA w = Returns (tt, w1) /\
    Allocation_Overwrite drv b bytesB w1 = Returns (tt, w2) /\
    calls w2 = calls wm /\
    (forall (i : nat) (x : byte),
        bytesA !! i = Some x ->
        host w2 !! (base + Allocation.Offset a + Z.of_nat i) = Some x) /\
    (forall (j : nat) (y : byte),
        bytesB !! j = Some y ->
        host w2 !! (base + Allocation.Offset b + Z.of_nat j) = Some y).
Proof.
  intros HrawA HrawB HfitsA HfitsB Hdisjoint Hmap.
  pose proof (Allocation_Overwrite_fits drv a bytesA w pool base wm HfitsA HrawA Hmap) as HrunA.
  set (w1 := set_host (memcpy_bytes (base + Allocation.Offset a) bytesA (host w)) wm) in *.
  pose proof (GetMappedAddress_again drv pool w base wm
                (memcpy_bytes (base + Allocation.Offset a) bytesA (host w)) Hmap) as Hmap1.
  fold w1 in Hmap1.
  pose proof (Allocation_Overwrite_fits drv b bytesB w1 pool base w1 HfitsB HrawB Hmap1) as HrunB.
  eexists w1, _. split; [exact HrunA|]. split; [exact HrunB|].
  split; [reflexivity|]. cbn [host set_host]. split.
  - intros i x Hi.
    rewrite memcpy_bytes_outside.
    + unfold w1. cbn. apply memcpy_bytes_inside. exact Hi.
    + apply lookup_lt_Some in Hi. unfold buffer_size in *. lia.
  - intros j y Hj. apply memcpy_bytes_inside. exact Hj.
Qed.

(** X5 at work in the scenario: pattern [0x11] into bytes [0, 16) and
    pattern [0x22] into bytes [16, 32) of pool 0; byte 15 and byte 16 read
    back as written. *)
Lemma X5_disjoint_writes_witness :
  exists w1 w2,
    Allocation_Overwrite Scenario.driver FlushScenario.viewA FlushScenario.patternA
      Scenario.world = Returns (tt, w1) /\
    Allocation_Overwrite Scenario.driver FlushScenario.viewB FlushScenario.patternB w1
      = Returns (tt, w2) /\
    host w2 !! (4096 + 15) = Some x11 /\
    host w2 !! (4096 + 16) = Some x22.
Proof.
  assert (Hmap : MemoryPool_GetMappedAddress Scenario.driver 0 Scenario.world
                 = Returns (4096, mapped_world 0 (Scenario.pool 0) 0 4096 Scenario.world))
    by (vm_compute; reflexivity).
  destruct (X5_disjoint_writes Scenario.driver FlushScenario.viewA FlushScenario.viewB
              FlushScenario.patternA FlushScenario.patternB Scenario.world 0 4096
              (mapped_world 0 (Scenario.pool 0) 0 4096 Scenario.world)
              eq_refl eq_refl) as (w1 & w2 & HA & HB & _ & HreadA & HreadB);
    [vm_compute; discriminate | vm_compute; discriminate | left; vm_compute; discriminate
    | exact Hmap |].
  exists w1, w2. split; [exact HA|]. split; [exact HB|]. split.
  - apply (HreadA 15%nat x11). reflexivity.
  - apply (HreadB 0%nat x22). reflexivity.
Defined.

(** X6: while a pool of a memory type without the host-visible property
    has no cached mapping, nothing can be written to it: for every buffer,
    [MemoryPool::Overwrite] on the pool and [Allocation::Overwrite] and
    [Allocation::GetMappedAddress] on every allocation of it abort. *)
Theorem X6_not_host_visible_aborts (drv : Driver) (w : World) (pool : nat) (p : MemoryPool.t)
    (flags : Z) (a : Allocation.t) (bytes : list byte) :
  pools w !! pool = Some p ->
  MemoryPool.mMappedAddress p = None ->
  MemoryPool_Properties drv pool w = Returns (flags, w) ->
  Z.land flags VK_MEMORY_PROPERTY_HOST_VISIBLE_BIT = 0 ->
  Allocation.mRawAllocation a = Some pool ->
  MemoryPool_Overwrite drv pool bytes w = Aborts /\
  Allocation_GetMappedAddress drv a w = Aborts /\
  Allocation_Overwrite drv a bytes w = Aborts.
Proof.
  intros Hp Hnone Hprops Hinvisible Hraw.
  pose proof (GetMappedAddress_not_visible drv pool w p flags Hp Hnone Hprops Hinvisible) as Hmap.
  assert (Hdst : Allocation_GetMappedAddress drv a w = Aborts).
  { unfold Allocation_GetMappedAddress. rewrite Hraw.
    rewrite (bind_Returns_eq _ _ w w pool) by (eapply deref_pool_Returns; eauto).
    apply bind_Aborts. exact Hmap. }
  split; [|split; [exact Hdst|]].
  - unfold MemoryPool_Overwrite.
    rewrite (bind_Returns_eq _ _ w w p) by (unfold this_pool; now rewrite Hp).
    unfold bind at 1. unfold Assert.
    destruct (buffer_size bytes <=? MemoryPool.Size p); [|reflexivity].
    cbn. apply bind_Aborts. exact Hmap.
  - unfold Allocation_Overwrite. unfold bind at 1. unfold Assert.
    destruct (buffer_size bytes <=? Allocation.Size a); [|reflexivity].
    cbn. apply bind_Aborts. exact Hdst.
Qed.

(** X6 at work: pool 2 of the scenario is device-local only. *)
Lemma X6_not_host_visible_aborts_witness :
  MemoryPool_Overwrite Scenario.driver 2 [x01] Scenario.world = Aborts /\
  Allocation_GetMappedAddress Scenario.driver (Allocation.ctor 0 2 0 64) Scenario.world = Aborts /\
  Allocation_Overwrite Scenario.driver (Allocation.ctor 0 2 0 64) [x01] Scenario.world = Aborts.
Proof.
  apply (X6_not_host_visible_aborts Scenario.driver Scenario.world 2 (Scenario.pool 2)
           VK_MEMORY_PROPERTY_DEVICE_LOCAL_BIT (Allocation.ctor 0 2 0 64) [x01]);
    reflexivity.
Defined.

(** X7: once one [Allocation::Overwrite] on a pool has returned, the pool
    is mapped for good: every later [Allocation::Overwrite] within bounds,
    through any allocation of the same pool, returns and makes no native
    call at all (no second map, no flush), and the pool objects are left as
    they were. *)
Theorem X7_mapped_once (drv : Driver) (a b : Allocation.t) (bytes bytes' : list byte)
    (w w1 : World) :
  Allocation_Overwrite drv a bytes w = Returns (tt, w1) ->
  Allocation.mRawAllocation b = Allocation.mRawAllocation a ->
  buffer_size bytes' <= Allocation.Size b ->
  exists w2,
    Allocation_Overwrite drv b bytes' w1 = Returns (tt, w2) /\
    calls w2 = calls w1 /\
    pools w2 = pools w1 /\
    (count_calls is_map (calls w1) <= S (count_calls is_map (calls w)))%nat.
Proof.
  intros Hfirst Hsame Hfits.
  apply Allocation_Overwrite_Returns in Hfirst as (_ & pool & base & wm & Hraw & Hmap & ->).
  pose proof (GetMappedAddress_again drv pool w base wm
                (memcpy_bytes (base + Allocation.Offset a) bytes (host wm)) Hmap) as Hmap1.
  rewrite Hraw in Hsame.
  eexists. split; [apply (Allocation_Overwrite_fits drv b bytes' _ pool base _ Hfits Hsame Hmap1)|].
  split; [reflexivity|]. split; [reflexivity|].
  cbn [calls set_host].
  apply GetMappedAddress_Returns in Hmap
    as (p & Hp & [[_ ->] | (_ & ? & ? & ? & _ & _ & _ & _ & _ & _ & ->)]).
  - lia.
  - cbn [mapped_world set_pools set_calls calls]. rewrite count_calls_app. cbn. lia.
Qed.

(** X7 at work in the scenario: after the 64-byte write through the view,
    a 16-byte write through another view of pool 0 adds no native call. *)
Lemma X7_mapped_once_witness :
  exists w2,
    Allocation_Overwrite Scenario.driver FlushScenario.viewB FlushScenario.patternB
      (set_host (memcpy_bytes 4096 Scenario.pattern ∅)
         (mapped_world 0 (Scenario.pool 0) 0 4096 Scenario.world))
      = Returns (tt, w2) /\
    calls w2 = [CallMapMemory 0 7 0 VK_WHOLE_SIZE 0].
Proof.
  destruct (X7_mapped_once Scenario.driver Scenario.view FlushScenario.viewB
              Scenario.pattern FlushScenario.patternB Scenario.world
              (set_host (memcpy_bytes 4096 Scenario.pattern ∅)
                 (mapped_world 0 (Scenario.pool 0) 0 4096 Scenario.world)))
    as (w2 & Hrun & Hcalls & _).
  - vm_compute. reflexivity.
  - reflexivity.
  - vm_compute. discriminate.
  - exists w2. split; [exact Hrun | exact Hcalls].
Defined.

(* ===================================================================== *)
(** ** Allocation: more on moves and destruction                           *)
(* ===================================================================== *)

(** X8: move assignment [target = std::move(source)] between two different
    [Allocation] objects first releases what the target holds and then
    hands the source's claim over.  When the target holds a claim of a live
    allocator, [Allocator::Free] is called exactly once, for the target's
    old claim; when the target is empty, [Allocator::Free] is not called.
    In both cases the target ends up with the source's back-references,
    offset and size, and the source ends up empty. *)
Theorem X8_move_assign (w : World) (target source : nat) (a b : Allocation.t) :
  target <> source ->
  objects w !! target = Some a ->
  objects w !! source = Some b ->
  let after :=
    <[target := fst (Allocation.move_ctor b)]>
      (<[source := snd (Allocation.move_ctor b)]> (delete target (objects w))) in
  (forall allocator,
      Allocation.mAllocator a = Some allocator ->
      allocator ∈ allocators w ->
      Allocation_move_assign target source w
      = Returns (tt, set_objects after
                       (set_frees (frees w ++ [mkFreeCall target allocator a]) w))) /\
  (is_empty a ->
   Allocation_move_assign target source w = Returns (tt, set_objects after w)) /\
  (exists t, after !! target = Some t /\
             Allocation.mAllocator t = Allocation.mAllocator b /\
             Allocation.mRawAllocation t = Allocation.mRawAllocation b /\
             Allocation.Offset t = Allocation.Offset b /\
             Allocation.Size t = Allocation.Size b) /\
  (exists s, after !! source = Some s /\ is_empty s).
Proof.
  intros Hne Ha Hb after. split; [|split; [|split]].
  - intros allocator Hallocator Hlive.
    pose proof (destructor_of_bound target allocator a w Ha Hallocator Hlive) as Hdestroy.
    rewrite (move_assign_other _ _ _ _ Hne Hdestroy).
    rewrite (move_ctor_Returns target source b); [reflexivity | |];
      cbn [objects set_objects set_frees].
    + rewrite lookup_delete_ne by assumption. exact Hb.
    + apply lookup_delete_eq.
  - intros Hempty.
    pose proof (destructor_of_empty target a w Ha Hempty) as Hdestroy.
    rewrite (move_assign_other _ _ _ _ Hne Hdestroy).
    rewrite (move_ctor_Returns target source b); [reflexivity | |];
      cbn [objects set_objects].
    + rewrite lookup_delete_ne by assumption. exact Hb.
    + apply lookup_delete_eq.
  - eexists. split; [apply lookup_insert_eq|]. repeat split.
  - eexists. split.
    + unfold after. rewrite lookup_insert_ne by assumption. apply lookup_insert_eq.
    + apply moved_from_is_empty.
Qed.

(** X8 at work: object 0 holds the view of pool 0, object 1 a view of pool
    1; after [object0 = std::move(object1)] the allocator has been told
    once to free the view of pool 0, object 0 holds the view of pool 1 and
    object 1 is empty. *)
Lemma X8_move_assign_witness :
  Allocation_move_assign 0 1 FlushScenario.world_two_claims
  = Returns (tt, set_objects
                   (<[0%nat := fst (Allocation.move_ctor (Allocation.ctor 0 1 32 8))]>
                      (<[1%nat := snd (Allocation.move_ctor (Allocation.ctor 0 1 32 8))]>
                         (delete 0%nat (objects FlushScenario.world_two_claims))))
                   (set_frees [mkFreeCall 0 0 Scenario.view] FlushScenario.world_two_claims)).
Proof.
  assert (Hne : 0%nat <> 1%nat) by discriminate.
  apply (proj1 (X8_move_assign FlushScenario.world_two_claims 0 1 Scenario.view
                  (Allocation.ctor 0 1 32 8) Hne eq_refl eq_refl) 0%nat eq_refl).
  vm_compute. reflexivity.
Defined.

(** X9: in a world where one object holds a claim of a live allocator,
    every other [Allocation] object is empty and [Allocator::Free] has not
    been called, every program that respects object lifetimes, whether or
    not it destroys everything, runs without aborting and ends in one of two
    states: either some object still holds the claim and [Allocator::Free]
    has still not been called, or every remaining object is empty and
    [Allocator::Free] has been called exactly once, by the last holder.  So
    the claim is never released twice and never while it is still held. *)
Theorem X9_release_neither_early_nor_twice (allocator pool : nat) (offset size : Z)
    (w : World) (holder : nat) (ops : list Op) :
  bound_at allocator pool offset size w holder ->
  frees w = [] ->
  valid ops (dom (objects w)) = true ->
  exists w',
    exec ops w = Returns (tt, w') /\
    ((frees w' = [] /\
      bound_at allocator pool offset size w' (final_holder ops holder)) \/
     (all_empty w' /\
      exists released,
        holds_claim allocator pool offset size released /\
        frees w' = [mkFreeCall (final_holder ops holder) allocator released])).
Proof.
  intros Hbound Hfrees Hvalid.
  destruct (exec_bound allocator pool offset size ops w holder Hbound Hvalid)
    as (w' & Hrun & _ & [[Hbound' Hfrees'] | (Hempty & released & Hclaim & Hfrees')]).
  - exists w'. split; [exact Hrun|]. left. split; [congruence | exact Hbound'].
  - exists w'. split; [exact Hrun|]. right. split; [exact Hempty|].
    exists released. split; [exact Hclaim|]. rewrite Hfrees', Hfrees. reflexivity.
Qed.

(** X9 at work: after the two move constructions of the scenario's program
    nothing has been freed; after the whole program object 1 has made the
    one call. *)
Lemma X9_release_neither_early_nor_twice_witness :
  (exists w', exec [MoveConstruct 1 0; MoveConstruct 2 1] Scenario.world_with_view
              = Returns (tt, w') /\ frees w' = []) /\
  (exists w', exec Scenario.program Scenario.world_with_view = Returns (tt, w') /\
              frees w' = [mkFreeCall 1 0 Scenario.view]).
Proof.
  assert (Hbound : bound_at 0 0 0 64 Scenario.world_with_view 0).
  { split; [|split].
    - vm_compute. reflexivity.
    - exists Scenario.view. split; [reflexivity|]. repeat split.
    - intros id b Hid Hb. cbn in Hb.
      rewrite lookup_singleton_ne in Hb by congruence. discriminate. }
  split.
  - destruct (X9_release_neither_early_nor_twice 0 0 0 64 Scenario.world_with_view 0
                [MoveConstruct 1 0; MoveConstruct 2 1] Hbound eq_refl)
      as (w' & Hrun & Hcase); [vm_compute; reflexivity|].
    exists w'. split; [exact Hrun|].
    assert (Hw' : frees w' = []).
    { vm_compute in Hrun. injection Hrun as <-. reflexivity. }
    exact Hw'.
  - destruct (X9_release_neither_early_nor_twice 0 0 0 64 Scenario.world_with_view 0
                Scenario.program Hbound eq_refl)
      as (w' & Hrun & Hcase); [vm_compute; reflexivity|].
    exists w'. split; [exact Hrun|].
    vm_compute in Hrun. injection Hrun as <-. reflexivity.
Defined.

(** X10: the destructor of an [Allocation] whose allocator has been
    destroyed never calls [Allocator::Free].  When the pool it views is
    still alive, the destructor stops at its assertion
    [AssertImplication(!mAllocator, !mRawAllocation)]; when the pool
    reference is null or the pool is gone as well, the destructor returns
    without any call. *)
Theorem X10_destructor_after_allocator (w : World) (this allocator : nat) (a : Allocation.t) :
  objects w !! this = Some a ->
  Allocation.mAllocator a = Some allocator ->
  allocator ∉ allocators w ->
  (pool_bool w (Allocation.mRawAllocation a) = true ->
   Allocation_destructor this w = Aborts) /\
  (pool_bool w (Allocation.mRawAllocation a) = false ->
   Allocation_destructor this w = Returns (tt, set_objects (delete this (objects w)) w)).
Proof.
  intros Ha Hallocator Hdead.
  assert (Hbool : allocator_bool w (Allocation.mAllocator a) = false).
  { rewrite Hallocator. cbn. apply bool_decide_eq_false_2. exact Hdead. }
  unfold Allocation_destructor, bind, this_object, get_world, AssertImplication, Assert,
    end_lifetime, modify, ret, abort.
  rewrite Ha, Hbool. cbn [negb implb].
  split; intros ->; reflexivity.
Qed.

(** X10 at work: with the allocator of the scenario destroyed and pool 0
    alive, destroying the object that holds the view aborts. *)
Lemma X10_destructor_after_allocator_witness :
  Allocation_destructor 0 FlushScenario.world_without_allocator = Aborts.
Proof.
  apply (proj1 (X10_destructor_after_allocator FlushScenario.world_without_allocator 0 0
                  Scenario.view eq_refl eq_refl (not_elem_of_empty 0%nat))).
  reflexivity.
Defined.

(* ===================================================================== *)
(** ** Pipeline.cpp: vertex input descriptions                             *)
(* ===================================================================== *)

Lemma indexed_loop_imap {A B : Type} (l : list A) (g : nat -> A -> B) (none : B) :
  (fun i : nat => match l !! i with Some x => g i x | None => none end) <$> seq 0 (length l)
  = imap g l.
Proof.
  apply list_eq. intros i.
  rewrite list_lookup_fmap, list_lookup_imap.
  destruct (l !! i) as [x|] eqn:Hx.
  - rewrite lookup_seq_lt by (eapply lookup_lt_Some; eauto). cbn. rewrite Hx. reflexivity.
  - rewrite lookup_seq_ge by (apply lookup_ge_None; exact Hx). reflexivity.
Qed.

Lemma join_imap_singleton {A B : Type} (l : list A) (f : nat -> A -> B) :
  mjoin (imap (fun i x => [f i x]) l) = imap f l.
Proof.
  revert f. induction l as [|x l IH]; intros f; [reflexivity|].
  rewrite !imap_cons. cbn. f_equal. apply (IH (f ∘ S)).
Qed.

Lemma Size_small (d : VertexInputDescription.t) :
  Z.of_nat (length (VertexInputDescription.mBindings d)) < 2 ^ 32 ->
  Z.to_nat (VertexInputDescription.Size d) = length (VertexInputDescription.mBindings d).
Proof.
  intros Hsmall. unfold VertexInputDescription.Size, uint32.
  rewrite Z.mod_small by lia. apply Nat2Z.id.
Qed.

Lemma GetBindingDescriptions_imap (d : VertexInputDescription.t) :
  Z.of_nat (length (VertexInputDescription.mBindings d)) < 2 ^ 32 ->
  VertexInputDescription.GetBindingDescriptions d
  = imap (fun i b => VertexInputDescription.mkBindingDescription (Z.of_nat i)
                       (VertexInputDescription.mStride b)
                       (VertexInputDescription.mInputRate b))
         (VertexInputDescription.mBindings d).
Proof.
  intros Hsmall. unfold VertexInputDescription.GetBindingDescriptions.
  rewrite (Size_small d Hsmall), indexed_loop_imap. apply join_imap_singleton.
Qed.

(** X11: for a description with fewer than 2^32 bindings,
    [GetBindingDescriptions] returns exactly one description per binding,
    in order; the description at position [i] carries the binding number
    [i] and the stride and input rate of the binding at position [i]. *)
Theorem X11_GetBindingDescriptions (d : VertexInputDescription.t) :
  Z.of_nat (length (VertexInputDescription.mBindings d)) < 2 ^ 32 ->
  length (VertexInputDescription.GetBindingDescriptions d)
    = length (VertexInputDescription.mBindings d) /\
  forall i : nat,
    VertexInputDescription.GetBindingDescriptions d !! i
    = (fun b => VertexInputDescription.mkBindingDescription (Z.of_nat i)
                  (VertexInputDescription.mStride b) (VertexInputDescription.mInputRate b))
        <$> VertexInputDescription.mBindings d !! i.
Proof.
  intros Hsmall. rewrite (GetBindingDescriptions_imap d Hsmall). split.
  - apply length_imap.
  - intros i. apply list_lookup_imap.
Qed.

Lemma X11_GetBindingDescriptions_witness :
  VertexInputDescription.GetBindingDescriptions PipelineScenario.description
  = [VertexInputDescription.mkBindingDescription 0 20 0;
     VertexInputDescription.mkBindingDescription 1 8 1] /\
  VertexInputDescription.GetBindingDescriptions PipelineScenario.description !! 1%nat
  = Some (VertexInputDescription.mkBindingDescription 1 8 1).
Proof.
  split; [reflexivity|].
  assert (Hsmall : Z.of_nat (length (VertexInputDescription.mBindings
                                        PipelineScenario.description)) < 2 ^ 32)
    by (vm_compute; reflexivity).
  rewrite (proj2 (X11_GetBindingDescriptions PipelineScenario.description Hsmall) 1%nat).
  reflexivity.
Defined.

Lemma attribute_loop_drop (fuel : nat) (bindingIndex : Z)
    (binding : VertexInputDescription.Binding) (k : nat)
    (attributes : list VertexInputDescription.VkVertexInputAttributeDescription) :
  Z.of_nat (length (VertexInputDescription.mAttributes binding)) < 2 ^ 32 ->
  (k <= length (VertexInputDescription.mAttributes binding))%nat ->
  (length (VertexInputDescription.mAttributes binding) - k < fuel)%nat ->
  VertexInputDescription.attribute_loop fuel bindingIndex binding (Z.of_nat k) attributes
  = Some (attributes
          ++ (VertexInputDescription.describe bindingIndex
                <$> drop k (VertexInputDescription.mAttributes binding))).
Proof.
  intros Hsmall. revert k attributes.
  induction fuel as [|fuel IH]; intros k attributes Hk Hfuel; [lia|].
  cbn [VertexInputDescription.attribute_loop].
  destruct (Z.ltb_spec (Z.of_nat k)
              (Z.of_nat (length (VertexInputDescription.mAttributes binding)))) as [Hlt | Hge].
  - rewrite Nat2Z.id.
    destruct (VertexInputDescription.mAttributes binding !! k) as [attribute|] eqn:Hattribute.
    + replace (uint32 (Z.of_nat k + 1)) with (Z.of_nat (S k))
        by (unfold uint32; rewrite Z.mod_small; lia).
      rewrite IH by lia.
      rewrite (drop_S _ _ _ Hattribute), fmap_cons, <- app_assoc. reflexivity.
    + apply lookup_ge_None in Hattribute. lia.
  - rewrite drop_ge by lia. rewrite fmap_nil, app_nil_r. reflexivity.
Qed.

(** With 2^32 attributes or more, the counter of the inner loop stays below
    the size for ever: whatever the fuel, the loop does not return. *)
Lemma attribute_loop_never_ends (fuel : nat) (bindingIndex : Z)
    (binding : VertexInputDescription.Binding) (attributeIndex : Z)
    (attributes : list VertexInputDescription.VkVertexInputAttributeDescription) :
  2 ^ 32 <= Z.of_nat (length (VertexInputDescription.mAttributes binding)) ->
  0 <= attributeIndex < 2 ^ 32 ->
  VertexInputDescription.attribute_loop fuel bindingIndex binding attributeIndex attributes
  = None.
Proof.
  intros Hlarge. revert attributeIndex attributes.
  induction fuel as [|fuel IH]; intros attributeIndex attributes Hrange; [reflexivity|].
  cbn [VertexInputDescription.attribute_loop].
  destruct (Z.ltb_spec attributeIndex
              (Z.of_nat (length (VertexInputDescription.mAttributes binding)))) as [_ | Hge];
    [|lia].
  destruct (VertexInputDescription.mAttributes binding !! Z.to_nat attributeIndex);
    [|reflexivity].
  apply IH. unfold uint32. apply Z.mod_pos_bound. lia.
Qed.

Lemma attributes_foldl_None (fuel : nat) (d : VertexInputDescription.t) (indices : list nat) :
  foldl (fun (attributes : option (list VertexInputDescription.VkVertexInputAttributeDescription))
             (bindingIndex : nat) =>
           match attributes, VertexInputDescription.mBindings d !! bindingIndex with
           | Some attributes, Some binding =>
               VertexInputDescription.attribute_loop fuel (Z.of_nat bindingIndex) binding 0
                 attributes
           | _, _ => None
           end) None indices = None.
Proof. induction indices as [|i indices IH]; [reflexivity | exact IH]. Qed.

(** [GetAttributeDescriptions] does not return when a binding it reaches
    has 2^32 attributes or more. *)
Lemma GetAttributeDescriptions_never_ends (fuel : nat) (d : VertexInputDescription.t)
    (i : nat) (binding : VertexInputDescription.Binding) :
  Z.of_nat i < VertexInputDescription.Size d ->
  VertexInputDescription.mBindings d !! i = Some binding ->
  2 ^ 32 <= Z.of_nat (length (VertexInputDescription.mAttributes binding)) ->
  VertexInputDescription.GetAttributeDescriptions fuel d = None.
Proof.
  intros Hi Hbinding Hlarge. unfold VertexInputDescription.GetAttributeDescriptions.
  replace (Z.to_nat (VertexInputDescription.Size d))
    with (i + S (Z.to_nat (VertexInputDescription.Size d) - S i))%nat by lia.
  rewrite seq_app, foldl_app. cbn [seq foldl Nat.add]. rewrite Hbinding.
  match goal with
  | |- foldl _ (match ?prefix with _ => _ end) _ = _ => destruct prefix
  end.
  - rewrite attribute_loop_never_ends by (try exact Hlarge; lia).
    apply attributes_foldl_None.
  - apply attributes_foldl_None.
Qed.

Lemma attributes_foldl_take (fuel : nat) (d : VertexInputDescription.t) (n : nat) :
  Forall (fun binding =>
            Z.of_nat (length (VertexInputDescription.mAttributes binding)) < 2 ^ 32 /\
            (length (VertexInputDescription.mAttributes binding) < fuel)%nat)
         (VertexInputDescription.mBindings d) ->
  (n <= length (VertexInputDescription.mBindings d))%nat ->
  foldl (fun (attributes : option (list VertexInputDescription.VkVertexInputAttributeDescription))
             (bindingIndex : nat) =>
           match attributes, VertexInputDescription.mBindings d !! bindingIndex with
           | Some attributes, Some binding =>
               VertexInputDescription.attribute_loop fuel (Z.of_nat bindingIndex) binding 0
                 attributes
           | _, _ => None
           end) (Some []) (seq 0 n)
  = Some (mjoin (imap (fun i b =>
                         VertexInputDescription.describe (Z.of_nat i)
                           <$> VertexInputDescription.mAttributes b)
                      (take n (VertexInputDescription.mBindings d)))).
Proof.
  intros Hall. induction n as [|n IH]; intros Hn; [reflexivity|].
  destruct (lookup_lt_is_Some_2 (VertexInputDescription.mBindings d) n) as [binding Hbinding];
    [lia|].
  rewrite seq_S, foldl_app, IH by lia. cbn [foldl Nat.add]. rewrite Hbinding.
  pose proof (proj1 (Forall_lookup _ _) Hall n binding Hbinding) as [Hsmall Hfuel].
  rewrite (attribute_loop_drop fuel (Z.of_nat n) binding 0 _ Hsmall) by lia.
  rewrite drop_0, (take_S_r _ _ _ Hbinding), imap_app, join_app.
  cbn [imap mjoin list_join]. rewrite app_nil_r, length_take_le, Nat.add_0_r by lia.
  reflexivity.
Qed.

Lemma GetAttributeDescriptions_imap (fuel : nat) (d : VertexInputDescription.t) :
  Z.of_nat (length (VertexInputDescription.mBindings d)) < 2 ^ 32 ->
  Forall (fun binding =>
            Z.of_nat (length (VertexInputDescription.mAttributes binding)) < 2 ^ 32 /\
            (length (VertexInputDescription.mAttributes binding) < fuel)%nat)
         (VertexInputDescription.mBindings d) ->
  VertexInputDescription.GetAttributeDescriptions fuel d
  = Some (mjoin (imap (fun i b =>
                         VertexInputDescription.describe (Z.of_nat i)
                           <$> VertexInputDescription.mAttributes b)
                      (VertexInputDescription.mBindings d))).
Proof.
  intros Hsmall Hall. unfold VertexInputDescription.GetAttributeDescriptions.
  rewrite (Size_small d Hsmall), (attributes_foldl_take fuel d _ Hall) by lia.
  rewrite firstn_all. reflexivity.
Qed.

(** X12: take a description with fewer than 2^32 bindings in which every
    binding has fewer than 2^32 attributes, and fewer than the fuel given
    to each run of the inner loop.  Then [GetAttributeDescriptions]
    returns, and returns exactly the attributes of all bindings: a
    description is in the result if and only if it is the location, format
    and offset of some attribute of the binding at some position [i],
    together with the binding number [i].  Every attribute description
    therefore names a binding for which [GetBindingDescriptions] has a
    description, and there are as many attribute descriptions as
    attributes. *)
Theorem X12_GetAttributeDescriptions (fuel : nat) (d : VertexInputDescription.t) :
  Z.of_nat (length (VertexInputDescription.mBindings d)) < 2 ^ 32 ->
  Forall (fun binding =>
            Z.of_nat (length (VertexInputDescription.mAttributes binding)) < 2 ^ 32 /\
            (length (VertexInputDescription.mAttributes binding) < fuel)%nat)
         (VertexInputDescription.mBindings d) ->
  exists attributes,
    VertexInputDescription.GetAttributeDescriptions fuel d = Some attributes /\
    (forall x,
        x ∈ attributes <->
        exists (i : nat) b a,
          VertexInputDescription.mBindings d !! i = Some b /\
          a ∈ VertexInputDescription.mAttributes b /\
          x = VertexInputDescription.mkAttributeDescription
                (VertexInputDescription.mLocation a) (Z.of_nat i)
                (VertexInputDescription.mFormat a) (VertexInputDescription.mOffset a)) /\
    (forall x,
        x ∈ attributes ->
        exists y,
          y ∈ VertexInputDescription.GetBindingDescriptions d /\
          VertexInputDescription.bd_binding y = VertexInputDescription.ad_binding x) /\
    length attributes
    = sum_list ((fun b => length (VertexInputDescription.mAttributes b))
                  <$> VertexInputDescription.mBindings d).
Proof.
  intros Hsmall Hall.
  eexists. split; [apply (GetAttributeDescriptions_imap fuel d Hsmall Hall)|].
  match goal with |- (forall x, x ∈ ?l <-> _) /\ _ => set (attributes := l) end.
  assert (Hmem : forall x,
      x ∈ attributes <->
      exists (i : nat) b a,
        VertexInputDescription.mBindings d !! i = Some b /\
        a ∈ VertexInputDescription.mAttributes b /\
        x = VertexInputDescription.mkAttributeDescription
              (VertexInputDescription.mLocation a) (Z.of_nat i)
              (VertexInputDescription.mFormat a) (VertexInputDescription.mOffset a)).
  { intros x. unfold attributes. rewrite list_elem_of_join. split.
    - intros (group & Hx & Hgroup).
      apply elem_of_lookup_imap in Hgroup as (i & b & -> & Hb).
      apply list_elem_of_fmap in Hx as (a & -> & Ha). eauto 10.
    - intros (i & b & a & Hb & Ha & ->).
      exists (VertexInputDescription.describe (Z.of_nat i)
                <$> VertexInputDescription.mAttributes b).
      split.
      + apply list_elem_of_fmap. exists a. split; [reflexivity | exact Ha].
      + apply elem_of_lookup_imap. exists i, b. split; [reflexivity | exact Hb].
  }
  split; [exact Hmem|]. split.
  - intros x Hx. apply Hmem in Hx as (i & b & a & Hb & _ & ->).
    eexists. split.
    + rewrite (GetBindingDescriptions_imap d Hsmall).
      apply elem_of_lookup_imap. exists i, b. split; [reflexivity | exact Hb].
    + reflexivity.
  - unfold attributes. rewrite length_join, fmap_imap.
    f_equal. rewrite <- imap_const. apply imap_ext. intros i b _. cbn.
    apply length_fmap.
Qed.

(** X12 at work on the description of the scenario, with fuel 3: the two
    attributes of binding 0 and the attribute of binding 1. *)
Lemma X12_GetAttributeDescriptions_witness :
  VertexInputDescription.GetAttributeDescriptions 3 PipelineScenario.description
  = Some [VertexInputDescription.mkAttributeDescription 0 0 106 0;
          VertexInputDescription.mkAttributeDescription 1 0 37 12;
          VertexInputDescription.mkAttributeDescription 2 1 103 0] /\
  exists attributes,
    VertexInputDescription.GetAttributeDescriptions 3 PipelineScenario.description
    = Some attributes /\
    VertexInputDescription.mkAttributeDescription 2 1 103 0 ∈ attributes /\
    length attributes = 3%nat.
Proof.
  split; [reflexivity|].
  assert (Hsmall : Z.of_nat (length (VertexInputDescription.mBindings
                                        PipelineScenario.description)) < 2 ^ 32)
    by (vm_compute; reflexivity).
  assert (Hall : Forall (fun binding =>
            Z.of_nat (length (VertexInputDescription.mAttributes binding)) < 2 ^ 32 /\
            (length (VertexInputDescription.mAttributes binding) < 3)%nat)
         (VertexInputDescription.mBindings PipelineScenario.description)).
  { repeat constructor; cbn; lia. }
  destruct (X12_GetAttributeDescriptions 3 PipelineScenario.description Hsmall Hall)
    as (attributes & Hrun & Hmem & _ & Hlength).
  exists attributes. split; [exact Hrun|]. split; [|exact Hlength].
  apply Hmem.
  exists 1%nat, (VertexInputDescription.mkBinding 8 1 [VertexInputDescription.mkAttribute 2 103 0]),
    (VertexInputDescription.mkAttribute 2 103 0).
  split; [reflexivity|]. split; [|reflexivity].
  apply list_elem_of_singleton. reflexivity.
Defined.

(** X13: take a description that stays below 2^32 bindings, in which every
    binding has fewer than 2^32 attributes and fewer than the fuel, with
    fuel for one attribute at least.  [AddBinding] appends one binding
    description, numbered with the old [Size()] and carrying the given
    stride and input rate, and changes no attribute description;
    [WithAttribute] called on the reference that [AddBinding] returned
    changes no binding description and appends one attribute description
    with the given location, format and offset and the number of the new
    binding. *)
Theorem X13_AddBinding_WithAttribute (fuel : nat) (d : VertexInputDescription.t)
    (stride inputRate location format offset : Z) :
  Z.of_nat (length (VertexInputDescription.mBindings d)) + 1 < 2 ^ 32 ->
  Forall (fun binding =>
            Z.of_nat (length (VertexInputDescription.mAttributes binding)) < 2 ^ 32 /\
            (length (VertexInputDescription.mAttributes binding) < fuel)%nat)
         (VertexInputDescription.mBindings d) ->
  (1 < fuel)%nat ->
  let added := VertexInputDescription.AddBinding stride inputRate d in
  let d1 := fst added in
  let d2 := VertexInputDescription.WithAttribute_at (snd added) location format offset d1 in
  VertexInputDescription.GetBindingDescriptions d1
    = VertexInputDescription.GetBindingDescriptions d
      ++ [VertexInputDescription.mkBindingDescription
            (VertexInputDescription.Size d) stride inputRate] /\
  VertexInputDescription.GetBindingDescriptions d2
    = VertexInputDescription.GetBindingDescriptions d1 /\
  exists attributes,
    VertexInputDescription.GetAttributeDescriptions fuel d = Some attributes /\
    VertexInputDescription.GetAttributeDescriptions fuel d1 = Some attributes /\
    VertexInputDescription.GetAttributeDescriptions fuel d2
      = Some (attributes
              ++ [VertexInputDescription.mkAttributeDescription
                    location (VertexInputDescription.Size d) format offset]).
Proof.
  intros Hsmall Hall Hfuel added d1 d2.
  destruct d as [l]. cbn [VertexInputDescription.mBindings] in Hsmall, Hall.
  assert (Hsize : VertexInputDescription.Size (VertexInputDescription.mk l) = Z.of_nat (length l))
    by (unfold VertexInputDescription.Size, uint32; cbn; apply Z.mod_small; lia).
  assert (Hd2 : d2 = VertexInputDescription.mk
                       (l ++ [VertexInputDescription.mkBinding stride inputRate
                                [VertexInputDescription.mkAttribute location format offset]])).
  { unfold d2, d1, added, VertexInputDescription.WithAttribute_at,
      VertexInputDescription.AddBinding. cbn [fst snd VertexInputDescription.mBindings].
    f_equal. replace (length l) with (length l + 0)%nat by lia.
    rewrite alter_app_r. reflexivity. }
  assert (Hsmall1 : Z.of_nat (length (l ++ [VertexInputDescription.Binding_ctor stride inputRate]))
                    < 2 ^ 32) by (rewrite length_app; cbn; lia).
  assert (Hsmall2 : Z.of_nat (length (l ++ [VertexInputDescription.mkBinding stride inputRate
                       [VertexInputDescription.mkAttribute location format offset]]))
                    < 2 ^ 32) by (rewrite length_app; cbn; lia).
  assert (Hsmall0 : Z.of_nat (length l) < 2 ^ 32) by lia.
  assert (Hall1 : Forall (fun binding =>
            Z.of_nat (length (VertexInputDescription.mAttributes binding)) < 2 ^ 32 /\
            (length (VertexInputDescription.mAttributes binding) < fuel)%nat)
         (l ++ [VertexInputDescription.Binding_ctor stride inputRate])).
  { apply Forall_app. split; [exact Hall|]. repeat constructor; cbn; lia. }
  assert (Hall2 : Forall (fun binding =>
            Z.of_nat (length (VertexInputDescription.mAttributes binding)) < 2 ^ 32 /\
            (length (VertexInputDescription.mAttributes binding) < fuel)%nat)
         (l ++ [VertexInputDescription.mkBinding stride inputRate
                  [VertexInputDescription.mkAttribute location format offset]])).
  { apply Forall_app. split; [exact Hall|]. repeat constructor; cbn; lia. }
  rewrite Hd2, Hsize. unfold d1, added, VertexInputDescription.AddBinding. cbn [fst].
  rewrite !GetBindingDescriptions_imap
    by (cbn [VertexInputDescription.mBindings]; assumption).
  rewrite !GetAttributeDescriptions_imap
    by (cbn [VertexInputDescription.mBindings]; assumption).
  cbn [VertexInputDescription.mBindings].
  rewrite !imap_app, !join_app. cbn. rewrite !Nat.add_0_r, !app_nil_r.
  split; [reflexivity|]. split; [reflexivity|].
  eexists. split; [reflexivity|]. split; reflexivity.
Qed.

(** X13 at work: a third binding with one attribute added to the
    description of the scenario. *)
Lemma X13_AddBinding_WithAttribute_witness :
  let added := VertexInputDescription.AddBinding 16 1 PipelineScenario.description in
  VertexInputDescription.GetBindingDescriptions (fst added)
    = [VertexInputDescription.mkBindingDescription 0 20 0;
       VertexInputDescription.mkBindingDescription 1 8 1;
       VertexInputDescription.mkBindingDescription 2 16 1] /\
  VertexInputDescription.GetAttributeDescriptions 3 (fst added)
    = VertexInputDescription.GetAttributeDescriptions 3 PipelineScenario.description /\
  VertexInputDescription.GetAttributeDescriptions 3
      (VertexInputDescription.WithAttribute_at (snd added) 3 109 0 (fst added))
    = Some [VertexInputDescription.mkAttributeDescription 0 0 106 0;
            VertexInputDescription.mkAttributeDescription 1 0 37 12;
            VertexInputDescription.mkAttributeDescription 2 1 103 0;
            VertexInputDescription.mkAttributeDescription 3 2 109 0].
Proof.
  assert (Hsmall : Z.of_nat (length (VertexInputDescription.mBindings
                                        PipelineScenario.description)) + 1 < 2 ^ 32)
    by (vm_compute; reflexivity).
  assert (Hall : Forall (fun binding =>
            Z.of_nat (length (VertexInputDescription.mAttributes binding)) < 2 ^ 32 /\
            (length (VertexInputDescription.mAttributes binding) < 3)%nat)
         (VertexInputDescription.mBindings PipelineScenario.description)).
  { repeat constructor; cbn; lia. }
  assert (Hfuel : (1 < 3)%nat) by lia.
  destruct (X13_AddBinding_WithAttribute 3 PipelineScenario.description 16 1 3 109 0
              Hsmall Hall Hfuel)
    as (Hbindings & _ & attributes & Hrun & Hrun1 & Hrun2).
  split; [exact Hbindings|]. split; [congruence|].
  rewrite Hrun2. vm_compute in Hrun. injection Hrun as <-. reflexivity.
Defined.

(* ===================================================================== *)
(** ** Pipeline.cpp: descriptor set layouts and shader stages              *)
(* ===================================================================== *)

Lemma WithBinding_lookup (type count stage : Z) (l : DescriptorSetLayout.t) (i : nat) :
  DescriptorSetLayout.mBindings (DescriptorSetLayout.WithBinding type count stage l) !! i
  = if decide (i < length (DescriptorSetLayout.mBindings l))%nat
    then DescriptorSetLayout.mBindings l !! i
    else if decide (i = length (DescriptorSetLayout.mBindings l))
         then Some (DescriptorSetLayout.mkLayoutBinding
                      (uint32 (Z.of_nat (length (DescriptorSetLayout.mBindings l))))
                      type count stage 0)
         else None.
Proof.
  unfold DescriptorSetLayout.WithBinding. cbn [DescriptorSetLayout.mBindings].
  destruct (decide (i < length (DescriptorSetLayout.mBindings l))%nat) as [Hlt|Hge].
  - apply lookup_app_l. exact Hlt.
  - rewrite lookup_app_r by lia.
    destruct (decide (i = length (DescriptorSetLayout.mBindings l))) as [->|Hne].
    + rewrite Nat.sub_diag. reflexivity.
    + destruct (i - length (DescriptorSetLayout.mBindings l))%nat eqn:E; [lia | reflexivity].
Qed.

(** X14: [DescriptorSetLayout::WithBinding] keeps the bindings of a layout
    numbered by position.  On a layout with fewer than 2^32 bindings that
    are numbered by position, it leaves the existing bindings as they are
    and appends one binding with the given type, count and stage flags, no
    immutable samplers, and the next number; the result is numbered by
    position again.  The empty layout is numbered by position. *)
Theorem X14_WithBinding_numbers (type count stage : Z) (l : DescriptorSetLayout.t) :
  DescriptorSetLayout.numbered l ->
  Z.of_nat (length (DescriptorSetLayout.mBindings l)) < 2 ^ 32 ->
  let l' := DescriptorSetLayout.WithBinding type count stage l in
  DescriptorSetLayout.numbered l' /\
  length (DescriptorSetLayout.mBindings l') = S (length (DescriptorSetLayout.mBindings l)) /\
  (forall i b, DescriptorSetLayout.mBindings l !! i = Some b ->
               DescriptorSetLayout.mBindings l' !! i = Some b) /\
  DescriptorSetLayout.mBindings l' !! length (DescriptorSetLayout.mBindings l)
    = Some (DescriptorSetLayout.mkLayoutBinding
              (Z.of_nat (length (DescriptorSetLayout.mBindings l))) type count stage 0) /\
  DescriptorSetLayout.numbered (DescriptorSetLayout.mk []).
Proof.
  intros Hnumbered Hsmall l'.
  assert (Hwrap : uint32 (Z.of_nat (length (DescriptorSetLayout.mBindings l)))
                  = Z.of_nat (length (DescriptorSetLayout.mBindings l)))
    by (unfold uint32; apply Z.mod_small; lia).
  split_and!.
  - intros i b. unfold l'. rewrite WithBinding_lookup.
    destruct (decide _); [apply Hnumbered|].
    destruct (decide _) as [->|]; [|discriminate].
    intros [= <-]. cbn. exact Hwrap.
  - unfold l', DescriptorSetLayout.WithBinding. cbn. rewrite length_app. cbn. lia.
  - intros i b Hb. unfold l'. rewrite WithBinding_lookup.
    rewrite decide_True by (eapply lookup_lt_Some; eauto). exact Hb.
  - unfold l'. rewrite WithBinding_lookup.
    rewrite decide_False by lia. rewrite decide_True by reflexivity.
    rewrite Hwrap. reflexivity.
  - intros i b Hb. discriminate.
Qed.

Lemma X14_WithBinding_numbers_witness :
  DescriptorSetLayout.mBindings
    (DescriptorSetLayout.WithBinding 6 1 1
       (DescriptorSetLayout.WithBinding 1 4 16 (DescriptorSetLayout.mk [])))
  !! 1%nat = Some (DescriptorSetLayout.mkLayoutBinding 1 6 1 1 0).
Proof.
  assert (Hempty : DescriptorSetLayout.numbered (DescriptorSetLayout.mk []))
    by (intros i b Hb; discriminate).
  assert (Hsmall0 : Z.of_nat (length (DescriptorSetLayout.mBindings (DescriptorSetLayout.mk [])))
                    < 2 ^ 32) by (vm_compute; reflexivity).
  destruct (X14_WithBinding_numbers 1 4 16 (DescriptorSetLayout.mk []) Hempty Hsmall0)
    as (Hnumbered1 & _).
  assert (Hsmall1 : Z.of_nat (length (DescriptorSetLayout.mBindings
                       (DescriptorSetLayout.WithBinding 1 4 16 (DescriptorSetLayout.mk []))))
                    < 2 ^ 32) by (vm_compute; reflexivity).
  destruct (X14_WithBinding_numbers 6 1 1 _ Hnumbered1 Hsmall1) as (_ & _ & _ & Hlast & _).
  exact Hlast.
Defined.

Lemma has_single_bit_spec (x : Z) :
  has_single_bit x = true <-> exists k : Z, 0 <= k < 32 /\ x = 2 ^ k.
Proof.
  unfold has_single_bit. rewrite existsb_exists. split.
  - intros (k & Hk & Hx). apply in_seq in Hk. apply Z.eqb_eq in Hx.
    exists (Z.of_nat k). split; [lia | exact Hx].
  - intros (k & Hk & ->). exists (Z.to_nat k). split.
    + apply in_seq. lia.
    + apply Z.eqb_eq. rewrite Z2Nat.id by lia. reflexivity.
Qed.

(** X15: [Pipeline::Builder::WithShaderStage] returns exactly when the
    stage is a single bit (a power of two below 2^32) for which the builder
    has no shader yet; the builder then holds the given shader for that
    stage and its other stages are unchanged.  Otherwise it aborts; in
    particular a second shader for the same stage always aborts, so a
    builder never holds two shaders for one stage. *)
Theorem X15_WithShaderStage (stage shader : Z) (mStages : gmap Z Z) :
  (forall mStages',
      WithShaderStage stage shader mStages = Returns mStages' <->
      mStages !! stage = None /\
      (exists k : Z, 0 <= k < 32 /\ stage = 2 ^ k) /\
      mStages' = <[stage := shader]> mStages) /\
  (WithShaderStage stage shader mStages = Aborts <->
   is_Some (mStages !! stage) \/ ~ (exists k : Z, 0 <= k < 32 /\ stage = 2 ^ k)) /\
  (forall mStages' shader',
      WithShaderStage stage shader mStages = Returns mStages' ->
      mStages' !! stage = Some shader /\
      (forall other, other <> stage -> mStages' !! other = mStages !! other) /\
      WithShaderStage stage shader' mStages' = Aborts).
Proof.
  assert (Hiff : forall mStages',
      WithShaderStage stage shader mStages = Returns mStages' <->
      mStages !! stage = None /\
      (exists k : Z, 0 <= k < 32 /\ stage = 2 ^ k) /\
      mStages' = <[stage := shader]> mStages).
  { intros mStages'. unfold WithShaderStage.
    rewrite <- has_single_bit_spec.
    destruct (mStages !! stage) as [old|] eqn:Hold.
    - rewrite bool_decide_eq_true_2 by eauto. cbn [negb].
      split; [discriminate | intros ([=] & _)].
    - rewrite bool_decide_eq_false_2 by (intros [? [=]]). cbn [negb].
      destruct (has_single_bit stage).
      + split; [intros [= <-]; auto | intros (_ & _ & ->); reflexivity].
      + split; [discriminate | intros (_ & [=] & _)]. }
  split; [exact Hiff|]. split.
  - unfold WithShaderStage. rewrite <- has_single_bit_spec.
    destruct (mStages !! stage) as [old|] eqn:Hold.
    + rewrite bool_decide_eq_true_2 by eauto. cbn [negb]. split; eauto.
    + rewrite bool_decide_eq_false_2 by (intros [? [=]]). cbn [negb].
      destruct (has_single_bit stage).
      * split; [discriminate|]. intros [[? [=]] | Hnot]. contradiction Hnot. reflexivity.
      * split; [|reflexivity]. intros _. right. discriminate.
  - intros mStages' shader' Hrun. apply Hiff in Hrun as (_ & _ & ->).
    split; [apply lookup_insert_eq|]. split.
    + intros other Hne. apply lookup_insert_ne. congruence.
    + unfold WithShaderStage. rewrite lookup_insert_eq.
      rewrite bool_decide_eq_true_2 by eauto. reflexivity.
Qed.

(** X15 at work: the vertex stage (bit 0x1) is accepted once, a second
    vertex shader aborts, and the combined mask 0x1F is not a stage. *)
Lemma X15_WithShaderStage_witness :
  WithShaderStage 1 100 ∅ = Returns {[ 1 := 100 ]} /\
  WithShaderStage 1 101 {[ 1 := 100 ]} = Aborts /\
  WithShaderStage 31 102 ∅ = Aborts.
Proof.
  assert (Hfirst : WithShaderStage 1 100 ∅ = Returns {[ 1 := 100 ]}).
  { apply (proj1 (X15_WithShaderStage 1 100 ∅)).
    split; [reflexivity|]. split; [|reflexivity]. exists 0. split; [lia | reflexivity]. }
  split; [exact Hfirst|]. split.
  - apply (proj2 (proj2 (X15_WithShaderStage 1 100 ∅)) {[ 1 := 100 ]} 101 Hfirst).
  - apply (proj1 (proj2 (X15_WithShaderStage 31 102 ∅))). right.
    intros (k & Hk & Hpow).
    assert (Hcases : k = 0 \/ k = 1 \/ k = 2 \/ k = 3 \/ k = 4 \/ 5 <= k) by lia.
    destruct Hcases as [-> | [-> | [-> | [-> | [-> | Hbig]]]]]; try discriminate.
    assert (2 ^ 5 <= 2 ^ k) by (apply Z.pow_le_mono_r; lia). lia.
Defined.

(* ===================================================================== *)
(** ** Pipeline.cpp and CommandPool.cpp: moves and destruction             *)
(* ===================================================================== *)

Lemma Pipeline_moved_from_silent (p : Pipeline.t) :
  Pipeline.destructor (snd (Pipeline.move_ctor p)) = Returns [].
Proof. reflexivity. Qed.

Lemma Pipeline_moved_to_same (p : Pipeline.t) :
  Pipeline.destructor (fst (Pipeline.move_ctor p)) = Pipeline.destructor p.
Proof. destruct p. reflexivity. Qed.

(** X16: a [Pipeline] with a pipeline handle and a device, among pipeline
    objects without a pipeline handle, is moved and destroyed by any
    program of move constructions, move assignments and destructions that
    respects object lifetimes and ends with every object destroyed: the
    native objects are destroyed exactly once, in the order pipeline
    layout, render pass, the descriptor set layouts in order, descriptor
    pool, pipeline, all on the pipeline's device: four calls plus one per
    descriptor set layout.  Moved-from pipelines destroy nothing. *)
Theorem X16_Pipeline_destroyed_once (ops : list Op)
    (s : MoveOnly.Store Pipeline.t Pipeline.Call) (holder : nat) (p : Pipeline.t) (device : Z) :
  MoveOnly.live s !! holder = Some p ->
  Pipeline.mPipeline p <> VK_NULL_HANDLE ->
  Pipeline.mDevice p = Some device ->
  (forall id q, id <> holder -> MoveOnly.live s !! id = Some q ->
                Pipeline.mPipeline q = VK_NULL_HANDLE) ->
  valid ops (dom (MoveOnly.live s)) = true ->
  final_live ops (dom (MoveOnly.live s)) = ∅ ->
  let teardown :=
    [Pipeline.DestroyPipelineLayout device (Pipeline.mPipelineLayout p);
     Pipeline.DestroyRenderPass device (Pipeline.mRenderPass p)]
    ++ (Pipeline.DestroyDescriptorSetLayout device <$> Pipeline.mDescriptorSetLayouts p)
    ++ [Pipeline.DestroyDescriptorPool device (Pipeline.mDescriptorPool p);
        Pipeline.DestroyPipeline device (Pipeline.mPipeline p)] in
  Pipeline.run ops s = Returns (MoveOnly.mkStore ∅ (MoveOnly.log s ++ teardown)) /\
  length teardown = (4 + length (Pipeline.mDescriptorSetLayouts p))%nat /\
  last teardown = Some (Pipeline.DestroyPipeline device (Pipeline.mPipeline p)).
Proof.
  intros Hp Hhandle Hdev Hothers Hvalid Hfinal teardown.
  assert (Hdestroy : Pipeline.destructor p = Returns teardown).
  { unfold Pipeline.destructor.
    destruct (Z.eqb_spec (Pipeline.mPipeline p) VK_NULL_HANDLE); [contradiction|].
    cbn [negb]. rewrite Hdev. reflexivity. }
  split; [|split].
  - apply (run_releases_once Pipeline.move_ctor Pipeline.destructor
             Pipeline_moved_from_silent Pipeline_moved_to_same _ _ ops s holder);
      [|assumption|assumption].
    split.
    + intros id q Hq Hid. unfold Pipeline.destructor.
      rewrite (Hothers id q) by (congruence || assumption). reflexivity.
    + split; [|reflexivity]. exists p. split; [exact Hp | exact Hdestroy].
  - unfold teardown. cbn. rewrite length_app, length_fmap. cbn. lia.
  - unfold teardown.
    change [Pipeline.DestroyDescriptorPool device (Pipeline.mDescriptorPool p);
            Pipeline.DestroyPipeline device (Pipeline.mPipeline p)]
      with ([Pipeline.DestroyDescriptorPool device (Pipeline.mDescriptorPool p)]
            ++ [Pipeline.DestroyPipeline device (Pipeline.mPipeline p)]).
    rewrite !app_assoc. apply last_snoc.
Qed.

(** X16 at work: the scenario's pipeline on device 5 with descriptor set
    layouts 45 and 46 is moved around and destroyed. *)
Lemma X16_Pipeline_destroyed_once_witness :
  Pipeline.run Scenario.program PipelineScenario.store
  = Returns (MoveOnly.mkStore ∅
               [Pipeline.DestroyPipelineLayout 5 42; Pipeline.DestroyRenderPass 5 41;
                Pipeline.DestroyDescriptorSetLayout 5 45;
                Pipeline.DestroyDescriptorSetLayout 5 46;
                Pipeline.DestroyDescriptorPool 5 47; Pipeline.DestroyPipeline 5 40]).
Proof.
  apply (X16_Pipeline_destroyed_once Scenario.program PipelineScenario.store 0
           PipelineScenario.pipeline 5).
  - reflexivity.
  - discriminate.
  - reflexivity.
  - intros id q Hid Hq. cbn in Hq.
    rewrite lookup_singleton_ne in Hq by congruence. discriminate.
  - vm_compute. reflexivity.
  - vm_compute. reflexivity.
Defined.

Lemma CommandPool_moved_from_silent (p : CommandPool.t) :
  CommandPool.destructor (snd (CommandPool.move_ctor p)) = Returns [].
Proof. reflexivity. Qed.

Lemma CommandPool_moved_to_same (p : CommandPool.t) :
  CommandPool.destructor (fst (CommandPool.move_ctor p)) = CommandPool.destructor p.
Proof. destruct p. reflexivity. Qed.

(** X17: the constructor of [CommandPool] makes one [vkCreateCommandPool]
    call on the device's handle and queue family, with the flag
    [VK_COMMAND_POOL_CREATE_RESET_COMMAND_BUFFER_BIT] exactly when
    [resetBit] is set, and aborts unless the call answers [VK_SUCCESS].
    When it succeeds with a non-null handle, every program of moves and
    destructions that respects object lifetimes and ends with every object
    destroyed makes exactly one more native call: the
    [vkDestroyCommandPool] of that handle on that device. *)
Theorem X17_CommandPool_lifecycle (create : Z -> Z -> Z -> Z * Z) (device : CommandPool.Device)
    (resetBit : bool) (this : nat) (ops : list Op) :
  let flags := if resetBit then VK_COMMAND_POOL_CREATE_RESET_COMMAND_BUFFER_BIT else 0 in
  let answer := create (CommandPool.device_mDevice device) flags
                  (CommandPool.device_mQueueFamilyIndex device) in
  (fst answer <> VK_SUCCESS ->
   CommandPool.construct_then_run create device resetBit this ops = Aborts) /\
  (fst answer = VK_SUCCESS ->
   snd answer <> VK_NULL_HANDLE ->
   valid ops {[ this ]} = true ->
   final_live ops {[ this ]} = ∅ ->
   CommandPool.construct_then_run create device resetBit this ops
   = Returns (MoveOnly.mkStore ∅
                [CommandPool.CreateCommandPool (CommandPool.device_mDevice device) flags
                   (CommandPool.device_mQueueFamilyIndex device);
                 CommandPool.DestroyCommandPool (CommandPool.device_mDevice device)
                   (snd answer)])).
Proof.
  intros flags answer.
  unfold CommandPool.construct_then_run, CommandPool.ctor. fold flags. fold answer.
  destruct answer as [result commandPool]. cbn [fst snd]. split.
  - intros Hfail. destruct (Z.eqb_spec result VK_SUCCESS); [contradiction | reflexivity].
  - intros -> Hhandle Hvalid Hfinal. cbn [Z.eqb VK_SUCCESS].
    change (VK_SUCCESS =? VK_SUCCESS) with true. cbn iota.
    apply (run_releases_once CommandPool.move_ctor CommandPool.destructor
             CommandPool_moved_from_silent CommandPool_moved_to_same
             [CommandPool.DestroyCommandPool (CommandPool.device_mDevice device) commandPool]
             [CommandPool.CreateCommandPool (CommandPool.device_mDevice device) flags
                (CommandPool.device_mQueueFamilyIndex device)]
             ops _ this); cbn [MoveOnly.live]; rewrite ?dom_singleton_L; try assumption.
    split.
    + intros id q Hq Hid. cbn in Hq.
      rewrite lookup_singleton_ne in Hq by congruence. discriminate.
    + split; [|reflexivity]. eexists. split; [apply lookup_singleton_eq|].
      unfold CommandPool.destructor. cbn [CommandPool.mCommandPool].
      destruct (Z.eqb_spec commandPool VK_NULL_HANDLE); [contradiction | reflexivity].
Qed.

(** X17 at work: a resettable command pool on device 5, queue family 3, is
    created as handle 77, moved around and destroyed; a driver that answers
    [VK_ERROR_OUT_OF_HOST_MEMORY] makes the constructor abort. *)
Lemma X17_CommandPool_lifecycle_witness :
  CommandPool.construct_then_run PipelineScenario.create PipelineScenario.device true 0
    Scenario.program
  = Returns (MoveOnly.mkStore ∅ [CommandPool.CreateCommandPool 5 2 3;
                                 CommandPool.DestroyCommandPool 5 77]) /\
  CommandPool.construct_then_run (fun _ _ _ => (VK_ERROR_OUT_OF_HOST_MEMORY, 0))
    PipelineScenario.device false 0 [] = Aborts.
Proof.
  split.
  - apply (proj2 (X17_CommandPool_lifecycle PipelineScenario.create PipelineScenario.device
                    true 0 Scenario.program)).
    + reflexivity.
    + discriminate.
    + vm_compute. reflexivity.
    + vm_compute. reflexivity.
  - apply (proj1 (X17_CommandPool_lifecycle (fun _ _ _ => (VK_ERROR_OUT_OF_HOST_MEMORY, 0))
                    PipelineScenario.device false 0 [])).
    discriminate.
Defined.

(* ===================================================================== *)
(** ** SpriteSheet.cpp and FontFace.cpp                                    *)
(* ===================================================================== *)

(** X18: for an image extent and a positive sprite count per axis,
    [GetSpriteSize] is the largest sprite extent for which that many
    sprites fit into the image: count times the sprite extent does not
    exceed the image extent, and one more pixel per sprite would. *)
Theorem X18_GetSpriteSize (imageSize mSpriteCount : Z * Z) :
  0 <= fst imageSize -> 0 <= snd imageSize ->
  0 < fst mSpriteCount -> 0 < snd mSpriteCount ->
  let spriteSize := SpriteSheet_GetSpriteSize imageSize mSpriteCount in
  0 <= fst spriteSize /\
  fst spriteSize * fst mSpriteCount <= fst imageSize
    < (fst spriteSize + 1) * fst mSpriteCount /\
  0 <= snd spriteSize /\
  snd spriteSize * snd mSpriteCount <= snd imageSize
    < (snd spriteSize + 1) * snd mSpriteCount.
Proof.
  intros Hw Hh Hcw Hch spriteSize.
  unfold spriteSize, SpriteSheet_GetSpriteSize. cbn [fst snd].
  pose proof (Z.div_pos (fst imageSize) (fst mSpriteCount) Hw Hcw).
  pose proof (Z.div_pos (snd imageSize) (snd mSpriteCount) Hh Hch).
  pose proof (Z.mul_div_le (fst imageSize) (fst mSpriteCount) Hcw).
  pose proof (Z.mul_div_le (snd imageSize) (snd mSpriteCount) Hch).
  pose proof (Z.mul_succ_div_gt (fst imageSize) (fst mSpriteCount) Hcw).
  pose proof (Z.mul_succ_div_gt (snd imageSize) (snd mSpriteCount) Hch).
  rewrite !(Z.mul_comm _ (fst mSpriteCount)), !(Z.mul_comm _ (snd mSpriteCount)).
  unfold Z.succ in *. split_and!; assumption.
Qed.

(** X18 at work: a 100 by 64 sheet of 3 by 4 sprites has sprites of 33 by
    16 pixels. *)
Lemma X18_GetSpriteSize_witness :
  SpriteSheet_GetSpriteSize (100, 64) (3, 4) = (33, 16) /\
  33 * 3 <= 100 < (33 + 1) * 3.
Proof.
  split; [reflexivity|].
  apply (X18_GetSpriteSize (100, 64) (3, 4)); cbn; lia.
Defined.

Lemma quadruple_length (l : list byte) :
  length (mjoin ((fun byte : byte => [byte; byte; byte; byte]) <$> l)) = (4 * length l)%nat.
Proof.
  induction l as [|x l IH]; [reflexivity|].
  change (length (x :: x :: x :: x ::
                  mjoin ((fun byte : byte => [byte; byte; byte; byte]) <$> l))
          = (4 * length (x :: l))%nat).
  cbn [length]. rewrite IH. lia.
Qed.

Lemma quadruple_lookup (l : list byte) (i k : nat) (x : byte) :
  l !! i = Some x ->
  (k < 4)%nat ->
  mjoin ((fun byte : byte => [byte; byte; byte; byte]) <$> l) !! (4 * i + k)%nat = Some x.
Proof.
  revert i. induction l as [|y l IH]; intros i Hi Hk; [discriminate|].
  destruct i as [|i].
  - injection Hi as ->.
    destruct k as [|[|[|[|k]]]]; try reflexivity. lia.
  - replace (4 * S i + k)%nat with (S (S (S (S (4 * i + k))))) by lia.
    cbn. apply IH; assumption.
Qed.

Lemma push_loop_take (fuel : nat) (b : Glyph.FT_Bitmap) (k : nat) (glyphBytes : list byte) :
  Glyph.bitmapLength b <= Glyph.INT_MAX ->
  (Z.to_nat (Glyph.bitmapLength b) <= length (Glyph.buffer b))%nat ->
  (k <= Z.to_nat (Glyph.bitmapLength b))%nat ->
  (Z.to_nat (Glyph.bitmapLength b) - k < fuel)%nat ->
  Glyph.push_loop fuel b (Z.of_nat k) glyphBytes
  = Glyph.Finished
      (glyphBytes
       ++ mjoin ((fun byte : byte => [byte; byte; byte; byte])
                   <$> drop k (take (Z.to_nat (Glyph.bitmapLength b)) (Glyph.buffer b)))).
Proof.
  intros Hint Henough. revert k glyphBytes.
  induction fuel as [|fuel IH]; intros k glyphBytes Hk Hfuel; [lia|].
  cbn [Glyph.push_loop].
  destruct (Z.ltb_spec (Z.of_nat k) (Glyph.bitmapLength b)) as [Hlt | Hge].
  - rewrite Nat2Z.id.
    destruct (Glyph.buffer b !! k) as [x|] eqn:Hx.
    + destruct (Z.eqb_spec (Z.of_nat k) Glyph.INT_MAX) as [Heq | _]; [lia|].
      replace (Z.of_nat k + 1) with (Z.of_nat (S k)) by lia.
      rewrite IH by lia.
      assert (Hx' : take (Z.to_nat (Glyph.bitmapLength b)) (Glyph.buffer b) !! k = Some x)
        by (rewrite lookup_take_lt by lia; exact Hx).
      rewrite (drop_S _ _ _ Hx'), fmap_cons, <- app_assoc. reflexivity.
    + apply lookup_ge_None in Hx. lia.
  - rewrite drop_ge by (rewrite length_take_le; lia).
    rewrite fmap_nil. cbn [mjoin list_join]. rewrite app_nil_r. reflexivity.
Qed.

(** X19: the bytes that [GetGlyphBitmap] prepares for the staging buffer.
    For a glyph without pixels ([pixelCount] is 0) the function returns
    [Core::NullOpt] and prepares nothing, whatever the pitch and the
    buffer.  Otherwise, when the bitmap holds at least [bitmapLength] bytes
    and [bitmapLength] fits an [int], the loop ends and produces four bytes
    per bitmap byte: the result is [4 * bitmapLength] bytes long and bytes
    [4 i] to [4 i + 3] all equal bitmap byte [i] (one coverage value
    replicated into the four colour channels).  The result has the size of
    the staging buffer, [uint32_t(4 * pixelCount)], when
    [bitmapLength = pixelCount] and that product does not wrap; with padded
    rows ([pixelCount < bitmapLength]) it is longer than the staging
    buffer. *)
Theorem X19_glyph_bytes (fuel : nat) (b : Glyph.FT_Bitmap) :
  (Glyph.pixelCount b = 0 -> Glyph.glyphBytes fuel b = Glyph.Finished None) /\
  (Glyph.pixelCount b <> 0 ->
   Glyph.pitch b <> Glyph.INT_MIN ->
   Glyph.bitmapLength b <= Glyph.INT_MAX ->
   Glyph.bitmapLength b <= Z.of_nat (length (Glyph.buffer b)) ->
   Glyph.bitmapLength b < Z.of_nat fuel ->
   exists bytes,
     Glyph.glyphBytes fuel b = Glyph.Finished (Some bytes) /\
     Z.of_nat (length bytes) = 4 * Glyph.bitmapLength b /\
     (forall (i k : nat) (x : byte),
         Z.of_nat i < Glyph.bitmapLength b ->
         Glyph.buffer b !! i = Some x ->
         (k < 4)%nat ->
         bytes !! (4 * i + k)%nat = Some x) /\
     (Glyph.bitmapLength b = Glyph.pixelCount b ->
      4 * Glyph.pixelCount b < 2 ^ 32 ->
      Z.of_nat (length bytes) = Glyph.stagingSize b) /\
     (Glyph.pixelCount b < Glyph.bitmapLength b ->
      Glyph.stagingSize b < Z.of_nat (length bytes))).
Proof.
  split.
  - intros Hzero. unfold Glyph.glyphBytes. rewrite Hzero. reflexivity.
  - intros Hpixels Hpitch Hint Henough Hfuel.
    assert (Hnonneg : 0 <= Glyph.bitmapLength b).
    { unfold Glyph.bitmapLength, uint32. apply Z.mod_pos_bound. lia. }
    assert (Hcount : 0 <= Glyph.pixelCount b).
    { unfold Glyph.pixelCount, uint32. apply Z.mod_pos_bound. lia. }
    eexists. split.
    { unfold Glyph.glyphBytes.
      destruct (Z.eqb_spec (Glyph.pixelCount b) 0) as [|_]; [contradiction|].
      destruct (Z.eqb_spec (Glyph.pitch b) Glyph.INT_MIN) as [|_]; [contradiction|].
      change 0 with (Z.of_nat 0) at 1.
      rewrite (push_loop_take fuel b 0 [] Hint) by lia.
      rewrite drop_0. reflexivity. }
    cbn [app].
    assert (Hlength :
      Z.of_nat (length (mjoin ((fun byte : byte => [byte; byte; byte; byte])
                                 <$> take (Z.to_nat (Glyph.bitmapLength b)) (Glyph.buffer b))))
      = 4 * Glyph.bitmapLength b).
    { rewrite quadruple_length, length_take_le by lia. lia. }
    split; [exact Hlength|]. split; [|split].
    + intros i k x Hi Hx Hk.
      apply quadruple_lookup; [|exact Hk].
      rewrite lookup_take_lt by lia. exact Hx.
    + intros Hequal Hfits. rewrite Hlength, Hequal.
      unfold Glyph.stagingSize, uint32. rewrite Z.mod_small by lia. reflexivity.
    + intros Hpadded. rewrite Hlength.
      assert (Glyph.stagingSize b <= 4 * Glyph.pixelCount b)
        by (unfold Glyph.stagingSize, uint32; apply Z.mod_le; lia).
      lia.
Qed.

(** X19 at work: a glyph without pixels gives no bytes, although its
    pitch and rows are not zero; a 3 by 2 bitmap without padding gives 24
    bytes, the size of the staging buffer; with rows padded to 4 bytes it
    gives 32 bytes for a staging buffer of 24. *)
Lemma X19_glyph_bytes_witness :
  Glyph.glyphBytes 9 PipelineScenario.blank = Glyph.Finished None /\
  (exists bytes,
      Glyph.glyphBytes 9 PipelineScenario.tight = Glyph.Finished (Some bytes) /\
      Z.of_nat (length bytes) = 4 * 6 /\
      bytes !! 5%nat = Some x20 /\
      Z.of_nat (length bytes) = Glyph.stagingSize PipelineScenario.tight) /\
  (exists bytes,
      Glyph.glyphBytes 9 PipelineScenario.padded = Glyph.Finished (Some bytes) /\
      Z.of_nat (length bytes) = 4 * 8 /\
      Glyph.stagingSize PipelineScenario.padded < Z.of_nat (length bytes)).
Proof.
  split; [|split].
  - apply (proj1 (X19_glyph_bytes 9 PipelineScenario.blank)). reflexivity.
  - destruct (proj2 (X19_glyph_bytes 9 PipelineScenario.tight))
      as (bytes & Hrun & Hlength & Hread & Hsame & _);
      [vm_compute; discriminate | vm_compute; discriminate | vm_compute; discriminate
      | vm_compute; discriminate | vm_compute; reflexivity |].
    exists bytes. split; [exact Hrun|]. split; [exact Hlength|]. split.
    + apply (Hread 1%nat 1%nat x20); [vm_compute; reflexivity | reflexivity | lia].
    + apply Hsame; [reflexivity | vm_compute; reflexivity].
  - destruct (proj2 (X19_glyph_bytes 9 PipelineScenario.padded))
      as (bytes & Hrun & Hlength & _ & _ & Hlonger);
      [vm_compute; discriminate | vm_compute; discriminate | vm_compute; discriminate
      | vm_compute; discriminate | vm_compute; reflexivity |].
    exists bytes. split; [exact Hrun|]. split; [exact Hlength|].
    apply Hlonger. vm_compute. reflexivity.
Defined.

(* ===================================================================== *)
(** ** MemoryPool: from allocation to destruction                          *)
(* ===================================================================== *)

(** X20: when the native allocation succeeds with a non-null handle on a
    live device, the pool that [MemoryPool::Allocate] returns is not mapped
    and owns that handle: its destructor makes exactly one [vkFreeMemory]
    call, on the device the pool was allocated on and for the handle the
    allocation call produced. *)
Theorem X20_Allocate_then_destroy (drv : Driver) (device physicalDevice : nat)
    (memoryTypeIndex size : Z) (w : World) :
  let answer := allocate_memory drv (calls w) device size memoryTypeIndex in
  fst answer = VK_SUCCESS ->
  snd answer <> VK_NULL_HANDLE ->
  device ∈ devices drv ->
  exists p,
    MemoryPool_Allocate drv device physicalDevice memoryTypeIndex size w
    = Returns (Ok p, set_calls (calls w ++ [CallAllocateMemory device size memoryTypeIndex]) w) /\
    MemoryPool.mMappedAddress p = None /\
    MemoryPool_destructor drv p = Returns [mkFreeMemory device (snd answer)].
Proof.
  intros answer Hok Hhandle Hlive.
  unfold MemoryPool_Allocate, bind, vkAllocateMemory. fold answer.
  destruct answer as [result memory]. cbn [fst snd] in *. subst result.
  eexists. split; [reflexivity|]. split; [reflexivity|].
  apply MemoryPool_destructor_owner; [exact Hhandle | reflexivity | exact Hlive].
Qed.

(** X20 at work: the scenario's driver allocates handle 7, which the
    destructor of the returned pool frees. *)
Lemma X20_Allocate_then_destroy_witness :
  exists p,
    MemoryPool_Allocate Scenario.driver 0 0 0 256 Scenario.world
    = Returns (Ok p, set_calls [CallAllocateMemory 0 256 0] Scenario.world) /\
    MemoryPool.mMappedAddress p = None /\
    MemoryPool_destructor Scenario.driver p = Returns [mkFreeMemory 0 7].
Proof.
  apply (X20_Allocate_then_destroy Scenario.driver 0 0 0 256 Scenario.world).
  - reflexivity.
  - discriminate.
  - vm_compute. reflexivity.
Defined.
